(** * Stockpile: a shallow embedding of [src/stockpile.c]

    The archive engine of the Stockpile library (builder, finalize,
    serialize, parse, lookup, read) is transcribed function by function.

    Conventions of the embedding.
    - A byte is an integer in [0, 256); fixed-width C integers are [Z]
      with the truncation of every narrowing conversion written out
      ([uint8], [uint32], [ssize_of_size]).  [size_t] quantities that
      are sizes of live objects are kept as unbounded [Z]; a byte count
      computed from a capacity the caller supplies wraps as [size_t]
      does ([size_t_of]).
    - A buffer designated by a pointer and a length is the list of its
      bytes; a nullable pointer is an [option].
    - [char] arrays of fixed size ([entry_name[256]], [name[255]]) are
      lists of exactly that many bytes, zero filled as the code does.
    - A pointer into the archive's data block is its offset from the
      start of that block.
    - The process-wide last-error code and the file system form the
      [World] that every API function transforms.
    - An execution that a C implementation leaves undefined (indexing
      past an array, releasing a block twice) yields [Undefined].
    - [malloc] and [calloc] are assumed to succeed for the sizes of
      live objects.  Where the size is computed from a capacity the
      caller supplies, the request is refused above [PTRDIFF_MAX] and
      assumed to be granted otherwise, and the size of the block
      granted is kept with the builder ([bl_block]), so that a store
      past the end of the block is [Undefined].  The bytes of a block
      obtained from [malloc] are whatever the block held before, so
      functions that return such a block without assigning all of its
      fields take those previous contents as an argument.  [fwrite] is
      assumed to succeed.
    - Object sizes are those of the LP64 data model:
      [sizeof(StpEntry)] is 272 and [sizeof(StpArchiveBuilderEntry)]
      is 280. *)

From Stdlib Require Import String Ascii ZArith List Bool Lia.
Import ListNotations.
Local Open Scope Z_scope.

(** ** C runtime *)

Definition byte := Z.

Definition uint8 (x : Z) : Z := x mod 2 ^ 8.
Definition uint32 (x : Z) : Z := x mod 2 ^ 32.

(** Conversion [(ssize_t)x] of a [size_t] on a 64-bit target. *)
Definition ssize_of_size (x : Z) : Z :=
  let y := x mod 2 ^ 64 in
  if y <? 2 ^ 63 then y else y - 2 ^ 64.

(** Little-endian image of a 32-bit object. *)
Definition le32 (x : Z) : list byte :=
  [ x mod 256; (x / 2 ^ 8) mod 256; (x / 2 ^ 16) mod 256; (x / 2 ^ 24) mod 256 ].

Definition of_le32 (bs : list byte) : Z :=
  nth 0 bs 0 + 2 ^ 8 * nth 1 bs 0 + 2 ^ 16 * nth 2 bs 0 + 2 ^ 24 * nth 3 bs 0.

Definition zeros (n : nat) : list byte := repeat 0 n.

(** The bytes of a string literal, without the terminator. *)
Fixpoint bytes_of_string (s : string) : list byte :=
  match s with
  | EmptyString => []
  | String c s' => Z.of_nat (nat_of_ascii c) :: bytes_of_string s'
  end.

(** The characters of a C string: everything before the first NUL (the
    end of the list stands for the terminator of a literal). *)
Fixpoint cstr (s : list byte) : list byte :=
  match s with
  | [] => []
  | c :: s' => if c =? 0 then [] else c :: cstr s'
  end.

Definition strlen (s : list byte) : Z := Z.of_nat (length (cstr s)).

Fixpoint strcmp (a b : list byte) : Z :=
  match a, b with
  | [], [] => 0
  | [], y :: _ => 0 - y
  | x :: _, [] => x
  | x :: a', y :: b' =>
      if x =? y then (if x =? 0 then 0 else strcmp a' b') else x - y
  end.

Fixpoint memcmp (a b : list byte) (n : nat) : Z :=
  match n with
  | O => 0
  | S n' =>
      match a, b with
      | x :: a', y :: b' => if x =? y then memcmp a' b' n' else x - y
      | _, _ => 0
      end
  end.

(** Outcome of an execution: a value, or undefined behaviour. *)
Inductive outcome (A : Type) : Type :=
| Defined (a : A)
| Undefined.
Arguments Defined {A} a.
Arguments Undefined {A}.

Definition obind {A B} (m : outcome A) (k : A -> outcome B) : outcome B :=
  match m with
  | Defined a => k a
  | Undefined => Undefined
  end.

(** [len] bytes of [buf] starting at [off]; reading outside the block is
    undefined. *)
Definition read_block (buf : list byte) (off len : Z) : outcome (list byte) :=
  if (0 <=? off) && (0 <=? len) && (off + len <=? Z.of_nat (length buf))
  then Defined (firstn (Z.to_nat len) (skipn (Z.to_nat off) buf))
  else Undefined.

(** [memcpy(dst, src, n)] seen from [dst]: its first [n] bytes are
    replaced; both blocks must hold [n] bytes. *)
Definition memcpy (dst src : list byte) (n : Z) : outcome (list byte) :=
  if (0 <=? n) && (n <=? Z.of_nat (length dst)) && (n <=? Z.of_nat (length src))
  then Defined (firstn (Z.to_nat n) src ++ skipn (Z.to_nat n) dst)
  else Undefined.

(** *** Streams *)

(** The allocator.  [size_t_of] is the value a [size_t] expression
    takes.  [malloc] and [calloc] answer with the size of the block
    they grant, or NULL: a request above [PTRDIFF_MAX], or a [calloc]
    whose product does not fit, is refused. *)
Definition PTRDIFF_MAX : Z := 2 ^ 63 - 1.

Definition size_t_of (z : Z) : Z := z mod 2 ^ 64.

Definition malloc (size : Z) : option Z :=
  if size <=? PTRDIFF_MAX then Some size else None.

Definition calloc (nmemb size : Z) : option Z :=
  if nmemb * size <=? PTRDIFF_MAX then Some (nmemb * size) else None.

Definition sizeof_uint32_t : Z := 4.
Definition sizeof_StpEntry : Z := 272.
Definition sizeof_StpArchiveBuilderEntry : Z := 280.

Record FILE : Type := mkFILE {
  contents : list byte;
  pos : Z
}.

Definition fopen_bytes (bs : list byte) : FILE := mkFILE bs 0.

(** [fread(ptr, size, nmemb, f)]: the number of complete items read, the
    bytes delivered, and the advanced stream. *)
Definition fread (size nmemb : Z) (f : FILE) : Z * list byte * FILE :=
  let avail := Z.max 0 (Z.of_nat (length (contents f)) - pos f) in
  let nbytes := Z.min (size * nmemb) avail in
  let got := firstn (Z.to_nat nbytes) (skipn (Z.to_nat (pos f)) (contents f)) in
  (if size =? 0 then 0 else nbytes / size, got, mkFILE (contents f) (pos f + nbytes)).

Definition fseek_set (off : Z) (f : FILE) : FILE := mkFILE (contents f) off.

(** [fwrite] of the bytes [bs] at the current position. *)
Definition fwrite (bs : list byte) (f : FILE) : FILE :=
  let p := Z.to_nat (pos f) in
  let old := contents f ++ zeros (p - length (contents f)) in
  mkFILE (firstn p old ++ bs ++ skipn (p + length bs) old)
         (pos f + Z.of_nat (length bs)).

(** *** zlib *)

(** [crc32] of zlib: the reflected CRC-32 of polynomial [0xEDB88320],
    the running value being complemented on entry and on exit; a NULL
    buffer asks for the initial value. *)
Definition crc32_poly : Z := 0xEDB88320.

Definition crc32_shift (c : Z) : Z :=
  if Z.testbit c 0 then Z.lxor (Z.shiftr c 1) crc32_poly else Z.shiftr c 1.

Definition crc32_byte (c : Z) (b : byte) : Z :=
  Nat.iter 8 crc32_shift (Z.lxor c b).

Definition crc32 (crc : Z) (buf : option (list byte)) : Z :=
  match buf with
  | None => 0
  | Some bs => Z.lxor (fold_left crc32_byte bs (Z.lxor crc 0xffffffff)) 0xffffffff
  end.

(** The deflate entry points of zlib, which the library links against.
    [compress cap src] is the sequence of bytes deposited in a
    destination announced to hold [cap] bytes (its length is the value
    left in [*destLen]); likewise [uncompress]. *)
Class Zlib : Type := {
  compress : Z -> list byte -> list byte;
  uncompress : Z -> list byte -> list byte
}.

(** A codec that stores the source unchanged when the destination is
    large enough and deposits nothing otherwise; it serves to run the
    model on concrete inputs. *)
Definition stored_codec : Zlib := {|
  compress cap src := if Z.of_nat (length src) <=? cap then src else [];
  uncompress cap src := if Z.of_nat (length src) <=? cap then src else []
|}.

(** ** Error codes and the world *)

Inductive StpErrorCode : Type :=
| STP_OK
| STP_ERROR_INVALID_ARGUMENT
| STP_ERROR_OUT_OF_MEMORY
| STP_ERROR_OUT_OF_RANGE
| STP_ERROR_FILE_NOT_FOUND
| STP_ERROR_FILE_OPEN
| STP_ERROR_FILE_READ
| STP_ERROR_FILE_WRITE
| STP_ERROR_IDENTIFIER_MISMATCH
| STP_ERROR_CRC
| STP_ERROR_ENTRY_REDEFINITION
| STP_ERROR_ENTRY_NOT_FOUND.

Record inode : Type := mkInode {
  file_bytes : list byte;
  readable : bool;
  writable : bool
}.

Record World : Type := mkWorld {
  s_stp_error_code : StpErrorCode;
  files : string -> option inode
}.

(** API functions: transformers of the world that may be undefined. *)
Definition Stp (A : Type) : Type := World -> outcome (A * World).

Definition ret {A} (a : A) : Stp A := fun w => Defined (a, w).

Definition bind {A B} (m : Stp A) (k : A -> Stp B) : Stp B :=
  fun w => match m w with
           | Defined (a, w') => k a w'
           | Undefined => Undefined
           end.

Definition undefined {A} : Stp A := fun _ => Undefined.

Definition lift {A} (o : outcome A) : Stp A :=
  fun w => match o with Defined a => Defined (a, w) | Undefined => Undefined end.

Declare Scope stp_scope.
Delimit Scope stp_scope with stp.
Notation "x <- m ;; k" := (bind m (fun x => k))
  (at level 61, m at next level, right associativity) : stp_scope.
Notation "m ;;; k" := (bind m (fun _ => k))
  (at level 61, right associativity) : stp_scope.
Local Open Scope stp_scope.

Definition set_error (code : StpErrorCode) (w : World) : World :=
  mkWorld code (files w).

Definition StpSetError (code : StpErrorCode) : Stp unit :=
  fun w => Defined (tt, set_error code w).

Definition StpGetError : Stp StpErrorCode :=
  fun w => Defined (s_stp_error_code w, w).

(** [stat(path, &st) == 0]: the path names an existing file. *)
Definition stat_ok (path : string) : Stp bool :=
  fun w => Defined (match files w path with Some _ => true | None => false end, w).

(** [fopen(path, "rb")]. *)
Definition fopen_rb (path : string) : Stp (option FILE) :=
  fun w => Defined (match files w path with
                    | Some i => if readable i then Some (fopen_bytes (file_bytes i)) else None
                    | None => None
                    end, w).

Definition put_file (path : string) (i : inode) (w : World) : World :=
  mkWorld (s_stp_error_code w)
          (fun p => if String.eqb p path then Some i else files w p).

(** [fopen(path, "wb")]: creates the file or truncates it. *)
Definition fopen_wb (path : string) : Stp (option FILE) :=
  fun w => match files w path with
           | Some i =>
               if writable i
               then Defined (Some (fopen_bytes []), put_file path (mkInode [] (readable i) true) w)
               else Defined (None, w)
           | None => Defined (Some (fopen_bytes []), put_file path (mkInode [] true true) w)
           end.

(** [fclose] of a stream opened for writing on [path]: the bytes written
    become the file. *)
Definition fclose_wb (path : string) (f : FILE) : Stp unit :=
  fun w => Defined (tt, match files w path with
                        | Some i => put_file path (mkInode (contents f) (readable i) (writable i)) w
                        | None => put_file path (mkInode (contents f) true true) w
                        end).

(** ** Data structures *)

(** [struct StpEntry]; [en_origin] is the offset of [origin] from the
    archive's [data]. *)
Record StpEntry : Type := mkEntry {
  en_origin : Z;
  en_entry_name : list byte;
  en_size : Z
}.

Record StpArchive : Type := mkArchive {
  ar_data : list byte;
  ar_size : Z;
  ar_entries : list StpEntry;
  ar_entry_count : Z
}.

Record StpArchiveBuilderEntry : Type := mkBuilderEntry {
  be_name : list byte;
  be_data : list byte;
  be_size : Z;
  be_name_len : Z
}.

(** [struct StpArchiveBuilder].  The array [entries] together with its
    fill count [count] is the list of the filled slots ([None] for a
    NULL array); [count] is therefore the length of that list.
    [bl_block] is not a field of the C structure: it is the size in
    bytes of the block [entries] points to, as the allocator granted
    it (0 for a NULL array). *)
Record StpArchiveBuilder : Type := mkBuilder {
  bl_entries : option (list StpArchiveBuilderEntry);
  bl_crc_data : option (list Z);
  bl_capacity : Z;
  bl_enable_crc : bool;
  bl_block : Z
}.

Definition bl_pending (b : StpArchiveBuilder) : list StpArchiveBuilderEntry :=
  match bl_entries b with Some es => es | None => [] end.

Definition bl_count (b : StpArchiveBuilder) : Z := Z.of_nat (length (bl_pending b)).

Record StpArchiveHeader : Type := mkHeader {
  hdr_magic : list byte;
  hdr_version_major : Z;
  hdr_version_minor : Z;
  hdr_reserved_0 : Z;
  hdr_compressed : bool;
  hdr_crc_enabled : bool;
  hdr_reserved_1 : Z;
  hdr_raw_size : Z;
  hdr_uncompressed_size : Z;
  hdr_data_origin : Z;
  hdr_crc_origin : Z;
  hdr_entry_count : Z
}.

Record StpEntryRaw : Type := mkEntryRaw {
  raw_entry_name : list byte;
  raw_origin : Z;
  raw_size : Z;
  raw_name_len : Z
}.

Definition STP_VERSION_MAJOR : Z := 1.
Definition STP_VERSION_MINOR : Z := 0.

(** [sizeof(StpArchiveHeader)]: 4 + 3 + 1 + 5 * 4 bytes, no padding. *)
Definition sizeof_StpArchiveHeader : Z := 28.

Definition magic_STPA : list byte := bytes_of_string "STPA".
Definition magic_APTS : list byte := bytes_of_string "APTS".

Definition flags_byte (h : StpArchiveHeader) : Z :=
  Z.lor (Z.b2z (hdr_compressed h))
        (Z.lor (Z.shiftl (Z.b2z (hdr_crc_enabled h)) 1)
               (Z.shiftl (hdr_reserved_1 h mod 64) 2)).

(** The object representation of the header, as [fwrite] emits it. *)
Definition header_bytes (h : StpArchiveHeader) : list byte :=
  firstn 4 (hdr_magic h ++ zeros 4)
  ++ [uint8 (hdr_version_major h); uint8 (hdr_version_minor h);
      uint8 (hdr_reserved_0 h); flags_byte h]
  ++ le32 (hdr_raw_size h) ++ le32 (hdr_uncompressed_size h)
  ++ le32 (hdr_data_origin h) ++ le32 (hdr_crc_origin h)
  ++ le32 (hdr_entry_count h).

(** The header that [fread] leaves in memory from the delivered bytes
    (bytes not delivered read as zero). *)
Definition header_of_bytes (bs : list byte) : StpArchiveHeader :=
  let at_ (i : nat) := nth i bs 0 in
  let word (i : nat) := of_le32 (firstn 4 (skipn i bs)) in
  mkHeader [at_ 0%nat; at_ 1%nat; at_ 2%nat; at_ 3%nat]
           (at_ 4%nat) (at_ 5%nat) (at_ 6%nat)
           (Z.testbit (at_ 7%nat) 0) (Z.testbit (at_ 7%nat) 1)
           (Z.shiftr (at_ 7%nat) 2 mod 64)
           (word 8%nat) (word 12%nat) (word 16%nat) (word 20%nat) (word 24%nat).

(** ** Loops and partial results *)

(** [for (i = i0; i < i0 + n; i++) s = body(i, s)]. *)
Fixpoint for_loop {S : Type} (n i : nat) (body : nat -> S -> outcome S) (s : S)
  : outcome S :=
  match n with
  | O => Defined s
  | S n' => obind (body i s) (for_loop n' (Datatypes.S i) body)
  end.

(** [a[i]]: indexing past the end of the array is undefined. *)
Definition index {A : Type} (a : list A) (i : nat) : outcome A :=
  match nth_error a i with
  | Some x => Defined x
  | None => Undefined
  end.

(** A computation that may leave through [STP_FAILURE(code, ...)]. *)
Definition attempt (A : Type) : Type := outcome (StpErrorCode + A).

Definition aret {A} (a : A) : attempt A := Defined (inr a).
Definition STP_FAILURE {A} (code : StpErrorCode) : attempt A := Defined (inl code).

Definition abind {A B} (m : attempt A) (k : A -> attempt B) : attempt B :=
  match m with
  | Defined (inr a) => k a
  | Defined (inl code) => Defined (inl code)
  | Undefined => Undefined
  end.

Definition alift {A} (o : outcome A) : attempt A :=
  match o with Defined a => Defined (inr a) | Undefined => Undefined end.

Notation "x <~ m ;; k" := (abind m (fun x => k))
  (at level 61, m at next level, right associativity) : stp_scope.

(** ** Checksums *)

(** [StpCrc32]; its accumulator is a [uint32_t], [crc32] returns an
    [unsigned long]. *)
Definition StpCrc32 (data : list byte) : Z :=
  fold_left (fun crc b => uint32 (crc32 crc (Some [b]))) data (uint32 (crc32 0 None)).

(** ** Serialization *)

Section WithZlib.
Context {zlib : Zlib}.

(** The loop that advances [header.data_origin] past the entry table. *)
Definition data_origin_loop (entries : list StpEntry) (count : nat) : outcome Z :=
  for_loop count 0
    (fun i data_origin =>
       obind (index entries i) (fun e =>
       let data_origin := uint32 (data_origin + (strlen (en_entry_name e) + 1)) in
       Defined (uint32 (data_origin + 4 * 2))))
    (uint32 sizeof_StpArchiveHeader).

(** One iteration of the loop that writes the entry table. *)
Definition write_entry (e : StpEntry) (file : FILE) : outcome FILE :=
  let name_len := uint8 (strlen (en_entry_name e)) in
  let origin := uint32 (en_origin e) in
  let size := uint32 (en_size e) in
  let file := fwrite [name_len] file in
  obind (read_block (en_entry_name e) 0 name_len) (fun name =>
  let file := fwrite name file in
  let file := fwrite (le32 origin) file in
  Defined (fwrite (le32 size) file)).

Definition write_entries_loop (entries : list StpEntry) (count : nat) (file : FILE)
  : outcome FILE :=
  for_loop count 0 (fun i file => obind (index entries i) (fun e => write_entry e file)) file.

(** The data section: the archive's bytes, or what [compress] deposits
    when called with [compressed_size = 0] as its [*destLen]. *)
Definition stored_data (a : StpArchive) (compressed : bool) : outcome (list byte) :=
  obind (read_block (ar_data a) 0 (ar_size a)) (fun src =>
  if compressed
  then (let out := compress 0 src in
        if Z.of_nat (length out) <=? ar_size a then Defined out else Undefined)
  else Defined src).

Definition StpArchiveWriteToFileF_CRC
    (archive : option StpArchive) (file : option FILE) (compressed : bool)
    (crc_data : option (list Z)) : Stp (bool * option FILE) :=
  match archive, file with
  | None, _ => StpSetError STP_ERROR_INVALID_ARGUMENT ;;; ret (false, file)
  | Some _, None => StpSetError STP_ERROR_INVALID_ARGUMENT ;;; ret (false, file)
  | Some a, Some f =>
      let count := Z.to_nat (ar_entry_count a) in
      lift (
        obind (data_origin_loop (ar_entries a) count) (fun data_origin =>
        obind (stored_data a compressed) (fun data =>
        let data_size := Z.of_nat (length data) in
        let header :=
          mkHeader magic_STPA STP_VERSION_MAJOR STP_VERSION_MINOR 0
                   compressed (match crc_data with Some _ => true | None => false end) 0
                   (uint32 (ar_size a)) 0
                   data_origin (uint32 (data_origin + data_size))
                   (uint32 (ar_entry_count a)) in
        let f := fwrite (header_bytes header) f in
        obind (write_entries_loop (ar_entries a) count f) (fun f =>
        let f := fwrite data f in
        match crc_data with
        | Some crc =>
            if ar_entry_count a <=? Z.of_nat (length crc)
            then Defined (true, Some (fwrite (concat (map le32 (firstn count crc))) f))
            else Undefined
        | None => Defined (true, Some f)
        end))))
  end.

Definition StpArchiveWriteToFileF
    (archive : option StpArchive) (file : option FILE) (compressed enable_crc : bool)
    : Stp (bool * option FILE) :=
  crc_data <-
    (if enable_crc
     then match archive with
          | None => undefined
          | Some a =>
              lift (obind
                (for_loop (Z.to_nat (ar_entry_count a)) 0
                   (fun i crc =>
                      obind (index (ar_entries a) i) (fun e =>
                      obind (read_block (ar_data a) (en_origin e) (en_size e)) (fun bytes =>
                      Defined (crc ++ [StpCrc32 bytes]))))
                   [])
                (fun crc => Defined (Some crc)))
          end
     else ret None) ;;
  StpArchiveWriteToFileF_CRC archive file compressed crc_data.

Definition StpArchiveWriteToFile
    (archive : option StpArchive) (filename : string) (compressed enable_crc : bool)
    : Stp bool :=
  match archive with
  | None => StpSetError STP_ERROR_INVALID_ARGUMENT ;;; ret false
  | Some _ =>
      f <- fopen_wb filename ;;
      match f with
      | None => StpSetError STP_ERROR_FILE_OPEN ;;; ret false
      | Some _ =>
          r <- StpArchiveWriteToFileF archive f compressed enable_crc ;;
          match snd r with
          | Some f' => fclose_wb filename f'
          | None => ret tt
          end ;;;
          ret (fst r)
      end
  end.

(** ** Parsing *)

Definition magic_rejected (magic : list byte) : bool :=
  negb (memcmp magic magic_STPA 4 =? 0) || negb (memcmp magic magic_APTS 4 =? 0).

Fixpoint read_raw_entries (n : nat) (file : FILE)
  : attempt (list StpEntryRaw * FILE) :=
  match n with
  | O => aret ([], file)
  | S n' =>
      let '(k, b, file) := fread 1 1 file in
      if k <? 1 then STP_FAILURE STP_ERROR_FILE_READ else
      let name_len := nth 0 b 0 in
      if name_len =? 0 then STP_FAILURE STP_ERROR_OUT_OF_RANGE else
      let '(k, name, file) := fread 1 name_len file in
      if k <? name_len then STP_FAILURE STP_ERROR_FILE_READ else
      let '(k, origin, file) := fread 4 1 file in
      if k <? 4 then STP_FAILURE STP_ERROR_FILE_READ else
      let '(k, size, file) := fread 4 1 file in
      if k <? 4 then STP_FAILURE STP_ERROR_FILE_READ else
      let raw := mkEntryRaw (name ++ zeros (255 - length name))
                            (of_le32 origin) (of_le32 size) name_len in
      r <~ read_raw_entries n' file ;;
      aret (raw :: fst r, snd r)
  end.

Definition entry_of_raw (raw : StpEntryRaw) : outcome StpEntry :=
  obind (memcpy (zeros 256) (raw_entry_name raw) (raw_name_len raw)) (fun name =>
  Defined (mkEntry (raw_origin raw) name (raw_size raw))).

Fixpoint entries_of_raw (raws : list StpEntryRaw) : outcome (list StpEntry) :=
  match raws with
  | [] => Defined []
  | raw :: raws' =>
      obind (entry_of_raw raw) (fun e =>
      obind (entries_of_raw raws') (fun es => Defined (e :: es)))
  end.

Fixpoint check_crc (data : list byte) (entries : list StpEntry) (crc_data : list Z)
  : attempt unit :=
  match entries with
  | [] => aret tt
  | e :: entries' =>
      bytes <~ alift (read_block data (en_origin e) (en_size e)) ;;
      if negb (StpCrc32 bytes =? nth 0 crc_data 0)
      then STP_FAILURE STP_ERROR_CRC
      else check_crc data entries' (tl crc_data)
  end.

Fixpoint words_of_bytes (n : nat) (bs : list byte) : list Z :=
  match n with
  | O => []
  | S n' => of_le32 (firstn 4 bs) :: words_of_bytes n' (skipn 4 bs)
  end.

(** A failure raised after [free(entries)] reaches the clean-up code,
    which releases [entries] once more. *)
Definition released_again {A} (m : attempt A) : attempt A :=
  match m with
  | Defined (inl _) => Undefined
  | _ => m
  end.

Definition StpOpenArchiveFromFile_body (fresh : StpArchive) (file : FILE)
  : attempt StpArchive :=
  let '(k, b, file) := fread sizeof_StpArchiveHeader 1 file in
  if k <? sizeof_StpArchiveHeader then STP_FAILURE STP_ERROR_FILE_READ else
  let header := header_of_bytes b in
  if magic_rejected (hdr_magic header)
  then STP_FAILURE STP_ERROR_IDENTIFIER_MISMATCH else
  let count := Z.to_nat (hdr_entry_count header) in
  r <~ read_raw_entries count file ;;
  let entries := fst r in
  let file := fseek_set (hdr_data_origin header) (snd r) in
  let '(k, raw_data, file) := fread 1 (hdr_raw_size header) file in
  if k <? hdr_raw_size header then STP_FAILURE STP_ERROR_FILE_READ else
  result <~ (if hdr_compressed header
             then (let out := uncompress (ar_size fresh) raw_data in
                   if Z.of_nat (length out) <=? hdr_uncompressed_size header
                   then aret (out, Z.of_nat (length out))
                   else Undefined)
             else aret (raw_data, hdr_raw_size header)) ;;
  result_entries <~ alift (entries_of_raw entries) ;;
  _ <~ (if hdr_crc_enabled header
        then (let file := fseek_set (hdr_crc_origin header) file in
              let '(k, crc, file) := fread 4 (hdr_entry_count header) file in
              released_again
                (if k <? hdr_entry_count header * 4
                 then STP_FAILURE STP_ERROR_FILE_READ
                 else check_crc (fst result) result_entries (words_of_bytes count crc)))
        else aret tt) ;;
  aret (mkArchive (fst result) (snd result) result_entries (ar_entry_count fresh)).

Definition StpOpenArchiveFromFile (fresh : StpArchive) (file : option FILE)
  : Stp (option StpArchive) :=
  match file with
  | None => StpSetError STP_ERROR_INVALID_ARGUMENT ;;; ret None
  | Some f =>
      match StpOpenArchiveFromFile_body fresh f with
      | Defined (inr result) => ret (Some result)
      | Defined (inl code) => StpSetError code ;;; ret None
      | Undefined => undefined
      end
  end.

Definition StpOpenArchive (fresh : StpArchive) (filename : string)
  : Stp (option StpArchive) :=
  found <- stat_ok filename ;;
  if found then StpSetError STP_ERROR_FILE_NOT_FOUND ;;; ret None else
  file <- fopen_rb filename ;;
  match file with
  | None => StpSetError STP_ERROR_FILE_OPEN ;;; ret None
  | Some _ => StpOpenArchiveFromFile fresh file
  end.

End WithZlib.

(** ** Lookup and reading *)

(** The search loop shared by [StpArchiveOpenEntry] and
    [StpArchiveHasEntry]: the first [i], among [n] slots from [i] on,
    whose name compares equal. *)
Fixpoint find_entry (name : list byte) (entries : list StpEntry) (n i : nat)
  : outcome (option StpEntry) :=
  match n with
  | O => Defined None
  | S n' =>
      obind (index entries i) (fun e =>
      if strcmp name (en_entry_name e) =? 0
      then Defined (Some e)
      else find_entry name entries n' (S i))
  end.

Definition StpArchiveOpenEntry (archive : option StpArchive) (name : option (list byte))
  : Stp (option StpEntry) :=
  match name with
  | None => StpSetError STP_ERROR_INVALID_ARGUMENT ;;; ret None
  | Some nm =>
      if strlen nm =? 0 then StpSetError STP_ERROR_INVALID_ARGUMENT ;;; ret None else
      match archive with
      | None => StpSetError STP_ERROR_INVALID_ARGUMENT ;;; ret None
      | Some a =>
          r <- lift (find_entry nm (ar_entries a) (Z.to_nat (ar_entry_count a)) 0) ;;
          match r with
          | Some e => ret (Some e)
          | None => StpSetError STP_ERROR_ENTRY_NOT_FOUND ;;; ret None
          end
      end
  end.

Definition StpArchiveHasEntry (archive : option StpArchive) (name : option (list byte))
  : Stp bool :=
  match name, archive with
  | Some nm, Some a =>
      if 0 <? strlen nm
      then r <- lift (find_entry nm (ar_entries a) (Z.to_nat (ar_entry_count a)) 0) ;;
           ret (match r with Some _ => true | None => false end)
      else ret false
  | _, _ => ret false
  end.

(** [StpReadEntry]: the value returned and the destination buffer after
    the call. *)
Definition StpReadEntry (entry : option StpEntry) (buffer_out : option (list byte))
    (buffer_max : Z) : Stp (Z * option (list byte)) :=
  match entry, buffer_out with
  | None, _ => StpSetError STP_ERROR_INVALID_ARGUMENT ;;; ret (-1, buffer_out)
  | Some _, None => StpSetError STP_ERROR_INVALID_ARGUMENT ;;; ret (-1, buffer_out)
  | Some e, Some dst =>
      if buffer_max =? 0
      then StpSetError STP_ERROR_OUT_OF_RANGE ;;; ret (-1, buffer_out)
      else
        let size := if en_size e >? buffer_max then buffer_max else en_size e in
        dst' <- lift (memcpy dst (en_entry_name e) size) ;;
        ret (ssize_of_size size, Some dst')
  end.

(** The bytes an entry designates: [size] bytes at [origin] in the
    archive's data block. *)
Definition entry_payload (a : StpArchive) (e : StpEntry) : outcome (list byte) :=
  read_block (ar_data a) (en_origin e) (en_size e).

(** ** Builder *)

(** [StpCreateArchiveBuilder]; [capacity] is a [size_t].  The entry
    array is [malloc(sizeof(StpArchiveBuilderEntry) * capacity)] when
    the capacity is positive, the checksum table
    [calloc(sizeof(uint32_t), capacity)] when checksums are asked for
    too; a refused request gives [STP_ERROR_OUT_OF_MEMORY] and NULL. *)
Definition StpCreateArchiveBuilder (capacity : Z) (generate_crc : bool)
  : Stp (option StpArchiveBuilder) :=
  if 0 <? capacity then
    match malloc (size_t_of (sizeof_StpArchiveBuilderEntry * capacity)) with
    | None => StpSetError STP_ERROR_OUT_OF_MEMORY ;;; ret None
    | Some block =>
        if generate_crc then
          match calloc sizeof_uint32_t capacity with
          | None => StpSetError STP_ERROR_OUT_OF_MEMORY ;;; ret None
          | Some _ =>
              ret (Some (mkBuilder (Some []) (Some (repeat 0 (Z.to_nat capacity)))
                                   capacity generate_crc block))
          end
        else ret (Some (mkBuilder (Some []) None capacity generate_crc block))
    end
  else ret (Some (mkBuilder None None capacity generate_crc 0)).

(** [StpBuilderReserve]; [capacity] is a [size_t].  On a NULL array the
    block requested is [capacity * sizeof(StpEntry)] bytes, and what
    [malloc] returns is stored without a test; otherwise the new array
    is [calloc(capacity, sizeof(StpArchiveBuilderEntry))], into which
    the [count] filled slots are copied. *)
Definition StpBuilderReserve (builder : option StpArchiveBuilder) (capacity : Z)
  : Stp (bool * option StpArchiveBuilder) :=
  match builder with
  | None => StpSetError STP_ERROR_INVALID_ARGUMENT ;;; ret (false, builder)
  | Some b =>
      match bl_entries b with
      | None =>
          match malloc (size_t_of (capacity * sizeof_StpEntry)) with
          | Some block =>
              ret (true, Some (mkBuilder (Some []) (bl_crc_data b) capacity
                                         (bl_enable_crc b) block))
          | None =>
              ret (true, Some (mkBuilder None (bl_crc_data b) capacity
                                         (bl_enable_crc b) 0))
          end
      | Some es =>
          if capacity <=? bl_capacity b
          then StpSetError STP_ERROR_INVALID_ARGUMENT ;;; ret (false, builder)
          else
            match calloc capacity sizeof_StpArchiveBuilderEntry with
            | None => StpSetError STP_ERROR_OUT_OF_MEMORY ;;; ret (false, builder)
            | Some block =>
                let copied := bl_count b * sizeof_StpArchiveBuilderEntry in
                if (copied <=? block) && (copied <=? bl_block b)
                then ret (true, Some (mkBuilder (Some es) (bl_crc_data b) capacity
                                                (bl_enable_crc b) block))
                else undefined
            end
      end
  end.

(** The slot [entries[i]] lies inside the block [entries] points to. *)
Definition slot_in_block (b : StpArchiveBuilder) (i : Z) : bool :=
  sizeof_StpArchiveBuilderEntry * (i + 1) <=? bl_block b.

Definition StpBuilderAppendBinary (builder : option StpArchiveBuilder)
    (entry_name : option (list byte)) (buffer : option (list byte))
  : Stp (bool * option StpArchiveBuilder) :=
  match builder, entry_name, buffer with
  | None, _, _ => StpSetError STP_ERROR_INVALID_ARGUMENT ;;; ret (false, builder)
  | Some _, None, _ => StpSetError STP_ERROR_INVALID_ARGUMENT ;;; ret (false, builder)
  | Some b, Some nm, _ =>
      if strlen nm =? 0
      then StpSetError STP_ERROR_INVALID_ARGUMENT ;;; ret (false, builder) else
      match buffer with
      | None => StpSetError STP_ERROR_INVALID_ARGUMENT ;;; ret (false, builder)
      | Some buf =>
          let buffer_size := Z.of_nat (length buf) in
          (if buffer_size =? 0 then StpSetError STP_ERROR_OUT_OF_RANGE else ret tt) ;;;
          let name_len := uint8 (if strlen nm >? 255 then 255 else strlen nm) in
          name <- lift (memcpy (zeros 255) nm name_len) ;;
          let entry := mkBuilderEntry name buf buffer_size name_len in
          r <- (if bl_capacity b <=? bl_count b
                then StpBuilderReserve builder (bl_count b + 5)
                else ret (true, builder)) ;;
          if negb (fst r) then ret (false, snd r) else
          match snd r with
          | Some b' =>
              match bl_entries b' with
              | Some es =>
                  if slot_in_block b' (bl_count b')
                  then ret (true, Some (mkBuilder (Some (es ++ [entry])) (bl_crc_data b')
                                                  (bl_capacity b') (bl_enable_crc b')
                                                  (bl_block b')))
                  else undefined
              | None => undefined
              end
          | None => undefined
          end
      end
  end.

Definition StpBuilderAppendString (builder : option StpArchiveBuilder)
    (entry_name : option (list byte)) (value : list byte)
  : Stp (bool * option StpArchiveBuilder) :=
  StpBuilderAppendBinary builder entry_name (Some (cstr value)).

(** The slots whose [data] block [StpBuilderClear] hands to [free], in
    order: [builder->entries->data] on each of the [count] iterations. *)
Definition StpBuilderClear_released (es : list StpArchiveBuilderEntry) : list nat :=
  map (fun _ => 0%nat) es.

(** No block is handed to [free] twice. *)
Fixpoint released_once (l : list nat) : bool :=
  match l with
  | [] => true
  | x :: l' => negb (existsb (Nat.eqb x) l') && released_once l'
  end.

(** The state [memset(builder, 0, sizeof(StpArchiveBuilder))] leaves. *)
Definition zeroed_builder : StpArchiveBuilder := mkBuilder None None 0 false 0.

Definition StpBuilderClear (builder : option StpArchiveBuilder)
  : Stp (option StpArchiveBuilder) :=
  match builder with
  | Some b =>
      match bl_entries b with
      | Some es =>
          if released_once (StpBuilderClear_released es)
          then ret (Some zeroed_builder)
          else undefined
      | None => ret builder
      end
  | None => ret builder
  end.

(** The loop of [StpBuilderFinalize]: the data written so far (its
    length is [offset]) and the index built so far. *)
Fixpoint finalize_entries (es : list StpArchiveBuilderEntry)
    (data : list byte) (table : list StpEntry)
  : outcome (list byte * list StpEntry) :=
  match es with
  | [] => Defined (data, table)
  | be :: es' =>
      let entry_size := be_size be in
      let offset := Z.of_nat (length data) in
      obind (read_block (be_data be) 0 entry_size) (fun bytes =>
      obind (memcpy (zeros 256) (be_name be) (be_name_len be)) (fun name =>
      finalize_entries es' (data ++ bytes) (table ++ [mkEntry offset name entry_size])))
  end.

Definition StpBuilderFinalize (fresh : StpArchive) (builder : option StpArchiveBuilder)
  : Stp (option StpArchive * option StpArchiveBuilder) :=
  match builder with
  | None => StpSetError STP_ERROR_INVALID_ARGUMENT ;;; ret (None, builder)
  | Some b =>
      r <- lift (finalize_entries (bl_pending b) [] []) ;;
      let result := mkArchive (fst r) (ar_size fresh) (snd r) (ar_entry_count fresh) in
      builder' <- StpBuilderClear builder ;;
      ret (Some result, builder')
  end.

Definition StpBuilderFinalizeToFileF {zlib : Zlib} (fresh : StpArchive)
    (builder : option StpArchiveBuilder) (file : option FILE) (compressed : bool)
  : Stp (bool * option FILE * option StpArchiveBuilder) :=
  match builder with
  | None => undefined
  | Some b =>
      let enable_crc := bl_enable_crc b in
      r <- StpBuilderFinalize fresh builder ;;
      match fst r with
      | None => ret (false, file, snd r)
      | Some _ =>
          w <- StpArchiveWriteToFileF (fst r) file compressed enable_crc ;;
          ret (true, snd w, snd r)
      end
  end.

(** ** Extraction *)

(** What [fwrite(ptr, size, nmemb, f)] returns when every item is
    written: [nmemb], or zero when [size] or [nmemb] is zero. *)
Definition fwrite_items (size nmemb : Z) : Z :=
  if (size =? 0) || (nmemb =? 0) then 0 else nmemb.

(** [StpExtractEntryToFileF]; [data] is the block [entry->origin] points
    into. *)
Definition StpExtractEntryToFileF (data : list byte) (entry : option StpEntry)
    (out_file : option FILE) : Stp (bool * option FILE) :=
  match entry, out_file with
  | None, _ => StpSetError STP_ERROR_INVALID_ARGUMENT ;;; ret (false, out_file)
  | Some _, None => StpSetError STP_ERROR_INVALID_ARGUMENT ;;; ret (false, out_file)
  | Some e, Some f =>
      bytes <- lift (read_block data (en_origin e) (en_size e)) ;;
      let f' := fwrite bytes f in
      if fwrite_items (en_size e) 1 =? en_size e
      then StpSetError STP_ERROR_FILE_WRITE ;;; ret (false, Some f')
      else ret (true, Some f')
  end.

Definition StpExtractEntryToFile (data : list byte) (entry : option StpEntry)
    (out_filename : string) : Stp bool :=
  match entry with
  | None => StpSetError STP_ERROR_INVALID_ARGUMENT ;;; ret false
  | Some _ =>
      found <- stat_ok out_filename ;;
      if found then StpSetError STP_ERROR_FILE_NOT_FOUND ;;; ret false else
      file <- fopen_wb out_filename ;;
      match file with
      | None => StpSetError STP_ERROR_FILE_OPEN ;;; ret false
      | Some _ =>
          r <- StpExtractEntryToFileF data entry file ;;
          match snd r with
          | Some f' => fclose_wb out_filename f'
          | None => ret tt
          end ;;;
          ret (fst r)
      end
  end.

(** ** Appending files and archives *)

Definition fseek_end (f : FILE) : FILE :=
  mkFILE (contents f) (Z.of_nat (length (contents f))).

Definition ftell (f : FILE) : Z := pos f.

(** [strrchr(s, c)]: the string that starts at the last occurrence of
    [c] in [s]. *)
Fixpoint strrchr (s : list byte) (c : byte) : option (list byte) :=
  match s with
  | [] => if c =? 0 then Some [] else None
  | x :: s' =>
      if x =? 0 then (if c =? 0 then Some s else None) else
      match strrchr s' c with
      | Some r => Some r
      | None => if x =? c then Some s else None
      end
  end.

(** [StpBuilderAppendFileF]: the entry is stored at [entries[count]]
    without any test against [capacity], and without reserving room. *)
Definition StpBuilderAppendFileF (builder : option StpArchiveBuilder)
    (file : option FILE) (entry_name : option (list byte))
  : Stp (bool * option StpArchiveBuilder) :=
  match builder, file, entry_name with
  | None, _, _ => StpSetError STP_ERROR_INVALID_ARGUMENT ;;; ret (false, builder)
  | Some _, None, _ => StpSetError STP_ERROR_INVALID_ARGUMENT ;;; ret (false, builder)
  | Some _, Some _, None => StpSetError STP_ERROR_INVALID_ARGUMENT ;;; ret (false, builder)
  | Some b, Some f, Some nm =>
      if strlen nm =? 0
      then StpSetError STP_ERROR_INVALID_ARGUMENT ;;; ret (false, builder) else
      let f := fseek_end f in
      let len := ftell f in
      let f := fseek_set 0 f in
      let '(_, data, _) := fread 1 len f in
      let name_len := uint8 (if strlen nm >? 255 then 255 else strlen nm) in
      name <- lift (memcpy (zeros 255) nm name_len) ;;
      let entry := mkBuilderEntry name data len name_len in
      match bl_entries b with
      | Some es =>
          if slot_in_block b (bl_count b)
          then ret (true, Some (mkBuilder (Some (es ++ [entry])) (bl_crc_data b)
                                          (bl_capacity b) (bl_enable_crc b)
                                          (bl_block b)))
          else undefined
      | None => undefined
      end
  end.

(** [StpBuilderAppendFileNameOverride]; a failed [fopen] is reported
    but the function goes on, down to [fclose(f)]. *)
Definition StpBuilderAppendFileNameOverride (builder : option StpArchiveBuilder)
    (filename : option string) (binary : bool) (entry_name : option (list byte))
  : Stp (bool * option StpArchiveBuilder) :=
  match builder, filename with
  | None, _ => StpSetError STP_ERROR_INVALID_ARGUMENT ;;; ret (false, builder)
  | Some _, None => StpSetError STP_ERROR_INVALID_ARGUMENT ;;; ret (false, builder)
  | Some _, Some fn =>
      if strlen (bytes_of_string fn) =? 0
      then StpSetError STP_ERROR_INVALID_ARGUMENT ;;; ret (false, builder) else
      match entry_name with
      | None => StpSetError STP_ERROR_INVALID_ARGUMENT ;;; ret (false, builder)
      | Some nm =>
          if strlen nm =? 0
          then StpSetError STP_ERROR_INVALID_ARGUMENT ;;; ret (false, builder) else
          found <- stat_ok fn ;;
          if found then StpSetError STP_ERROR_FILE_NOT_FOUND ;;; ret (false, builder) else
          f <- fopen_rb fn ;;
          match f with
          | None => StpSetError STP_ERROR_FILE_OPEN
          | Some _ => ret tt
          end ;;;
          result <- StpBuilderAppendFileF builder f entry_name ;;
          match f with
          | None => undefined
          | Some _ => ret result
          end
      end
  end.

Definition StpBuilderAppendFile (builder : option StpArchiveBuilder)
    (filename : option string) (binary : bool)
  : Stp (bool * option StpArchiveBuilder) :=
  match builder, filename with
  | None, _ => StpSetError STP_ERROR_INVALID_ARGUMENT ;;; ret (false, builder)
  | Some _, None => StpSetError STP_ERROR_INVALID_ARGUMENT ;;; ret (false, builder)
  | Some _, Some fn =>
      if strlen (bytes_of_string fn) =? 0
      then StpSetError STP_ERROR_INVALID_ARGUMENT ;;; ret (false, builder) else
      let name := strrchr (bytes_of_string fn) 47 in
      StpBuilderAppendFileNameOverride builder filename binary
        (match name with None => Some (bytes_of_string fn) | Some _ => name end)
  end.

(** The loop of [StpBuilderAppendArchive]: [n] entries from index [i]
    on, stopping at the first one [StpBuilderAppendBinary] refuses.  The
    buffer handed over is [size] bytes at [origin]; it is not read when
    the name is refused. *)
Fixpoint append_archive_loop (a : StpArchive) (n i : nat)
    (builder : option StpArchiveBuilder) : Stp (bool * option StpArchiveBuilder) :=
  match n with
  | O => ret (true, builder)
  | S n' =>
      e <- lift (index (ar_entries a) i) ;;
      r <- (if strlen (en_entry_name e) =? 0
            then StpBuilderAppendBinary builder (Some (en_entry_name e)) (Some [])
            else bytes <- lift (read_block (ar_data a) (en_origin e) (en_size e)) ;;
                 StpBuilderAppendBinary builder (Some (en_entry_name e)) (Some bytes)) ;;
      if negb (fst r) then ret (false, snd r)
      else append_archive_loop a n' (S i) (snd r)
  end.

Definition StpBuilderAppendArchive (builder : option StpArchiveBuilder)
    (archive : option StpArchive) : Stp (bool * option StpArchiveBuilder) :=
  match builder, archive with
  | None, _ => StpSetError STP_ERROR_INVALID_ARGUMENT ;;; ret (false, builder)
  | Some _, None => StpSetError STP_ERROR_INVALID_ARGUMENT ;;; ret (false, builder)
  | Some _, Some a => append_archive_loop a (Z.to_nat (ar_entry_count a)) 0 builder
  end.

Definition StpBuilderFinalizeToFile {zlib : Zlib} (fresh : StpArchive)
    (builder : option StpArchiveBuilder) (filename : string) (compressed : bool)
  : Stp (bool * option StpArchiveBuilder) :=
  file <- fopen_wb filename ;;
  match file with
  | None => StpSetError STP_ERROR_FILE_OPEN ;;; ret (false, builder)
  | Some _ =>
      r <- StpBuilderFinalizeToFileF fresh builder file compressed ;;
      match snd (fst r) with
      | Some f' => fclose_wb filename f'
      | None => ret tt
      end ;;;
      ret (fst (fst r), snd r)
  end.

(** ** Shapes the library maintains *)

(** A pending entry as [StpBuilderAppendBinary] stores it: [size] is the
    length of the owned buffer, [name] has its 255 bytes and [name_len]
    fits in them. *)
Definition builder_entry_ok (be : StpArchiveBuilderEntry) : Prop :=
  be_size be = Z.of_nat (length (be_data be))
  /\ length (be_name be) = 255%nat
  /\ 0 <= be_name_len be <= 255.

(** The bytes of one record of the entry table, as
    [StpArchiveWriteToFileF_CRC] writes it. *)
Definition entry_record_bytes (e : StpEntry) : list byte :=
  let name_len := uint8 (strlen (en_entry_name e)) in
  [name_len] ++ firstn (Z.to_nat name_len) (en_entry_name e)
  ++ le32 (uint32 (en_origin e)) ++ le32 (uint32 (en_size e)).

(** Sum of the sizes the data-origin loop adds for the given entries. *)
Definition entry_records_size (es : list StpEntry) : Z :=
  fold_right (fun e acc => (strlen (en_entry_name e) + 1 + 8) + acc) 0 es.

(** * Properties *)

(** The bytes an entry designates in [data], as a total function. *)
Definition payload_bytes (data : list byte) (e : StpEntry) : list byte :=
  firstn (Z.to_nat (en_size e)) (skipn (Z.to_nat (en_origin e)) data).

(** An entry as the library builds it: its range lies within the data
    block and its 256-byte name field holds a terminated string. *)
Definition entry_ok (data : list byte) (e : StpEntry) : Prop :=
  0 <= en_origin e
  /\ 0 <= en_size e
  /\ en_origin e + en_size e <= Z.of_nat (length data)
  /\ length (en_entry_name e) = 256%nat
  /\ strlen (en_entry_name e) <= 255.

(** An archive whose [size] and [entry_count] fields describe its data
    block and its table. *)
Definition archive_ok (a : StpArchive) : Prop :=
  ar_size a = Z.of_nat (length (ar_data a))
  /\ ar_entry_count a = Z.of_nat (length (ar_entries a))
  /\ Forall (entry_ok (ar_data a)) (ar_entries a).

(** The pending entry [StpBuilderAppendBinary] stores for a name and a
    buffer. *)
Definition pending_entry (nm buf : list byte) : StpArchiveBuilderEntry :=
  let name_len := Z.min (strlen nm) 255 in
  mkBuilderEntry (firstn (Z.to_nat name_len) nm ++ skipn (Z.to_nat name_len) (zeros 255))
                 buf (Z.of_nat (length buf)) name_len.

(** The state of a builder whose entry array came from
    [StpCreateArchiveBuilder] or from the copying branch of
    [StpBuilderReserve]: the array is allocated, its block has room for
    exactly [capacity] slots, there are no more pending entries than
    slots, and the pending entries have the stored shape. *)
Definition builder_inv (b : StpArchiveBuilder) : Prop :=
  bl_entries b <> None
  /\ bl_block b = bl_capacity b * sizeof_StpArchiveBuilderEntry
  /\ bl_count b <= bl_capacity b
  /\ Forall builder_entry_ok (bl_pending b).

(** The array of [count + 5] slots that [StpBuilderAppendBinary]
    reserves when the array is full at [count] is one the allocator
    grants. *)
Definition reserve_granted (count : Z) : Prop :=
  (count + 5) * sizeof_StpArchiveBuilderEntry <= PTRDIFF_MAX.

(** The builder after [StpBuilderAppendBinary] has stored [e], from a
    builder in the state [builder_inv]: the array is replaced by one of
    [count + 5] slots when it was full. *)
Definition appended (b : StpArchiveBuilder) (e : StpArchiveBuilderEntry)
  : StpArchiveBuilder :=
  let full := bl_capacity b <=? bl_count b in
  mkBuilder (Some (bl_pending b ++ [e])) (bl_crc_data b)
            (if full then bl_count b + 5 else bl_capacity b)
            (bl_enable_crc b)
            (if full then (bl_count b + 5) * sizeof_StpArchiveBuilderEntry
             else bl_block b).

(** The checksum table of an archive: one [StpCrc32] per entry. *)
Definition crc_table (a : StpArchive) : list Z :=
  map (fun e => StpCrc32 (payload_bytes (ar_data a) e)) (ar_entries a).

(** The header [StpArchiveWriteToFileF_CRC] fills in for an archive
    stored without compression. *)
Definition plain_header (a : StpArchive) (enable_crc : bool) : StpArchiveHeader :=
  let data_origin := uint32 (sizeof_StpArchiveHeader + entry_records_size (ar_entries a)) in
  mkHeader magic_STPA STP_VERSION_MAJOR STP_VERSION_MINOR 0 false enable_crc 0
           (uint32 (ar_size a)) 0 data_origin
           (uint32 (data_origin + Z.of_nat (length (ar_data a))))
           (uint32 (ar_entry_count a)).

(** The stream of an archive stored without compression: header, entry
    table, data, checksum table. *)
Definition plain_stream (a : StpArchive) (enable_crc : bool) : list byte :=
  header_bytes (plain_header a enable_crc)
  ++ concat (map entry_record_bytes (ar_entries a))
  ++ ar_data a
  ++ (if enable_crc then concat (map le32 (crc_table a)) else []).

(** A header whose fields fit their widths. *)
Definition header_ok (h : StpArchiveHeader) : Prop :=
  length (hdr_magic h) = 4%nat
  /\ Forall (fun b => 0 <= b < 256) (hdr_magic h)
  /\ 0 <= hdr_version_major h < 256
  /\ 0 <= hdr_version_minor h < 256
  /\ 0 <= hdr_reserved_0 h < 256
  /\ 0 <= hdr_reserved_1 h < 64
  /\ 0 <= hdr_raw_size h < 2 ^ 32
  /\ 0 <= hdr_uncompressed_size h < 2 ^ 32
  /\ 0 <= hdr_data_origin h < 2 ^ 32
  /\ 0 <= hdr_crc_origin h < 2 ^ 32
  /\ 0 <= hdr_entry_count h < 2 ^ 32.

(** ** Sample values used to run the model *)

Definition empty_world : World := mkWorld STP_OK (fun _ => None).

(** Previous contents of a block handed out by [malloc]: all zero. *)
Definition zero_block : StpArchive := mkArchive [] 0 [] 0.

(** The archive holding ["hello"] under the name ["a.txt"]. *)
Definition hello_archive : StpArchive :=
  mkArchive (bytes_of_string "hello") 5
            [mkEntry 0 (bytes_of_string "a.txt" ++ zeros 251) 5] 1.

(** ** Checksums *)

Lemma lxor_twice (a m : Z) : Z.lxor (Z.lxor a m) m = a.
Proof.
  now rewrite Z.lxor_assoc, Z.lxor_nilpotent, Z.lxor_0_r.
Qed.

Lemma lxor_range (n a b : Z) :
  0 <= a < 2 ^ n -> 0 <= b < 2 ^ n -> 0 <= Z.lxor a b < 2 ^ n.
Proof.
  intros Ha Hb.
  assert (H0 : 0 <= Z.lxor a b) by (apply Z.lxor_nonneg; lia).
  split; [exact H0|].
  destruct (Z.eq_dec (Z.lxor a b) 0) as [->|Hnz]; [lia|].
  destruct (Z.le_gt_cases n 0) as [Hn|Hn].
  - assert (2 ^ n <= 1) by (replace 1 with (2 ^ 0) by reflexivity;
                            apply Z.pow_le_mono_r; lia).
    assert (a = 0) by lia. assert (b = 0) by lia. subst.
    now rewrite Z.lxor_0_l in Hnz.
  - apply Z.log2_lt_pow2; [lia|].
    eapply Z.le_lt_trans; [apply Z.log2_lxor; lia|].
    apply Z.max_lub_lt.
    + destruct (Z.eq_dec a 0) as [->|]; [simpl; lia|].
      apply Z.log2_lt_pow2; lia.
    + destruct (Z.eq_dec b 0) as [->|]; [simpl; lia|].
      apply Z.log2_lt_pow2; lia.
Qed.

Lemma crc32_shift_range (c : Z) :
  0 <= c < 2 ^ 32 -> 0 <= crc32_shift c < 2 ^ 32.
Proof.
  intros Hc. unfold crc32_shift.
  assert (Hs : 0 <= Z.shiftr c 1 < 2 ^ 32).
  { rewrite Z.shiftr_div_pow2 by lia. change (2 ^ 1) with 2.
    split; [apply Z.div_pos; lia|].
    apply Z.div_lt_upper_bound; lia. }
  destruct (Z.testbit c 0); [|exact Hs].
  apply lxor_range; [exact Hs|]. unfold crc32_poly. lia.
Qed.

Lemma crc32_byte_range (c b : Z) :
  0 <= c < 2 ^ 32 -> 0 <= b < 256 -> 0 <= crc32_byte c b < 2 ^ 32.
Proof.
  intros Hc Hb. unfold crc32_byte.
  assert (H : 0 <= Z.lxor c b < 2 ^ 32) by (apply lxor_range; lia).
  revert H. generalize (Z.lxor c b). intros x Hx.
  cbn [Nat.iter]. now repeat apply crc32_shift_range.
Qed.

Lemma crc32_fold_range (bs : list byte) :
  Forall (fun b => 0 <= b < 256) bs ->
  forall c, 0 <= c < 2 ^ 32 -> 0 <= fold_left crc32_byte bs c < 2 ^ 32.
Proof.
  induction 1 as [|b bs Hb _ IH]; intros c Hc; cbn [fold_left]; [exact Hc|].
  apply IH. now apply crc32_byte_range.
Qed.

(** [crc32] stays within 32 bits, so the conversion to [uint32_t]
    changes nothing. *)
Lemma crc32_range (crc : Z) (bs : list byte) :
  0 <= crc < 2 ^ 32 -> Forall (fun b => 0 <= b < 256) bs ->
  0 <= crc32 crc (Some bs) < 2 ^ 32.
Proof.
  intros Hc Hbs. unfold crc32.
  apply lxor_range; [|lia].
  apply crc32_fold_range; [exact Hbs|].
  apply lxor_range; lia.
Qed.

Lemma crc32_running (bs : list byte) :
  Forall (fun b => 0 <= b < 256) bs ->
  forall crc, 0 <= crc < 2 ^ 32 ->
    fold_left (fun c b => uint32 (crc32 c (Some [b]))) bs crc = crc32 crc (Some bs).
Proof.
  induction 1 as [|b bs Hb Hbs IH]; intros crc Hc; cbn [fold_left].
  - unfold crc32. cbn [fold_left]. now rewrite lxor_twice.
  - assert (Hr : 0 <= crc32 crc (Some [b]) < 2 ^ 32)
      by (apply crc32_range; [exact Hc | now constructor]).
    unfold uint32. rewrite Z.mod_small by exact Hr.
    rewrite IH by exact Hr.
    unfold crc32. cbn [fold_left]. now rewrite lxor_twice.
Qed.

Example crc32_check_value :
  crc32 0 (Some (bytes_of_string "123456789")) = 0xCBF43926.
Proof. vm_compute. reflexivity. Qed.

(** C10.  On a buffer of bytes, [StpCrc32], which feeds the buffer to
    [crc32] one byte at a time starting from [crc32(0, NULL, 0)],
    returns the checksum that a single call of [crc32] on the whole
    buffer returns. *)
Theorem StpCrc32_whole_buffer (data : list byte) :
  Forall (fun b => 0 <= b < 256) data ->
  StpCrc32 data = crc32 (crc32 0 None) (Some data).
Proof.
  intros Hd. unfold StpCrc32. cbn [crc32].
  change (uint32 0) with 0. apply crc32_running; [exact Hd | lia].
Qed.

Lemma StpCrc32_whole_buffer_witness :
  Forall (fun b => 0 <= b < 256) [104; 101; 108; 108; 111]
  /\ StpCrc32 [104; 101; 108; 108; 111]
     = crc32 (crc32 0 None) (Some [104; 101; 108; 108; 111]).
Proof.
  assert (H : Forall (fun b => 0 <= b < 256) [104; 101; 108; 108; 111])
    by (repeat constructor; lia).
  split; [exact H|].
  exact (StpCrc32_whole_buffer [104; 101; 108; 108; 111] H).
Defined.

(** ** Parsing *)

(** [fread] of one item never reports more than one. *)
Lemma fread_single_item (size : Z) (f : FILE) :
  0 < size -> fst (fst (fread size 1 f)) <= 1.
Proof.
  intros Hs. unfold fread. cbn [fst].
  replace (size =? 0) with false by (symmetry; apply Z.eqb_neq; lia).
  apply Z.lt_succ_r. apply Z.div_lt_upper_bound; lia.
Qed.

Section Parsing.
Context {zlib : Zlib}.

(** The test on the header read compares the item count with
    [sizeof(header)]: no stream passes it. *)
Lemma StpOpenArchiveFromFile_body_fails (fresh : StpArchive) (f : FILE) :
  StpOpenArchiveFromFile_body fresh f = STP_FAILURE STP_ERROR_FILE_READ.
Proof.
  unfold StpOpenArchiveFromFile_body.
  pose proof (fread_single_item sizeof_StpArchiveHeader f) as Hk.
  destruct (fread sizeof_StpArchiveHeader 1 f) as [[k b] f'].
  cbn [fst] in Hk.
  replace (k <? sizeof_StpArchiveHeader) with true; [reflexivity|].
  symmetry. apply Z.ltb_lt. unfold sizeof_StpArchiveHeader in *. lia.
Qed.

Lemma StpOpenArchiveFromFile_always_fails (fresh : StpArchive) (f : FILE) (w : World) :
  StpOpenArchiveFromFile fresh (Some f) w
  = Defined (None, set_error STP_ERROR_FILE_READ w).
Proof.
  unfold StpOpenArchiveFromFile.
  rewrite StpOpenArchiveFromFile_body_fails. reflexivity.
Qed.

(** Four bytes cannot equal both literals: the test rejects every
    magic field. *)
Lemma magic_rejected_always (b : list byte) :
  magic_rejected (hdr_magic (header_of_bytes b)) = true.
Proof.
  unfold magic_rejected, header_of_bytes. cbn [hdr_magic].
  change magic_STPA with [83; 84; 80; 65].
  change magic_APTS with [65; 80; 84; 83].
  generalize (nth 0 b 0); intros x. cbn [memcmp].
  apply orb_true_iff.
  destruct (x =? 83) eqn:E83.
  - right. apply Z.eqb_eq in E83. subst x. reflexivity.
  - left. apply negb_true_iff, Z.eqb_neq. apply Z.eqb_neq in E83. lia.
Qed.

(** C1.  Whatever archive and flags the writer is given, the parser
    rejects the stream it produced with [STP_ERROR_FILE_READ]: no
    archive comes back from a round trip. *)
Theorem roundtrip_parse_fails
    (a : StpArchive) (compressed enable_crc : bool) (fresh : StpArchive)
    (out : FILE) (w w' : World) :
  StpArchiveWriteToFileF (Some a) (Some (fopen_bytes [])) compressed enable_crc w
    = Defined ((true, Some out), w') ->
  StpOpenArchiveFromFile fresh (Some (fopen_bytes (contents out))) w'
    = Defined (None, set_error STP_ERROR_FILE_READ w').
Proof.
  intros _. apply StpOpenArchiveFromFile_always_fails.
Qed.

(** C2.  Parsing never ends with [STP_ERROR_IDENTIFIER_MISMATCH]: the
    header read test fails first, for every stream; and the magic test
    that follows is true of every magic field, ["STPA"] included. *)
Theorem magic_check_degenerate (fresh : StpArchive) (f : FILE) (w : World) :
  StpOpenArchiveFromFile fresh (Some f) w
    = Defined (None, set_error STP_ERROR_FILE_READ w)
  /\ magic_rejected (hdr_magic (header_of_bytes (contents f))) = true
  /\ magic_rejected magic_STPA = true.
Proof.
  split; [apply StpOpenArchiveFromFile_always_fails|].
  split; [apply magic_rejected_always|].
  vm_compute. reflexivity.
Qed.

(** A complete header whose magic field is ["XXXX"] is answered with
    [STP_ERROR_FILE_READ]. *)
Example parse_corrupted_magic :
  StpOpenArchiveFromFile (zlib := stored_codec) zero_block
    (Some (fopen_bytes (bytes_of_string "XXXX" ++ [1; 0; 0; 0]
                        ++ le32 0 ++ le32 0 ++ le32 28 ++ le32 28 ++ le32 0)))
    empty_world
  = Defined (None, set_error STP_ERROR_FILE_READ empty_world).
Proof. vm_compute. reflexivity. Qed.

(** C8.  For a path that names an existing readable file, the path form
    stops at the [stat] test with [STP_ERROR_FILE_NOT_FOUND] and never
    opens the file, while the stream form applied to the opened file
    ends with [STP_ERROR_FILE_READ]. *)
Theorem StpOpenArchive_existing_file
    (fresh : StpArchive) (filename : string) (i : inode) (w : World) :
  files w filename = Some i ->
  readable i = true ->
  StpOpenArchive fresh filename w
    = Defined (None, set_error STP_ERROR_FILE_NOT_FOUND w)
  /\ (forall file, fopen_rb filename w = Defined (Some file, w) ->
        StpOpenArchiveFromFile fresh (Some file) w
          = Defined (None, set_error STP_ERROR_FILE_READ w)).
Proof.
  intros Hf Hr. split.
  - unfold StpOpenArchive, bind, stat_ok. rewrite Hf. reflexivity.
  - intros file _. apply StpOpenArchiveFromFile_always_fails.
Qed.

(** The writing path form does delegate: it opens the file, runs the
    stream form on it and stores what was written. *)
Lemma StpArchiveWriteToFile_delegates
    (a : StpArchive) (filename : string) (compressed enable_crc : bool)
    (f0 f1 : FILE) (r : bool) (w w0 w1 : World) :
  fopen_wb filename w = Defined (Some f0, w0) ->
  StpArchiveWriteToFileF (Some a) (Some f0) compressed enable_crc w0
    = Defined ((r, Some f1), w1) ->
  exists w2, fclose_wb filename f1 w1 = Defined (tt, w2) /\
  StpArchiveWriteToFile (Some a) filename compressed enable_crc w
    = Defined (r, w2).
Proof.
  intros Ho Hw. unfold StpArchiveWriteToFile, bind.
  rewrite Ho, Hw. cbn [snd fst].
  unfold fclose_wb. eexists. split; reflexivity.
Qed.

End Parsing.

(** ** Reading an entry *)

Lemma ssize_of_size_small (x : Z) : 0 <= x < 2 ^ 63 -> ssize_of_size x = x.
Proof.
  intros Hx. unfold ssize_of_size.
  rewrite Z.mod_small by lia.
  destruct (x <? 2 ^ 63) eqn:E; [reflexivity|].
  apply Z.ltb_ge in E. lia.
Qed.

Lemma memcpy_defined (dst src : list byte) (n : Z) :
  0 <= n -> n <= Z.of_nat (length dst) -> n <= Z.of_nat (length src) ->
  memcpy dst src n = Defined (firstn (Z.to_nat n) src ++ skipn (Z.to_nat n) dst).
Proof.
  intros H0 Hd Hs. unfold memcpy.
  rewrite (proj2 (Z.leb_le 0 n) H0), (proj2 (Z.leb_le _ _) Hd),
    (proj2 (Z.leb_le _ _) Hs).
  reflexivity.
Qed.

Lemma memcpy_length (dst src : list byte) (n : Z) :
  0 <= n -> n <= Z.of_nat (length dst) -> n <= Z.of_nat (length src) ->
  length (firstn (Z.to_nat n) src ++ skipn (Z.to_nat n) dst) = length dst.
Proof.
  intros H0 Hd Hs. rewrite length_app, length_firstn, length_skipn. lia.
Qed.

Lemma memcpy_tail (dst src : list byte) (n : nat) :
  (n <= length src)%nat ->
  skipn n (firstn n src ++ skipn n dst) = skipn n dst.
Proof.
  intros Hs. rewrite skipn_app, length_firstn.
  replace (n - Nat.min n (length src))%nat with 0%nat by lia.
  rewrite skipn_firstn_comm. replace (n - n)%nat with 0%nat by lia.
  reflexivity.
Qed.

(** What [StpReadEntry] does copy: the leading bytes of the entry's
    name field. *)
Lemma StpReadEntry_reads_name (e : StpEntry) (dst dst' : list byte) (c r : Z) (w w' : World) :
  c <> 0 ->
  StpReadEntry (Some e) (Some dst) c w = Defined ((r, Some dst'), w') ->
  firstn (Z.to_nat (Z.min (en_size e) c)) dst'
  = firstn (Z.to_nat (Z.min (en_size e) c)) (en_entry_name e).
Proof.
  intros Hc. unfold StpReadEntry.
  replace (c =? 0) with false by (symmetry; now apply Z.eqb_neq).
  assert (Hmin : (if en_size e >? c then c else en_size e) = Z.min (en_size e) c).
  { rewrite Z.gtb_ltb. destruct (c <? en_size e) eqn:E;
      [apply Z.ltb_lt in E | apply Z.ltb_ge in E]; lia. }
  rewrite Hmin. unfold bind, lift, memcpy.
  destruct (_ && _ && _) eqn:E; [|discriminate].
  cbn. intros H. injection H as _ Hd _. subst dst'.
  apply andb_true_iff in E as [E Es]. apply Z.leb_le in Es.
  rewrite firstn_app, length_firstn.
  replace (_ - _)%nat with 0%nat by lia.
  rewrite firstn_O, app_nil_r, firstn_firstn. f_equal. lia.
Qed.

Lemma firstn_memcpy (dst src : list byte) (n : nat) :
  (n <= length src)%nat ->
  firstn n (firstn n src ++ skipn n dst) = firstn n src.
Proof.
  intros Hs. rewrite firstn_app, length_firstn.
  replace (n - Nat.min n (length src))%nat with 0%nat by lia.
  rewrite firstn_O, app_nil_r, firstn_firstn. f_equal. lia.
Qed.

(** C3.  [StpReadEntry] takes the bytes it delivers from the entry's
    name field, not from the data block the entry points into.  With a
    zero capacity it reports [STP_ERROR_OUT_OF_RANGE], returns -1 and
    leaves the destination as it was.  Otherwise it returns
    [n = min(entry.size, c)], the first [n] bytes of the destination
    are then the first [n] bytes of the name field and the rest of the
    destination is unchanged; so whenever the name field and the
    payload the entry designates differ within their first [n] bytes,
    the destination does not hold the payload. *)
Theorem StpReadEntry_delivers_name
    (a : StpArchive) (e : StpEntry) (payload dst : list byte) (c : Z) (w : World) :
  entry_payload a e = Defined payload ->
  0 <= en_size e ->
  c < 2 ^ 63 ->
  Z.min (en_size e) c <= Z.of_nat (length dst) ->
  Z.min (en_size e) c <= Z.of_nat (length (en_entry_name e)) ->
  (c = 0 ->
     StpReadEntry (Some e) (Some dst) c w
     = Defined ((-1, Some dst), set_error STP_ERROR_OUT_OF_RANGE w))
  /\ (0 < c ->
      exists dst',
        StpReadEntry (Some e) (Some dst) c w
        = Defined ((Z.min (en_size e) c, Some dst'), w)
        /\ firstn (Z.to_nat (Z.min (en_size e) c)) dst'
           = firstn (Z.to_nat (Z.min (en_size e) c)) (en_entry_name e)
        /\ skipn (Z.to_nat (Z.min (en_size e) c)) dst'
           = skipn (Z.to_nat (Z.min (en_size e) c)) dst
        /\ (firstn (Z.to_nat (Z.min (en_size e) c)) (en_entry_name e)
            <> firstn (Z.to_nat (Z.min (en_size e) c)) payload ->
            firstn (Z.to_nat (Z.min (en_size e) c)) dst'
            <> firstn (Z.to_nat (Z.min (en_size e) c)) payload)).
Proof.
  intros _ Hsz Hmax Hd Hs. split.
  - intros H0. unfold StpReadEntry. rewrite H0. reflexivity.
  - intros Hpos. unfold StpReadEntry.
    replace (c =? 0) with false by (symmetry; apply Z.eqb_neq; lia).
    assert (Hmin : (if en_size e >? c then c else en_size e) = Z.min (en_size e) c).
    { rewrite Z.gtb_ltb. destruct (c <? en_size e) eqn:E;
        [apply Z.ltb_lt in E | apply Z.ltb_ge in E]; lia. }
    rewrite Hmin. set (n := Z.min (en_size e) c) in *.
    assert (Hn0 : 0 <= n) by lia.
    unfold bind, lift. rewrite (memcpy_defined _ _ _ Hn0 Hd Hs).
    eexists. split; [|split; [|split]].
    + cbn. rewrite ssize_of_size_small by lia. reflexivity.
    + apply firstn_memcpy. lia.
    + apply memcpy_tail. lia.
    + intros Hne. rewrite firstn_memcpy by lia. exact Hne.
Qed.

Lemma StpReadEntry_delivers_name_witness :
  let e := mkEntry 0 (bytes_of_string "a.txt" ++ zeros 251) 5 in
  entry_payload hello_archive e = Defined (bytes_of_string "hello")
  /\ 0 <= en_size e
  /\ 8 < 2 ^ 63
  /\ Z.min (en_size e) 8 <= Z.of_nat (length (zeros 8))
  /\ Z.min (en_size e) 8 <= Z.of_nat (length (en_entry_name e))
  /\ 0 < 8
  /\ firstn (Z.to_nat (Z.min (en_size e) 8)) (en_entry_name e)
     <> firstn (Z.to_nat (Z.min (en_size e) 8)) (bytes_of_string "hello")
  /\ (exists dst',
        StpReadEntry (Some e) (Some (zeros 8)) 8 empty_world
        = Defined ((Z.min (en_size e) 8, Some dst'), empty_world)
        /\ firstn (Z.to_nat (Z.min (en_size e) 8)) dst'
           = firstn (Z.to_nat (Z.min (en_size e) 8)) (en_entry_name e)
        /\ skipn (Z.to_nat (Z.min (en_size e) 8)) dst'
           = skipn (Z.to_nat (Z.min (en_size e) 8)) (zeros 8)
        /\ (firstn (Z.to_nat (Z.min (en_size e) 8)) (en_entry_name e)
            <> firstn (Z.to_nat (Z.min (en_size e) 8)) (bytes_of_string "hello") ->
            firstn (Z.to_nat (Z.min (en_size e) 8)) dst'
            <> firstn (Z.to_nat (Z.min (en_size e) 8)) (bytes_of_string "hello"))).
Proof.
  intros e.
  assert (H1 : entry_payload hello_archive e = Defined (bytes_of_string "hello"))
    by reflexivity.
  assert (H2 : 0 <= en_size e) by (simpl; lia).
  assert (H3 : 8 < 2 ^ 63) by reflexivity.
  assert (H4 : Z.min (en_size e) 8 <= Z.of_nat (length (zeros 8))) by (cbn; lia).
  assert (H5 : Z.min (en_size e) 8 <= Z.of_nat (length (en_entry_name e)))
    by (cbn; lia).
  assert (H6 : 0 < 8) by lia.
  assert (H7 : firstn (Z.to_nat (Z.min (en_size e) 8)) (en_entry_name e)
               <> firstn (Z.to_nat (Z.min (en_size e) 8)) (bytes_of_string "hello"))
    by (vm_compute; discriminate).
  repeat (split; [assumption|]).
  exact (proj2 (StpReadEntry_delivers_name hello_archive e (bytes_of_string "hello")
                  (zeros 8) 8 empty_world H1 H2 H3 H4 H5) H6).
Defined.

(** The entry ["a.txt"] of [hello_archive], read into five bytes: the
    destination holds the name, where the entry designates ["hello"]. *)
Example StpReadEntry_hello :
  let e := mkEntry 0 (bytes_of_string "a.txt" ++ zeros 251) 5 in
  StpReadEntry (Some e) (Some (zeros 5)) 5 empty_world
  = Defined ((5, Some (bytes_of_string "a.txt")), empty_world)
  /\ entry_payload hello_archive e = Defined (bytes_of_string "hello").
Proof. split; reflexivity. Qed.

(** ** Appending to a builder *)

Lemma cstr_prefix (s : list byte) : exists rest, s = cstr s ++ rest.
Proof.
  induction s as [|c s [rest IH]]; simpl.
  - now exists [].
  - destruct (c =? 0).
    + now exists (c :: s).
    + exists rest. simpl. now f_equal.
Qed.

Lemma strlen_le_length (s : list byte) : strlen s <= Z.of_nat (length s).
Proof.
  unfold strlen. destruct (cstr_prefix s) as [rest H].
  rewrite H at 2. rewrite length_app. lia.
Qed.

Lemma strlen_nonneg (s : list byte) : 0 <= strlen s.
Proof. unfold strlen. lia. Qed.

Lemma firstn_cstr (s : list byte) (n : nat) :
  (n <= length (cstr s))%nat -> firstn n s = firstn n (cstr s).
Proof.
  intros Hn. destruct (cstr_prefix s) as [rest H].
  rewrite H at 1. rewrite firstn_app.
  replace (n - length (cstr s))%nat with 0%nat by lia.
  now rewrite firstn_O, app_nil_r.
Qed.

Lemma name_len_value (nm : list byte) :
  uint8 (if strlen nm >? 255 then 255 else strlen nm) = Z.min (strlen nm) 255.
Proof.
  pose proof (strlen_nonneg nm) as H0. unfold uint8.
  rewrite Z.gtb_ltb.
  destruct (255 <? strlen nm) eqn:E;
    [apply Z.ltb_lt in E | apply Z.ltb_ge in E];
    rewrite Z.mod_small by lia; lia.
Qed.

Lemma pending_entry_ok (nm buf : list byte) :
  builder_entry_ok (pending_entry nm buf).
Proof.
  pose proof (strlen_nonneg nm) as H0.
  pose proof (strlen_le_length nm) as Hl.
  unfold builder_entry_ok, pending_entry.
  cbn [be_size be_data be_name be_name_len].
  split; [reflexivity|]. split; [|lia].
  rewrite length_app, length_firstn, length_skipn.
  unfold zeros. rewrite repeat_length. lia.
Qed.

(** The name field [StpBuilderAppendBinary] fills in. *)
Lemma name_field_copy (nm : list byte) :
  memcpy (zeros 255) nm (Z.min (strlen nm) 255)
  = Defined (firstn (Z.to_nat (Z.min (strlen nm) 255)) nm
             ++ skipn (Z.to_nat (Z.min (strlen nm) 255)) (zeros 255)).
Proof.
  pose proof (strlen_nonneg nm) as Hs0.
  pose proof (strlen_le_length nm) as Hsl.
  apply memcpy_defined; [lia| |lia].
  unfold zeros. rewrite repeat_length. lia.
Qed.

(** [StpBuilderAppendBinary] with a non-empty name, up to the store. *)
Lemma append_run (b : StpArchiveBuilder) (nm buf : list byte) (w : World) :
  strlen nm <> 0 ->
  StpBuilderAppendBinary (Some b) (Some nm) (Some buf) w
  = (r <- (if bl_capacity b <=? bl_count b
           then StpBuilderReserve (Some b) (bl_count b + 5)
           else ret (true, Some b)) ;;
     if negb (fst r) then ret (false, snd r) else
     match snd r with
     | Some b' =>
         match bl_entries b' with
         | Some es =>
             if slot_in_block b' (bl_count b')
             then ret (true, Some (mkBuilder (Some (es ++ [pending_entry nm buf]))
                                             (bl_crc_data b') (bl_capacity b')
                                             (bl_enable_crc b') (bl_block b')))
             else undefined
         | None => undefined
         end
     | None => undefined
     end)
    (if Z.of_nat (length buf) =? 0 then set_error STP_ERROR_OUT_OF_RANGE w else w).
Proof.
  intros Hn. unfold StpBuilderAppendBinary.
  replace (strlen nm =? 0) with false by (symmetry; now apply Z.eqb_neq).
  rewrite name_len_value.
  unfold bind at 1.
  destruct (Z.of_nat (length buf) =? 0);
    (unfold StpSetError at 1 || unfold ret at 1);
    unfold bind at 1; unfold lift at 1; rewrite name_field_copy; reflexivity.
Qed.

(** One call of [StpBuilderAppendBinary] with a non-empty name, on a
    builder in the state [builder_inv]. *)
Lemma append_step (b : StpArchiveBuilder) (nm buf : list byte) (w : World) :
  builder_inv b ->
  reserve_granted (bl_count b) ->
  strlen nm <> 0 ->
  StpBuilderAppendBinary (Some b) (Some nm) (Some buf) w
  = Defined ((true, Some (appended b (pending_entry nm buf))),
             if Z.of_nat (length buf) =? 0
             then set_error STP_ERROR_OUT_OF_RANGE w else w).
Proof.
  intros (Harr & Hblk & Hcap & _) Hgr Hn.
  rewrite (append_run b nm buf w Hn).
  generalize (if Z.of_nat (length buf) =? 0
              then set_error STP_ERROR_OUT_OF_RANGE w else w).
  intros w0. unfold appended.
  unfold reserve_granted in Hgr.
  unfold bind, StpBuilderReserve, slot_in_block, calloc.
  unfold bl_count, bl_pending in *.
  destruct (bl_entries b) as [es|] eqn:Ees; [|congruence].
  unfold sizeof_StpArchiveBuilderEntry in *.
  destruct (bl_capacity b <=? Z.of_nat (length es)) eqn:Ec.
  - apply Z.leb_le in Ec.
    replace (Z.of_nat (length es) + 5 <=? bl_capacity b) with false
      by (symmetry; apply Z.leb_gt; lia).
    rewrite (proj2 (Z.leb_le _ _) Hgr).
    replace ((Z.of_nat (length es) * 280 <=? (Z.of_nat (length es) + 5) * 280)
             && (Z.of_nat (length es) * 280 <=? bl_block b)) with true
      by (symmetry; apply andb_true_iff; split; apply Z.leb_le; lia).
    cbn [fst snd negb ret bl_entries bl_block bl_crc_data bl_capacity bl_enable_crc].
    replace (280 * (Z.of_nat (length es) + 1) <=? (Z.of_nat (length es) + 5) * 280)
      with true by (symmetry; apply Z.leb_le; lia).
    reflexivity.
  - apply Z.leb_gt in Ec.
    cbn [fst snd negb ret]. rewrite Ees.
    replace (280 * (Z.of_nat (length es) + 1) <=? bl_block b)
      with true by (symmetry; apply Z.leb_le; lia).
    reflexivity.
Qed.

Lemma append_step_inv (b : StpArchiveBuilder) (e : StpArchiveBuilderEntry) :
  builder_inv b -> builder_entry_ok e -> builder_inv (appended b e).
Proof.
  intros (Harr & Hblk & Hcap & Hok) He.
  unfold builder_inv, appended, bl_count, bl_pending in *.
  cbn [bl_entries bl_capacity bl_block].
  rewrite length_app, Nat2Z.inj_add. cbn [length Z.of_nat].
  split; [discriminate|].
  destruct (bl_capacity b <=? _) eqn:E;
    [apply Z.leb_le in E | apply Z.leb_gt in E].
  - split; [reflexivity|]. split; [lia|].
    apply Forall_app. split; [exact Hok | constructor; [exact He | constructor]].
  - split; [exact Hblk|]. split; [lia|].
    apply Forall_app. split; [exact Hok | constructor; [exact He | constructor]].
Qed.

Lemma pending_name_prefix (nm buf : list byte) :
  firstn (Z.to_nat (be_name_len (pending_entry nm buf))) (be_name (pending_entry nm buf))
  = firstn 255 (cstr nm).
Proof.
  pose proof (strlen_nonneg nm) as Hs0.
  pose proof (strlen_le_length nm) as Hsl.
  unfold pending_entry. cbn [be_name be_name_len].
  rewrite firstn_app, length_firstn.
  replace (_ - _)%nat with 0%nat by lia.
  rewrite firstn_O, app_nil_r, firstn_firstn, Nat.min_id.
  rewrite firstn_cstr by (unfold strlen in *; lia).
  unfold strlen in *.
  destruct (Nat.le_gt_cases (length (cstr nm)) 255) as [Hle|Hgt].
  - replace (Z.to_nat (Z.min (Z.of_nat (length (cstr nm))) 255))
      with (length (cstr nm)) by lia.
    rewrite firstn_all. symmetry. apply firstn_all2. lia.
  - f_equal. lia.
Qed.

(** C7.  What [StpBuilderAppendBinary] does, on a builder in the state
    [builder_inv] whose next reservation the allocator grants.  An
    empty name is rejected with [STP_ERROR_INVALID_ARGUMENT] and the
    builder is left as it was.  An empty buffer is reported with
    [STP_ERROR_OUT_OF_RANGE], but the call does not return there: it
    goes on, stores a pending entry of size zero and returns true.  A
    non-empty buffer under a non-empty name is stored with the first
    [min(strlen(name), 255)] bytes of the name. *)
Theorem StpBuilderAppendBinary_empty_buffer
    (b : StpArchiveBuilder) (nm : list byte) (w : World) :
  builder_inv b ->
  reserve_granted (bl_count b) ->
  (strlen nm = 0 ->
     forall buffer,
       StpBuilderAppendBinary (Some b) (Some nm) buffer w
       = Defined ((false, Some b), set_error STP_ERROR_INVALID_ARGUMENT w))
  /\ (strlen nm <> 0 ->
      StpBuilderAppendBinary (Some b) (Some nm) (Some []) w
      = Defined ((true, Some (appended b (pending_entry nm []))),
                 set_error STP_ERROR_OUT_OF_RANGE w)
      /\ bl_pending (appended b (pending_entry nm []))
         = bl_pending b ++ [pending_entry nm []]
      /\ be_size (pending_entry nm []) = 0
      /\ STP_ERROR_OUT_OF_RANGE <> STP_ERROR_INVALID_ARGUMENT)
  /\ (strlen nm <> 0 ->
      forall buf, buf <> [] ->
        StpBuilderAppendBinary (Some b) (Some nm) (Some buf) w
        = Defined ((true, Some (appended b (pending_entry nm buf))), w)
        /\ bl_pending (appended b (pending_entry nm buf))
           = bl_pending b ++ [pending_entry nm buf]
        /\ be_data (pending_entry nm buf) = buf
        /\ be_size (pending_entry nm buf) = Z.of_nat (length buf)
        /\ be_name_len (pending_entry nm buf) = Z.min (strlen nm) 255
        /\ firstn (Z.to_nat (be_name_len (pending_entry nm buf)))
                  (be_name (pending_entry nm buf))
           = firstn 255 (cstr nm)).
Proof.
  intros Hinv Hgr. split; [|split].
  - intros H0 buffer. unfold StpBuilderAppendBinary. rewrite H0. reflexivity.
  - intros Hn. rewrite (append_step b nm [] w Hinv Hgr Hn).
    split; [reflexivity|]. split; [reflexivity|].
    split; [reflexivity | discriminate].
  - intros Hn buf Hb. rewrite (append_step b nm buf w Hinv Hgr Hn).
    replace (Z.of_nat (length buf) =? 0) with false
      by (symmetry; apply Z.eqb_neq; destruct buf; [congruence | simpl; lia]).
    split; [reflexivity|]. split; [reflexivity|].
    split; [reflexivity|]. split; [reflexivity|]. split; [reflexivity|].
    apply pending_name_prefix.
Qed.

Lemma StpBuilderAppendBinary_empty_buffer_witness :
  let b := mkBuilder (Some []) None 1 false 280 in
  let nm := bytes_of_string "a.txt" in
  builder_inv b
  /\ reserve_granted (bl_count b)
  /\ strlen nm <> 0
  /\ StpCreateArchiveBuilder 1 false empty_world = Defined (Some b, empty_world)
  /\ StpBuilderAppendBinary (Some b) (Some nm) (Some []) empty_world
     = Defined ((true, Some (appended b (pending_entry nm []))),
                set_error STP_ERROR_OUT_OF_RANGE empty_world)
  /\ bl_pending (appended b (pending_entry nm []))
     = bl_pending b ++ [pending_entry nm []]
  /\ be_size (pending_entry nm []) = 0
  /\ STP_ERROR_OUT_OF_RANGE <> STP_ERROR_INVALID_ARGUMENT.
Proof.
  intros b nm.
  assert (H1 : builder_inv b).
  { unfold builder_inv, b, bl_count, bl_pending. cbn.
    split; [discriminate|]. split; [reflexivity|]. split; [lia | constructor]. }
  assert (H2 : reserve_granted (bl_count b)) by (vm_compute; discriminate).
  assert (H3 : strlen nm <> 0) by (vm_compute; discriminate).
  assert (H4 : StpCreateArchiveBuilder 1 false empty_world
               = Defined (Some b, empty_world)) by reflexivity.
  repeat (split; [assumption|]).
  exact (proj1 (proj2 (StpBuilderAppendBinary_empty_buffer b nm empty_world H1 H2)) H3).
Defined.

(** ** Clearing a builder *)




(** ** Finalizing a builder *)

(** The loop of [StpBuilderFinalize] on well-shaped pending entries: the
    data block grows by each entry's bytes in turn, and the table gains
    one entry per pending entry, whose offset is the length reached
    before its bytes were copied. *)
Lemma finalize_entries_layout (es : list StpArchiveBuilderEntry) :
  Forall builder_entry_ok es ->
  forall data table,
  exists tbl,
    finalize_entries es data table
    = Defined (data ++ concat (map be_data es), table ++ tbl)
    /\ length tbl = length es
    /\ (forall i be, nth_error es i = Some be ->
          exists e, nth_error tbl i = Some e
            /\ en_origin e
               = Z.of_nat (length data)
                 + fold_right Z.add 0 (map be_size (firstn i es))
            /\ en_size e = be_size be
            /\ firstn (Z.to_nat (be_name_len be)) (en_entry_name e)
               = firstn (Z.to_nat (be_name_len be)) (be_name be)
            /\ length (en_entry_name e) = 256%nat).
Proof.
  induction 1 as [|be es [Hsz [Hnm Hnl]] Hes IH]; intros data table.
  - exists []. rewrite !app_nil_r. split; [reflexivity|]. split; [reflexivity|].
    intros [|i] be' H; discriminate.
  - cbn [finalize_entries].
    assert (Hrd : read_block (be_data be) 0 (be_size be) = Defined (be_data be)).
    { unfold read_block. rewrite Hsz.
      replace (0 <=? 0) with true by reflexivity.
      rewrite (proj2 (Z.leb_le 0 _)) by lia.
      rewrite (proj2 (Z.leb_le _ _)) by lia.
      cbn [andb]. rewrite Nat2Z.id. cbn [Z.to_nat skipn]. now rewrite firstn_all. }
    rewrite Hrd. cbn [obind].
    rewrite memcpy_defined
      by (try lia; unfold zeros; rewrite ?repeat_length; lia).
    cbn [obind].
    destruct (IH (data ++ be_data be)
                 (table ++ [mkEntry (Z.of_nat (length data))
                              (firstn (Z.to_nat (be_name_len be)) (be_name be)
                               ++ skipn (Z.to_nat (be_name_len be)) (zeros 256))
                              (be_size be)]))
      as [tbl [Hrun [Hlen Hnth]]].
    eexists (_ :: tbl). split; [|split].
    + rewrite Hrun. cbn [map concat]. now rewrite <- !app_assoc.
    + simpl. now rewrite Hlen.
    + intros [|i] be' Hi.
      * injection Hi as <-. eexists. split; [reflexivity|].
        cbn [en_origin en_size en_entry_name firstn map fold_right].
        split; [lia|]. split; [reflexivity|]. split.
        -- rewrite firstn_app, length_firstn.
           replace (_ - _)%nat with 0%nat by lia.
           now rewrite firstn_O, app_nil_r, firstn_firstn, Nat.min_id.
        -- rewrite length_app, length_firstn, length_skipn.
           unfold zeros. rewrite repeat_length. lia.
      * destruct (Hnth i be' Hi) as [e [He [Ho Hrest]]].
        exists e. split; [exact He|]. split; [|exact Hrest].
        rewrite Ho, length_app. cbn [firstn map fold_right]. lia.
Qed.

Lemma released_once_repeated (es : list StpArchiveBuilderEntry) :
  (2 <= length es)%nat -> released_once (StpBuilderClear_released es) = false.
Proof.
  destruct es as [|e [|e' es]]; simpl; intros H; first [reflexivity | lia].
Qed.

(** C4.  With two or more pending entries [StpBuilderFinalize] does not
    complete: the release loop of [StpBuilderClear] hands the first
    entry's buffer to [free] once per pending entry. *)
Theorem StpBuilderFinalize_releases_twice
    (fresh : StpArchive) (b : StpArchiveBuilder)
    (es : list StpArchiveBuilderEntry) (w : World) :
  bl_entries b = Some es ->
  (2 <= length es)%nat ->
  StpBuilderFinalize fresh (Some b) w = Undefined.
Proof.
  intros Hes Hlen. unfold StpBuilderFinalize, bind, lift.
  destruct (finalize_entries (bl_pending b) [] []) as [r|]; [|reflexivity].
  unfold StpBuilderClear. rewrite Hes.
  now rewrite released_once_repeated.
Qed.

Lemma StpBuilderFinalize_releases_twice_witness :
  let e1 := mkBuilderEntry (bytes_of_string "a.txt" ++ zeros 250)
                           (bytes_of_string "hello") 5 5 in
  let e2 := mkBuilderEntry (bytes_of_string "b.bin" ++ zeros 250) [0; 1; 2] 3 5 in
  let b := mkBuilder (Some [e1; e2]) None 5 false 1400 in
  bl_entries b = Some [e1; e2]
  /\ (2 <= length [e1; e2])%nat
  /\ StpBuilderFinalize zero_block (Some b) empty_world = Undefined.
Proof.
  intros e1 e2 b.
  assert (H1 : bl_entries b = Some [e1; e2]) by reflexivity.
  assert (H2 : (2 <= length [e1; e2])%nat) by (simpl; lia).
  repeat (split; [assumption|]).
  exact (StpBuilderFinalize_releases_twice zero_block b [e1; e2] empty_world H1 H2).
Defined.

(** What [StpBuilderFinalize] returns when it does complete (at most one
    pending entry): the data block is the concatenation of the pending
    buffers, the builder is left cleared, and the [size] and
    [entry_count] fields of the archive are those of the block [malloc]
    handed out. *)
Lemma StpBuilderFinalize_single
    (fresh : StpArchive) (b : StpArchiveBuilder)
    (es : list StpArchiveBuilderEntry) (w : World) :
  bl_entries b = Some es ->
  (length es <= 1)%nat ->
  Forall builder_entry_ok es ->
  exists tbl,
    StpBuilderFinalize fresh (Some b) w
    = Defined ((Some (mkArchive (concat (map be_data es)) (ar_size fresh)
                                tbl (ar_entry_count fresh)),
                Some zeroed_builder), w)
    /\ length tbl = length es.
Proof.
  intros Hes Hlen Hok.
  destruct (finalize_entries_layout es Hok [] []) as [tbl [Hrun [Hl _]]].
  exists tbl. split; [|exact Hl].
  unfold StpBuilderFinalize, bind, lift, bl_pending. rewrite Hes, Hrun.
  cbn [fst snd app]. unfold StpBuilderClear. rewrite Hes.
  destruct es as [|e [|e' es]]; [reflexivity | reflexivity | simpl in Hlen; lia].
Qed.

(** ** Lookup *)

(** C6.  [StpBuilderFinalize] never assigns the archive's [entry_count]:
    when the block [malloc] returned holds zero there, the search loop
    of [StpArchiveOpenEntry] does not run and every name, the appended
    ones included, is answered with [STP_ERROR_ENTRY_NOT_FOUND]. *)
Theorem StpArchiveOpenEntry_after_finalize
    (fresh : StpArchive) (b : StpArchiveBuilder) (nm : list byte)
    (a : StpArchive) (b' : option StpArchiveBuilder) (w w' : World) :
  ar_entry_count fresh <= 0 ->
  strlen nm <> 0 ->
  StpBuilderFinalize fresh (Some b) w = Defined ((Some a, b'), w') ->
  StpArchiveOpenEntry (Some a) (Some nm) w'
  = Defined (None, set_error STP_ERROR_ENTRY_NOT_FOUND w').
Proof.
  intros Hc Hn Hfin. unfold StpBuilderFinalize, bind, lift in Hfin.
  destruct (finalize_entries (bl_pending b) [] []) as [r|]; [|discriminate].
  destruct (StpBuilderClear (Some b) w) as [[b'' w'']|]; [|discriminate].
  unfold ret in Hfin. injection Hfin as Ha _ _. subst a.
  unfold StpArchiveOpenEntry.
  replace (strlen nm =? 0) with false by (symmetry; now apply Z.eqb_neq).
  cbn [ar_entry_count ar_entries].
  replace (Z.to_nat (ar_entry_count fresh)) with 0%nat by lia.
  reflexivity.
Qed.

Lemma StpArchiveOpenEntry_after_finalize_witness :
  let e1 := mkBuilderEntry (bytes_of_string "a.txt" ++ zeros 250)
                           (bytes_of_string "hello") 5 5 in
  let b := mkBuilder (Some [e1]) None 5 false 1400 in
  let a := mkArchive (bytes_of_string "hello") 0
                     [mkEntry 0 (bytes_of_string "a.txt" ++ zeros 251) 5] 0 in
  ar_entry_count zero_block <= 0
  /\ strlen (bytes_of_string "a.txt") <> 0
  /\ StpBuilderFinalize zero_block (Some b) empty_world
     = Defined ((Some a, Some zeroed_builder), empty_world)
  /\ StpArchiveOpenEntry (Some a) (Some (bytes_of_string "a.txt")) empty_world
     = Defined (None, set_error STP_ERROR_ENTRY_NOT_FOUND empty_world).
Proof.
  intros e1 b a.
  assert (H1 : ar_entry_count zero_block <= 0) by (simpl; lia).
  assert (H2 : strlen (bytes_of_string "a.txt") <> 0) by (vm_compute; discriminate).
  assert (H3 : StpBuilderFinalize zero_block (Some b) empty_world
               = Defined ((Some a, Some zeroed_builder), empty_world))
    by (vm_compute; reflexivity).
  repeat (split; [assumption|]).
  exact (StpArchiveOpenEntry_after_finalize zero_block b (bytes_of_string "a.txt")
           a (Some zeroed_builder) empty_world empty_world H1 H2 H3).
Defined.

(** ** Wire layout of a written archive *)

Lemma fwrite_at_end (bs : list byte) (f : FILE) :
  pos f = Z.of_nat (length (contents f)) ->
  fwrite bs f = mkFILE (contents f ++ bs) (Z.of_nat (length (contents f ++ bs))).
Proof.
  intros Hp. unfold fwrite. rewrite Hp, Nat2Z.id, Nat.sub_diag.
  cbn [zeros repeat]. rewrite app_nil_r, firstn_all.
  rewrite skipn_all2 by lia. rewrite app_nil_r, length_app.
  f_equal. lia.
Qed.

Lemma fwrite_appends (bs c : list byte) :
  fwrite bs (mkFILE c (Z.of_nat (length c)))
  = mkFILE (c ++ bs) (Z.of_nat (length (c ++ bs))).
Proof. now apply fwrite_at_end. Qed.

Lemma nth_error_skipn_cons {A} (l : list A) (i : nat) (x : A) :
  nth_error l i = Some x -> skipn i l = x :: skipn (S i) l.
Proof.
  revert i. induction l as [|y l IH]; intros [|i] H; try discriminate.
  - now injection H as ->.
  - cbn [skipn]. now apply IH.
Qed.

Lemma index_defined {A} (l : list A) (i : nat) (x : A) :
  index l i = Defined x -> nth_error l i = Some x.
Proof.
  unfold index. destruct (nth_error l i); [|discriminate].
  now intros [= ->].
Qed.

Lemma uint32_add_l (x y : Z) : uint32 (uint32 x + y) = uint32 (x + y).
Proof. unfold uint32. now rewrite Zplus_mod_idemp_l. Qed.

(** The data-origin loop adds [strlen + 1 + 8] per entry, modulo 2^32. *)
Lemma data_origin_for_loop (es : list StpEntry) (n : nat) :
  forall i d d',
    for_loop n i
      (fun i data_origin =>
         obind (index es i) (fun e =>
         let data_origin := uint32 (data_origin + (strlen (en_entry_name e) + 1)) in
         Defined (uint32 (data_origin + 4 * 2))))
      (uint32 d) = Defined d' ->
    d' = uint32 (d + entry_records_size (firstn n (skipn i es))).
Proof.
  induction n as [|n IH]; intros i d d' H.
  - cbn in H. injection H as <-. cbn [firstn entry_records_size fold_right].
    f_equal. lia.
  - cbn [for_loop] in H.
    destruct (index es i) as [e|] eqn:Ei; [|discriminate].
    apply index_defined in Ei. cbn [obind] in H.
    assert (Hstep : uint32 (uint32 (uint32 d + (strlen (en_entry_name e) + 1)) + 4 * 2)
                    = uint32 (d + (strlen (en_entry_name e) + 1 + 8))).
    { rewrite uint32_add_l.
      replace (uint32 d + (strlen (en_entry_name e) + 1) + 4 * 2)
        with (uint32 d + (strlen (en_entry_name e) + 1 + 8)) by lia.
      apply uint32_add_l. }
    rewrite Hstep in H.
    apply IH in H.
    rewrite (nth_error_skipn_cons _ _ _ Ei).
    cbn [firstn entry_records_size fold_right].
    rewrite H. f_equal. unfold entry_records_size. lia.
Qed.

Lemma write_entry_appends (e : StpEntry) (f f' : FILE) :
  pos f = Z.of_nat (length (contents f)) ->
  write_entry e f = Defined f' ->
  contents f' = contents f ++ entry_record_bytes e
  /\ pos f' = Z.of_nat (length (contents f')).
Proof.
  destruct f as [c p]. cbn [pos contents]. intros ->.
  unfold write_entry, entry_record_bytes, read_block.
  destruct (_ && _ && _); [|discriminate].
  cbn [obind Z.to_nat skipn]. intros [= <-].
  rewrite !fwrite_appends. cbn [contents pos].
  split; [|reflexivity]. now rewrite <- !app_assoc.
Qed.

Lemma write_entries_for_loop (es : list StpEntry) (n : nat) :
  forall i f f',
    pos f = Z.of_nat (length (contents f)) ->
    for_loop n i (fun i file => obind (index es i) (fun e => write_entry e file)) f
    = Defined f' ->
    contents f' = contents f ++ concat (map entry_record_bytes (firstn n (skipn i es)))
    /\ pos f' = Z.of_nat (length (contents f')).
Proof.
  induction n as [|n IH]; intros i f f' Hp H.
  - cbn in H. injection H as <-. cbn [firstn map concat].
    now rewrite app_nil_r.
  - cbn [for_loop] in H.
    destruct (index es i) as [e|] eqn:Ei; [|discriminate].
    apply index_defined in Ei. cbn [obind] in H.
    destruct (write_entry e f) as [f1|] eqn:E1; [|discriminate].
    destruct (write_entry_appends e f f1 Hp E1) as [Hc1 Hp1].
    cbn [obind] in H. apply (IH _ _ _ Hp1) in H as [Hc Hp'].
    rewrite (nth_error_skipn_cons _ _ _ Ei). cbn [firstn map concat].
    split; [|exact Hp'].
    now rewrite Hc, Hc1, <- app_assoc.
Qed.

Lemma header_bytes_length (h : StpArchiveHeader) :
  Z.of_nat (length (header_bytes h)) = sizeof_StpArchiveHeader.
Proof.
  unfold header_bytes. rewrite !length_app, length_firstn, length_app.
  cbn [length le32 zeros repeat]. unfold sizeof_StpArchiveHeader. lia.
Qed.

Section Layout.
Context {zlib : Zlib}.

Lemma stored_data_defined (a : StpArchive) (compressed : bool) (data : list byte) :
  stored_data a compressed = Defined data ->
  data = if compressed
         then compress 0 (firstn (Z.to_nat (ar_size a)) (ar_data a))
         else firstn (Z.to_nat (ar_size a)) (ar_data a).
Proof.
  unfold stored_data, read_block.
  destruct (_ && _ && _); [|discriminate].
  cbn [obind Z.to_nat skipn]. destruct compressed.
  - destruct (_ <=? _); [|discriminate]. now intros [= <-].
  - now intros [= <-].
Qed.

(** C5.  The stream [StpArchiveWriteToFileF_CRC] produces is the header,
    the entry table, the stored data and the checksum table, in that
    order.  In its header [data_origin] is the header size plus
    [strlen + 1 + 8] per entry and [crc_origin] is [data_origin] plus
    the length of the stored data (both modulo 2^32); but [raw_size] is
    the archive's logical size even when the stored data is the
    compressor's output, and [uncompressed_size] is zero. *)
Theorem written_layout
    (a : StpArchive) (compressed : bool) (crc_data : option (list Z))
    (out : FILE) (w w' : World) :
  StpArchiveWriteToFileF_CRC (Some a) (Some (fopen_bytes [])) compressed crc_data w
    = Defined ((true, Some out), w') ->
  let es := firstn (Z.to_nat (ar_entry_count a)) (ar_entries a) in
  let logical := firstn (Z.to_nat (ar_size a)) (ar_data a) in
  let stored := if compressed then compress 0 logical else logical in
  exists header crc_bytes,
    contents out
    = header_bytes header ++ concat (map entry_record_bytes es) ++ stored ++ crc_bytes
    /\ hdr_data_origin header = uint32 (sizeof_StpArchiveHeader + entry_records_size es)
    /\ hdr_crc_origin header
       = uint32 (hdr_data_origin header + Z.of_nat (length stored))
    /\ hdr_raw_size header = uint32 (ar_size a)
    /\ hdr_uncompressed_size header = 0
    /\ hdr_compressed header = compressed
    /\ (crc_data = None -> crc_bytes = []).
Proof.
  intros H es logical stored.
  unfold StpArchiveWriteToFileF_CRC, lift in H.
  destruct (data_origin_loop _ _) as [data_origin|] eqn:Eo; [|discriminate].
  cbn [obind] in H.
  destruct (stored_data a compressed) as [data|] eqn:Ed; [|discriminate].
  cbn [obind] in H.
  apply stored_data_defined in Ed. fold logical in Ed. fold stored in Ed. subst data.
  unfold data_origin_loop in Eo. apply data_origin_for_loop in Eo.
  cbn [skipn] in Eo. fold es in Eo.
  unfold fopen_bytes in H.
  change (mkFILE [] 0) with (mkFILE [] (Z.of_nat (length (@nil byte)))) in H.
  rewrite fwrite_appends in H. cbn [app] in H.
  destruct (write_entries_loop _ _ _) as [f1|] eqn:Ew; [|discriminate].
  cbn [obind] in H.
  unfold write_entries_loop in Ew.
  apply write_entries_for_loop in Ew; [|reflexivity].
  cbn [skipn contents] in Ew. fold es in Ew. destruct Ew as [Hc Hp].
  destruct f1 as [c1 p1]. cbn [contents pos] in Hc, Hp. subst p1.
  rewrite fwrite_appends in H.
  destruct crc_data as [crc|]; eexists.
  - destruct (_ <=? _); [|discriminate].
    rewrite fwrite_appends in H. injection H as <- _.
    eexists. cbn [contents].
    split; [rewrite Hc, <- !app_assoc; reflexivity|].
    cbn [hdr_data_origin hdr_crc_origin hdr_raw_size hdr_uncompressed_size hdr_compressed].
    repeat split; try assumption. discriminate.
  - injection H as <- _. exists []. cbn [contents].
    split; [rewrite Hc, app_nil_r, <- !app_assoc; reflexivity|].
    cbn [hdr_data_origin hdr_crc_origin hdr_raw_size hdr_uncompressed_size hdr_compressed].
    repeat split; assumption.
Qed.

End Layout.

Lemma written_layout_witness :
  let out :=
    mkFILE ([83; 84; 80; 65; 1; 0; 0; 1; 5; 0; 0; 0; 0; 0; 0; 0;
             42; 0; 0; 0; 42; 0; 0; 0; 1; 0; 0; 0]
            ++ [5; 97; 46; 116; 120; 116; 0; 0; 0; 0; 5; 0; 0; 0]) 42 in
  let es := firstn (Z.to_nat (ar_entry_count hello_archive)) (ar_entries hello_archive) in
  let logical := firstn (Z.to_nat (ar_size hello_archive)) (ar_data hello_archive) in
  let stored := @compress stored_codec 0 logical in
  StpArchiveWriteToFileF_CRC (zlib := stored_codec)
    (Some hello_archive) (Some (fopen_bytes [])) true None empty_world
    = Defined ((true, Some out), empty_world)
  /\ exists header crc_bytes,
    contents out
    = header_bytes header ++ concat (map entry_record_bytes es) ++ stored ++ crc_bytes
    /\ hdr_data_origin header = uint32 (sizeof_StpArchiveHeader + entry_records_size es)
    /\ hdr_crc_origin header
       = uint32 (hdr_data_origin header + Z.of_nat (length stored))
    /\ hdr_raw_size header = uint32 (ar_size hello_archive)
    /\ hdr_uncompressed_size header = 0
    /\ hdr_compressed header = true
    /\ (@None (list Z) = None -> crc_bytes = []).
Proof.
  intros out es logical stored.
  assert (H : StpArchiveWriteToFileF_CRC (zlib := stored_codec)
                (Some hello_archive) (Some (fopen_bytes [])) true None empty_world
              = Defined ((true, Some out), empty_world))
    by (vm_compute; reflexivity).
  split; [exact H|].
  exact (written_layout (zlib := stored_codec) hello_archive true None out
           empty_world empty_world H).
Defined.

(** On [hello_archive], written with compression: the header announces
    [raw_size = 5] and leaves [uncompressed_size = 0], while the data
    section, between [data_origin] and [crc_origin], holds what the
    compressor deposited in a destination announced as empty. *)
Example written_compressed_header :
  exists out,
    StpArchiveWriteToFileF (zlib := stored_codec)
      (Some hello_archive) (Some (fopen_bytes [])) true true empty_world
    = Defined ((true, Some out), empty_world)
    /\ hdr_raw_size (header_of_bytes (contents out)) = 5
    /\ hdr_uncompressed_size (header_of_bytes (contents out)) = 0
    /\ hdr_crc_origin (header_of_bytes (contents out))
       - hdr_data_origin (header_of_bytes (contents out)) = 0
    /\ hdr_crc_origin (header_of_bytes (contents out))
       <> hdr_data_origin (header_of_bytes (contents out))
          + hdr_raw_size (header_of_bytes (contents out)).
Proof.
  eexists. split; [vm_compute; reflexivity|].
  repeat split; try (vm_compute; reflexivity). vm_compute. discriminate.
Qed.

(** ** Lookup in an archive whose [entry_count] is its number of entries *)

Lemma strcmp_zero_iff (a : list byte) :
  forall b, strcmp a b = 0 <-> cstr a = cstr b.
Proof.
  induction a as [|x a IH]; intros [|y b]; cbn [strcmp cstr].
  - tauto.
  - destruct (y =? 0) eqn:Ey.
    + apply Z.eqb_eq in Ey. split; [reflexivity | lia].
    + apply Z.eqb_neq in Ey. split; [lia | discriminate].
  - destruct (x =? 0) eqn:Ex.
    + apply Z.eqb_eq in Ex. tauto.
    + apply Z.eqb_neq in Ex. split; [lia | discriminate].
  - destruct (x =? y) eqn:Exy.
    + apply Z.eqb_eq in Exy. subst y.
      destruct (x =? 0); [tauto|].
      rewrite IH. split; [now intros -> | now intros [= ->]].
    + apply Z.eqb_neq in Exy.
      destruct (x =? 0) eqn:Ex, (y =? 0) eqn:Ey;
        try apply Z.eqb_eq in Ex; try apply Z.eqb_eq in Ey;
        (split; [lia | first [discriminate | intros [= H _]; lia | lia]]).
Qed.

Lemma find_entry_first_match (nm : list byte) (es : list StpEntry) (n : nat) :
  forall i, (n + i = length es)%nat ->
    find_entry nm es n i
    = Defined (find (fun e => strcmp nm (en_entry_name e) =? 0) (skipn i es)).
Proof.
  induction n as [|n IH]; intros i Hn.
  - cbn [find_entry]. rewrite skipn_all2 by lia. reflexivity.
  - cbn [find_entry]. unfold index.
    destruct (nth_error es i) as [e|] eqn:Ei.
    + cbn [obind]. rewrite (nth_error_skipn_cons _ _ _ Ei). cbn [find].
      destruct (strcmp nm (en_entry_name e) =? 0); [reflexivity|].
      apply IH. lia.
    + apply nth_error_None in Ei. lia.
Qed.

(** On an archive whose [entry_count] field holds the number of its
    entries, [StpArchiveOpenEntry] answers with the first entry, in
    table order, whose name equals the requested one, and with
    [STP_ERROR_ENTRY_NOT_FOUND] when there is none; [StpArchiveHasEntry]
    agrees. *)
Lemma StpArchiveOpenEntry_counted (a : StpArchive) (nm : list byte) (w : World) :
  ar_entry_count a = Z.of_nat (length (ar_entries a)) ->
  strlen nm <> 0 ->
  let hit := find (fun e => strcmp nm (en_entry_name e) =? 0) (ar_entries a) in
  StpArchiveOpenEntry (Some a) (Some nm) w
  = match hit with
    | Some e => Defined (Some e, w)
    | None => Defined (None, set_error STP_ERROR_ENTRY_NOT_FOUND w)
    end
  /\ StpArchiveHasEntry (Some a) (Some nm) w
     = Defined (match hit with Some _ => true | None => false end, w).
Proof.
  intros Hc Hn hit.
  pose proof (strlen_nonneg nm) as H0.
  unfold StpArchiveOpenEntry, StpArchiveHasEntry.
  replace (strlen nm =? 0) with false by (symmetry; now apply Z.eqb_neq).
  replace (0 <? strlen nm) with true by (symmetry; apply Z.ltb_lt; lia).
  rewrite Hc, Nat2Z.id.
  unfold bind, lift.
  rewrite find_entry_first_match by lia. cbn [skipn]. fold hit.
  destruct hit; split; reflexivity.
Qed.

(** ** Witnesses on concrete streams *)

Lemma roundtrip_parse_fails_witness :
  let out :=
    mkFILE [83; 84; 80; 65; 1; 0; 0; 0; 5; 0; 0; 0; 0; 0; 0; 0;
            42; 0; 0; 0; 47; 0; 0; 0; 1; 0; 0; 0;
            5; 97; 46; 116; 120; 116; 0; 0; 0; 0; 5; 0; 0; 0;
            104; 101; 108; 108; 111] 47 in
  StpArchiveWriteToFileF (zlib := stored_codec)
    (Some hello_archive) (Some (fopen_bytes [])) false false empty_world
    = Defined ((true, Some out), empty_world)
  /\ StpOpenArchiveFromFile (zlib := stored_codec) zero_block
       (Some (fopen_bytes (contents out))) empty_world
     = Defined (None, set_error STP_ERROR_FILE_READ empty_world).
Proof.
  intros out.
  assert (H : StpArchiveWriteToFileF (zlib := stored_codec)
                (Some hello_archive) (Some (fopen_bytes [])) false false empty_world
              = Defined ((true, Some out), empty_world))
    by (vm_compute; reflexivity).
  split; [exact H|].
  exact (roundtrip_parse_fails (zlib := stored_codec) hello_archive false false
           zero_block out empty_world empty_world H).
Defined.

Lemma StpOpenArchive_existing_file_witness :
  let bytes :=
    [83; 84; 80; 65; 1; 0; 0; 0; 5; 0; 0; 0; 0; 0; 0; 0;
     42; 0; 0; 0; 47; 0; 0; 0; 1; 0; 0; 0;
     5; 97; 46; 116; 120; 116; 0; 0; 0; 0; 5; 0; 0; 0;
     104; 101; 108; 108; 111] in
  let i := mkInode bytes true true in
  let w := mkWorld STP_OK
             (fun p => if String.eqb p "pack.stp" then Some i else None) in
  files w "pack.stp"%string = Some i
  /\ readable i = true
  /\ StpOpenArchive (zlib := stored_codec) zero_block "pack.stp" w
     = Defined (None, set_error STP_ERROR_FILE_NOT_FOUND w)
  /\ (forall file, fopen_rb "pack.stp" w = Defined (Some file, w) ->
        StpOpenArchiveFromFile (zlib := stored_codec) zero_block (Some file) w
        = Defined (None, set_error STP_ERROR_FILE_READ w)).
Proof.
  intros bytes i w.
  assert (H1 : files w "pack.stp"%string = Some i) by reflexivity.
  assert (H2 : readable i = true) by reflexivity.
  repeat (split; [assumption|]).
  exact (StpOpenArchive_existing_file (zlib := stored_codec) zero_block
           "pack.stp" i w H1 H2).
Defined.

(** ** Payloads of a finalized table *)

Lemma sizes_sum_length (es : list StpArchiveBuilderEntry) :
  Forall builder_entry_ok es ->
  fold_right Z.add 0 (map be_size es)
  = Z.of_nat (length (concat (map be_data es))).
Proof.
  induction 1 as [|be es [Hsz _] _ IH]; cbn [map fold_right concat]; [reflexivity|].
  rewrite length_app, IH, Hsz. lia.
Qed.

Lemma read_block_middle (pre mid post : list byte) :
  read_block (pre ++ mid ++ post) (Z.of_nat (length pre)) (Z.of_nat (length mid))
  = Defined mid.
Proof.
  unfold read_block.
  replace (0 <=? Z.of_nat (length pre)) with true by (symmetry; apply Z.leb_le; lia).
  replace (0 <=? Z.of_nat (length mid)) with true by (symmetry; apply Z.leb_le; lia).
  replace (_ + _ <=? _) with true
    by (symmetry; apply Z.leb_le; rewrite !length_app; lia).
  cbn [andb]. rewrite !Nat2Z.id. f_equal.
  rewrite skipn_app, skipn_all, Nat.sub_diag. cbn [app skipn].
  rewrite firstn_app, firstn_all, Nat.sub_diag, firstn_O. now rewrite app_nil_r.
Qed.

(** Each entry of the table built by the loop of [StpBuilderFinalize]
    designates, in the concatenated data block, exactly the bytes of the
    pending entry at the same position. *)
Lemma finalize_entries_payload (es : list StpArchiveBuilderEntry) :
  Forall builder_entry_ok es ->
  exists tbl,
    finalize_entries es [] [] = Defined (concat (map be_data es), tbl)
    /\ length tbl = length es
    /\ (forall i be, nth_error es i = Some be ->
          exists e, nth_error tbl i = Some e
            /\ read_block (concat (map be_data es)) (en_origin e) (en_size e)
               = Defined (be_data be)).
Proof.
  intros Hok.
  destruct (finalize_entries_layout es Hok [] []) as [tbl [Hrun [Hlen Hnth]]].
  exists tbl. split; [exact Hrun|]. split; [exact Hlen|].
  intros i be Hi.
  destruct (Hnth i be Hi) as [e [He [Ho [Hs _]]]].
  exists e. split; [exact He|].
  cbn [length Z.of_nat] in Ho. rewrite Z.add_0_l in Ho.
  assert (Hpre : Forall builder_entry_ok (firstn i es)).
  { rewrite Forall_forall in *. intros x Hx. apply Hok.
    rewrite <- (firstn_skipn i es). apply in_or_app. now left. }
  rewrite (sizes_sum_length _ Hpre) in Ho.
  assert (Hbe : builder_entry_ok be).
  { apply nth_error_In in Hi. rewrite Forall_forall in Hok. now apply Hok. }
  destruct Hbe as [Hsz _].
  assert (Hsplit : concat (map be_data es)
                   = concat (map be_data (firstn i es))
                     ++ be_data be ++ concat (map be_data (skipn (S i) es))).
  { rewrite <- (firstn_skipn i es) at 1.
    rewrite (nth_error_skipn_cons _ _ _ Hi), map_app, concat_app. reflexivity. }
  rewrite Ho, Hs, Hsz, Hsplit. apply read_block_middle.
Qed.

(** * Further properties of the library *)

(** ** Lookup by name *)

Lemma strcmp_eqb_cstr (a b : list byte) :
  (strcmp a b =? 0) = true <-> cstr a = cstr b.
Proof. rewrite Z.eqb_eq. apply strcmp_zero_iff. Qed.

Lemma find_first_hit {A} (p : A -> bool) (pre : list A) (x : A) (post : list A) :
  p x = true -> Forall (fun y => p y = false) pre ->
  find p (pre ++ x :: post) = Some x.
Proof.
  intros Hx. induction 1 as [|y pre Hy _ IH]; cbn [app find].
  - now rewrite Hx.
  - now rewrite Hy.
Qed.

Lemma find_no_hit {A} (p : A -> bool) (l : list A) :
  Forall (fun y => p y = false) l -> find p l = None.
Proof.
  induction 1 as [|y l Hy _ IH]; cbn [find]; [reflexivity|]. now rewrite Hy.
Qed.

Lemma name_differs (nm : list byte) (es : list StpEntry) :
  Forall (fun e => cstr (en_entry_name e) <> cstr nm) es ->
  Forall (fun e => (strcmp nm (en_entry_name e) =? 0) = false) es.
Proof.
  intros H. eapply Forall_impl; [|exact H]. intros e He. cbv beta in *.
  destruct (strcmp nm (en_entry_name e) =? 0) eqn:E; [|reflexivity].
  apply strcmp_eqb_cstr in E. congruence.
Qed.

(** X1.  On an archive whose [entry_count] is the number of its
    entries, a lookup by a non-empty name answers with the first entry,
    in table order, whose name is the same C string; when no entry has
    that name, [StpArchiveOpenEntry] sets [STP_ERROR_ENTRY_NOT_FOUND]
    and returns NULL and [StpArchiveHasEntry] returns false without
    touching the error state. *)
Theorem StpArchiveOpenEntry_first_match (a : StpArchive) (nm : list byte) (w : World) :
  ar_entry_count a = Z.of_nat (length (ar_entries a)) ->
  strlen nm <> 0 ->
  (forall pre e post,
      ar_entries a = pre ++ e :: post ->
      cstr (en_entry_name e) = cstr nm ->
      Forall (fun e' => cstr (en_entry_name e') <> cstr nm) pre ->
      StpArchiveOpenEntry (Some a) (Some nm) w = Defined (Some e, w)
      /\ StpArchiveHasEntry (Some a) (Some nm) w = Defined (true, w))
  /\ (Forall (fun e' => cstr (en_entry_name e') <> cstr nm) (ar_entries a) ->
      StpArchiveOpenEntry (Some a) (Some nm) w
      = Defined (None, set_error STP_ERROR_ENTRY_NOT_FOUND w)
      /\ StpArchiveHasEntry (Some a) (Some nm) w = Defined (false, w)).
Proof.
  intros Hc Hn.
  destruct (StpArchiveOpenEntry_counted a nm w Hc Hn) as [Ho Hh].
  cbv zeta in Ho, Hh. split.
  - intros pre e post Hes He Hpre.
    rewrite Ho, Hh, Hes.
    rewrite find_first_hit; [split; reflexivity | | now apply name_differs].
    apply strcmp_eqb_cstr. now symmetry.
  - intros Hall. rewrite Ho, Hh.
    rewrite find_no_hit by now apply name_differs.
    split; reflexivity.
Qed.

Lemma StpArchiveOpenEntry_first_match_witness :
  let e := mkEntry 0 (bytes_of_string "a.txt" ++ zeros 251) 5 in
  let nm := bytes_of_string "a.txt" in
  ar_entry_count hello_archive = Z.of_nat (length (ar_entries hello_archive))
  /\ strlen nm <> 0
  /\ ar_entries hello_archive = [] ++ e :: []
  /\ cstr (en_entry_name e) = cstr nm
  /\ Forall (fun e' => cstr (en_entry_name e') <> cstr nm) []
  /\ StpArchiveOpenEntry (Some hello_archive) (Some nm) empty_world
     = Defined (Some e, empty_world)
  /\ StpArchiveHasEntry (Some hello_archive) (Some nm) empty_world
     = Defined (true, empty_world).
Proof.
  intros e nm.
  assert (H1 : ar_entry_count hello_archive
               = Z.of_nat (length (ar_entries hello_archive))) by reflexivity.
  assert (H2 : strlen nm <> 0) by (vm_compute; discriminate).
  assert (H3 : ar_entries hello_archive = [] ++ e :: []) by reflexivity.
  assert (H4 : cstr (en_entry_name e) = cstr nm) by (vm_compute; reflexivity).
  assert (H5 : Forall (fun e' => cstr (en_entry_name e') <> cstr nm) [])
    by constructor.
  repeat (split; [assumption|]).
  exact (proj1 (StpArchiveOpenEntry_first_match hello_archive nm empty_world H1 H2)
           [] e [] H3 H4 H5).
Defined.

(** X2.  For every archive pointer and name, NULL ones included,
    [StpArchiveHasEntry] returns true exactly when
    [StpArchiveOpenEntry] returns an entry, and it leaves the error
    state as it found it. *)
Theorem StpArchiveHasEntry_as_open
    (archive : option StpArchive) (name : option (list byte)) (w : World) :
  StpArchiveHasEntry archive name w
  = match StpArchiveOpenEntry archive name w with
    | Defined (r, _) => Defined (match r with Some _ => true | None => false end, w)
    | Undefined => Undefined
    end.
Proof.
  unfold StpArchiveHasEntry, StpArchiveOpenEntry.
  destruct name as [nm|]; [|destruct archive; reflexivity].
  pose proof (strlen_nonneg nm) as H0.
  destruct (strlen nm =? 0) eqn:E.
  - apply Z.eqb_eq in E. rewrite E. destruct archive; reflexivity.
  - apply Z.eqb_neq in E.
    replace (0 <? strlen nm) with true by (symmetry; apply Z.ltb_lt; lia).
    destruct archive as [a|]; [|reflexivity].
    unfold bind, lift.
    destruct (find_entry nm (ar_entries a) (Z.to_nat (ar_entry_count a)) 0)
      as [[e|]|]; reflexivity.
Qed.

(** ** The entry-record loop of the parser *)

(** X3.  The loop that reads the entry table never gets past its first
    record: it leaves with [STP_ERROR_OUT_OF_RANGE] when the name length
    read is zero and with [STP_ERROR_FILE_READ] in every other case,
    because the item count of [fread(&origin, 4, 1, file)] is compared
    with 4. *)
Theorem read_raw_entries_rejects (n : nat) (file : FILE) :
  read_raw_entries (S n) file = STP_FAILURE STP_ERROR_FILE_READ
  \/ read_raw_entries (S n) file = STP_FAILURE STP_ERROR_OUT_OF_RANGE.
Proof.
  cbn [read_raw_entries].
  destruct (fread 1 1 file) as [[k b] f1].
  destruct (k <? 1); [now left|].
  destruct (nth 0 b 0 =? 0); [now right|].
  destruct (fread 1 (nth 0 b 0) f1) as [[k2 name] f2].
  destruct (k2 <? nth 0 b 0); [now left|].
  pose proof (fread_single_item 4 f2) as Hk.
  destruct (fread 4 1 f2) as [[k3 origin] f3]. cbn [fst] in Hk.
  replace (k3 <? 4) with true by (symmetry; apply Z.ltb_lt; lia).
  now left.
Qed.

(** ** Extraction *)

Lemma read_block_size_nonneg (data : list byte) (off len : Z) (bytes : list byte) :
  read_block data off len = Defined bytes -> 0 <= len.
Proof.
  unfold read_block.
  destruct (0 <=? off); [|discriminate].
  destruct (0 <=? len) eqn:E; [|discriminate].
  intros _. now apply Z.leb_le.
Qed.

Lemma extract_status (size : Z) :
  0 <= size -> (fwrite_items size 1 =? size) = negb (2 <=? size).
Proof.
  intros H. unfold fwrite_items. cbn [Z.eqb orb].
  destruct (size =? 0) eqn:E0.
  - apply Z.eqb_eq in E0. now subst.
  - apply Z.eqb_neq in E0. rewrite orb_false_r.
    destruct (2 <=? size) eqn:E2;
      [apply Z.leb_le in E2 | apply Z.leb_gt in E2]; cbn [negb].
    + apply Z.eqb_neq. lia.
    + apply Z.eqb_eq. lia.
Qed.

Lemma StpExtractEntryToFileF_result_aux
    (data : list byte) (e : StpEntry) (f : FILE) (w : World) (payload : list byte) :
  read_block data (en_origin e) (en_size e) = Defined payload ->
  StpExtractEntryToFileF data (Some e) (Some f) w
  = Defined ((2 <=? en_size e, Some (fwrite payload f)),
             if 2 <=? en_size e then w else set_error STP_ERROR_FILE_WRITE w).
Proof.
  intros Hr. unfold StpExtractEntryToFileF, bind, lift. rewrite Hr.
  rewrite extract_status by (eapply read_block_size_nonneg; eassumption).
  destruct (2 <=? en_size e); reflexivity.
Qed.

(** X4.  [StpExtractEntryToFileF] always writes the bytes the entry
    designates to the stream, but it compares the item count [fwrite]
    returns with the entry's size: an entry of two bytes or more is
    answered with true, an entry of zero or one byte with false and
    [STP_ERROR_FILE_WRITE] although its bytes were written. *)
Theorem StpExtractEntryToFileF_result
    (data : list byte) (e : StpEntry) (f : FILE) (w : World) (payload : list byte) :
  read_block data (en_origin e) (en_size e) = Defined payload ->
  StpExtractEntryToFileF data (Some e) (Some f) w
  = Defined ((2 <=? en_size e, Some (fwrite payload f)),
             if 2 <=? en_size e then w else set_error STP_ERROR_FILE_WRITE w).
Proof. apply StpExtractEntryToFileF_result_aux. Qed.

Lemma StpExtractEntryToFileF_result_witness :
  let e := mkEntry 0 (bytes_of_string "a.txt" ++ zeros 251) 5 in
  let one := mkEntry 4 (bytes_of_string "o" ++ zeros 255) 1 in
  let data := bytes_of_string "hello" in
  read_block data (en_origin e) (en_size e) = Defined data
  /\ read_block data (en_origin one) (en_size one) = Defined [111]
  /\ StpExtractEntryToFileF data (Some e) (Some (fopen_bytes [])) empty_world
     = Defined ((2 <=? en_size e, Some (fwrite data (fopen_bytes []))),
                if 2 <=? en_size e then empty_world
                else set_error STP_ERROR_FILE_WRITE empty_world)
  /\ StpExtractEntryToFileF data (Some one) (Some (fopen_bytes [])) empty_world
     = Defined ((2 <=? en_size one, Some (fwrite [111] (fopen_bytes []))),
                if 2 <=? en_size one then empty_world
                else set_error STP_ERROR_FILE_WRITE empty_world).
Proof.
  intros e one data.
  assert (H1 : read_block data (en_origin e) (en_size e) = Defined data)
    by (vm_compute; reflexivity).
  assert (H2 : read_block data (en_origin one) (en_size one) = Defined [111])
    by (vm_compute; reflexivity).
  repeat (split; [assumption|]). split.
  - exact (StpExtractEntryToFileF_result data e (fopen_bytes []) empty_world data H1).
  - exact (StpExtractEntryToFileF_result data one (fopen_bytes []) empty_world [111] H2).
Defined.

Lemma put_file_same (path : string) (i : inode) (w : World) :
  files (put_file path i w) path = Some i.
Proof. unfold put_file. cbn [files]. now rewrite String.eqb_refl. Qed.

Lemma put_file_other (path p : string) (i : inode) (w : World) :
  p <> path -> files (put_file path i w) p = files w p.
Proof.
  intros Hp. unfold put_file. cbn [files].
  destruct (String.eqb p path) eqn:E; [|reflexivity].
  apply String.eqb_eq in E. contradiction.
Qed.

(** X5.  The path form of extraction refuses a path that names an
    existing file, with [STP_ERROR_FILE_NOT_FOUND], and leaves the file
    system as it was; on a path that names no file it creates the file
    with exactly the bytes the entry designates, touches no other file,
    and returns what the stream form returns. *)
Theorem StpExtractEntryToFile_result
    (data : list byte) (e : StpEntry) (path : string) (w : World) :
  (forall i, files w path = Some i ->
     StpExtractEntryToFile data (Some e) path w
     = Defined (false, set_error STP_ERROR_FILE_NOT_FOUND w))
  /\ (forall payload,
        files w path = None ->
        read_block data (en_origin e) (en_size e) = Defined payload ->
        exists w',
          StpExtractEntryToFile data (Some e) path w = Defined (2 <=? en_size e, w')
          /\ files w' path = Some (mkInode payload true true)
          /\ (forall p, p <> path -> files w' p = files w p)
          /\ s_stp_error_code w'
             = if 2 <=? en_size e then s_stp_error_code w else STP_ERROR_FILE_WRITE).
Proof.
  split.
  - intros i Hi. unfold StpExtractEntryToFile, bind, stat_ok. rewrite Hi. reflexivity.
  - intros payload Hn Hr.
    unfold StpExtractEntryToFile, bind, stat_ok, fopen_wb.
    cbv beta. rewrite Hn. cbv beta iota. rewrite Hn. cbv beta iota.
    rewrite (StpExtractEntryToFileF_result_aux data e _ _ payload Hr).
    cbn [snd fst]. unfold fclose_wb.
    destruct (2 <=? en_size e).
    + rewrite put_file_same. eexists. split; [reflexivity|].
      split; [|split].
      * rewrite put_file_same. unfold fopen_bytes.
        change (mkFILE [] 0) with (mkFILE [] (Z.of_nat (length (@nil byte)))).
        now rewrite fwrite_appends.
      * intros p Hp. now rewrite !put_file_other by exact Hp.
      * reflexivity.
    + unfold set_error at 1. cbn [files]. rewrite put_file_same.
      eexists. split; [reflexivity|].
      split; [|split].
      * rewrite put_file_same. unfold fopen_bytes.
        change (mkFILE [] 0) with (mkFILE [] (Z.of_nat (length (@nil byte)))).
        now rewrite fwrite_appends.
      * intros p Hp. rewrite put_file_other by exact Hp.
        cbn [files set_error]. now rewrite put_file_other by exact Hp.
      * reflexivity.
Qed.

Lemma StpExtractEntryToFile_result_witness :
  let e := mkEntry 0 (bytes_of_string "a.txt" ++ zeros 251) 5 in
  let data := bytes_of_string "hello" in
  files empty_world "out.bin"%string = None
  /\ read_block data (en_origin e) (en_size e) = Defined data
  /\ exists w',
       StpExtractEntryToFile data (Some e) "out.bin" empty_world
       = Defined (2 <=? en_size e, w')
       /\ files w' "out.bin"%string = Some (mkInode data true true)
       /\ (forall p, p <> "out.bin"%string -> files w' p = files empty_world p)
       /\ s_stp_error_code w'
          = if 2 <=? en_size e then s_stp_error_code empty_world
            else STP_ERROR_FILE_WRITE.
Proof.
  intros e data.
  assert (H1 : files empty_world "out.bin"%string = None) by reflexivity.
  assert (H2 : read_block data (en_origin e) (en_size e) = Defined data)
    by (vm_compute; reflexivity).
  repeat (split; [assumption|]).
  exact (proj2 (StpExtractEntryToFile_result data e "out.bin" empty_world) data H1 H2).
Defined.

(** ** Writing an archive without compression *)

Lemma data_origin_loop_value (es : list StpEntry) (n : nat) :
  forall i d, (n + i <= length es)%nat ->
    for_loop n i
      (fun i data_origin =>
         obind (index es i) (fun e =>
         let data_origin := uint32 (data_origin + (strlen (en_entry_name e) + 1)) in
         Defined (uint32 (data_origin + 4 * 2))))
      (uint32 d)
    = Defined (uint32 (d + entry_records_size (firstn n (skipn i es)))).
Proof.
  induction n as [|n IH]; intros i d Hn.
  - cbn. do 2 f_equal. lia.
  - cbn [for_loop]. unfold index at 1.
    destruct (nth_error es i) as [e|] eqn:Ei;
      [|apply nth_error_None in Ei; lia].
    cbn [obind].
    assert (Hstep : uint32 (uint32 (uint32 d + (strlen (en_entry_name e) + 1)) + 4 * 2)
                    = uint32 (d + (strlen (en_entry_name e) + 1 + 8))).
    { rewrite uint32_add_l.
      replace (uint32 d + (strlen (en_entry_name e) + 1) + 4 * 2)
        with (uint32 d + (strlen (en_entry_name e) + 1 + 8)) by lia.
      apply uint32_add_l. }
    cbv zeta. rewrite Hstep, IH by lia.
    rewrite (nth_error_skipn_cons _ _ _ Ei).
    cbn [firstn entry_records_size fold_right].
    do 2 f_equal. unfold entry_records_size. lia.
Qed.

Lemma write_entry_value (data : list byte) (e : StpEntry) (c : list byte) :
  entry_ok data e ->
  write_entry e (mkFILE c (Z.of_nat (length c)))
  = Defined (mkFILE (c ++ entry_record_bytes e)
                    (Z.of_nat (length (c ++ entry_record_bytes e)))).
Proof.
  intros (_ & _ & _ & Hlen & Hs).
  pose proof (strlen_nonneg (en_entry_name e)) as H0.
  unfold write_entry, entry_record_bytes, read_block.
  assert (Hu : uint8 (strlen (en_entry_name e)) = strlen (en_entry_name e))
    by (unfold uint8; apply Z.mod_small; lia).
  rewrite Hu.
  replace (0 <=? 0) with true by reflexivity.
  rewrite (proj2 (Z.leb_le 0 _) H0).
  replace (0 + strlen (en_entry_name e) <=? Z.of_nat (length (en_entry_name e)))
    with true by (symmetry; apply Z.leb_le; lia).
  cbn [andb obind Z.to_nat skipn].
  rewrite !fwrite_appends. now rewrite <- !app_assoc.
Qed.

Lemma write_entries_loop_value (data : list byte) (es : list StpEntry) (n : nat) :
  Forall (entry_ok data) es ->
  forall i c, (n + i <= length es)%nat ->
    for_loop n i (fun i file => obind (index es i) (fun e => write_entry e file))
             (mkFILE c (Z.of_nat (length c)))
    = Defined
        (mkFILE (c ++ concat (map entry_record_bytes (firstn n (skipn i es))))
                (Z.of_nat (length
                   (c ++ concat (map entry_record_bytes (firstn n (skipn i es))))))).
Proof.
  intros Hok. induction n as [|n IH]; intros i c Hn.
  - cbn. now rewrite app_nil_r.
  - cbn [for_loop]. unfold index at 1.
    destruct (nth_error es i) as [e|] eqn:Ei;
      [|apply nth_error_None in Ei; lia].
    cbn [obind].
    assert (He : entry_ok data e).
    { rewrite Forall_forall in Hok. apply Hok. eapply nth_error_In; eassumption. }
    rewrite (write_entry_value data e c He). cbn [obind].
    rewrite IH by lia.
    rewrite (nth_error_skipn_cons _ _ _ Ei). cbn [firstn map concat].
    now rewrite <- !app_assoc.
Qed.

Lemma read_block_payload (data : list byte) (e : StpEntry) :
  entry_ok data e ->
  read_block data (en_origin e) (en_size e) = Defined (payload_bytes data e).
Proof.
  intros (Ho & Hs & Hb & _). unfold read_block, payload_bytes.
  rewrite (proj2 (Z.leb_le 0 _) Ho), (proj2 (Z.leb_le 0 _) Hs),
    (proj2 (Z.leb_le _ _) Hb).
  reflexivity.
Qed.

Lemma crc_loop_value (data : list byte) (es : list StpEntry) (n : nat) :
  Forall (entry_ok data) es ->
  forall i acc, (n + i <= length es)%nat ->
    for_loop n i
      (fun i crc =>
         obind (index es i) (fun e =>
         obind (read_block data (en_origin e) (en_size e)) (fun bytes =>
         Defined (crc ++ [StpCrc32 bytes]))))
      acc
    = Defined (acc ++ map (fun e => StpCrc32 (payload_bytes data e))
                          (firstn n (skipn i es))).
Proof.
  intros Hok. induction n as [|n IH]; intros i acc Hn.
  - cbn. now rewrite app_nil_r.
  - cbn [for_loop]. unfold index at 1.
    destruct (nth_error es i) as [e|] eqn:Ei;
      [|apply nth_error_None in Ei; lia].
    cbn [obind].
    assert (He : entry_ok data e).
    { rewrite Forall_forall in Hok. apply Hok. eapply nth_error_In; eassumption. }
    rewrite (read_block_payload data e He). cbn [obind].
    rewrite IH by lia.
    rewrite (nth_error_skipn_cons _ _ _ Ei). cbn [firstn map].
    now rewrite <- app_assoc.
Qed.

Section PlainWriter.
Context {zlib : Zlib}.

(** The writer on a well-formed archive, without compression. *)
Lemma write_plain (a : StpArchive) (enable_crc : bool) (w : World) :
  archive_ok a ->
  StpArchiveWriteToFileF (Some a) (Some (fopen_bytes [])) false enable_crc w
  = Defined ((true, Some (mkFILE (plain_stream a enable_crc)
                                 (Z.of_nat (length (plain_stream a enable_crc))))), w).
Proof.
  intros (Hsize & Hcount & Hok).
  assert (Hn : Z.to_nat (ar_entry_count a) = length (ar_entries a))
    by (rewrite Hcount; apply Nat2Z.id).
  assert (Hdata : stored_data a false = Defined (ar_data a)).
  { unfold stored_data, read_block. rewrite Hsize.
    replace (0 <=? 0) with true by reflexivity.
    rewrite (proj2 (Z.leb_le 0 _)) by lia.
    rewrite (proj2 (Z.leb_le _ _)) by lia.
    cbn [andb obind skipn Z.to_nat]. now rewrite Nat2Z.id, firstn_all. }
  assert (Hwrite : forall crc_data,
    match crc_data with Some crc => crc = crc_table a | None => True end ->
    (match crc_data with Some _ => true | None => false end) = enable_crc ->
    StpArchiveWriteToFileF_CRC (Some a) (Some (fopen_bytes [])) false crc_data w
    = Defined ((true, Some (mkFILE (plain_stream a enable_crc)
                                   (Z.of_nat (length (plain_stream a enable_crc))))), w)).
  { intros crc_data Hcrc Hflag.
    unfold StpArchiveWriteToFileF_CRC, lift, data_origin_loop, write_entries_loop.
    rewrite Hn, data_origin_loop_value by lia.
    cbn [obind skipn]. rewrite firstn_all, Hdata. cbn [obind].
    unfold fopen_bytes.
    change (mkFILE [] 0) with (mkFILE [] (Z.of_nat (length (@nil byte)))).
    rewrite fwrite_appends. cbn [app].
    rewrite (write_entries_loop_value (ar_data a)) by (assumption || lia).
    cbn [obind skipn]. rewrite firstn_all, fwrite_appends.
    unfold plain_stream, plain_header. rewrite Hflag.
    destruct crc_data as [crc|]; subst enable_crc.
    - subst crc. unfold crc_table at 1. rewrite length_map, Hcount, Z.leb_refl.
      rewrite fwrite_appends.
      replace (firstn (length (ar_entries a)) (crc_table a)) with (crc_table a)
        by (symmetry; apply firstn_all2; unfold crc_table; rewrite length_map; lia).
      now rewrite <- !app_assoc.
    - now rewrite app_nil_r, <- !app_assoc. }
  unfold StpArchiveWriteToFileF, bind.
  destruct enable_crc.
  - unfold lift. rewrite Hn, (crc_loop_value (ar_data a)) by (assumption || lia).
    cbn [obind app skipn]. rewrite firstn_all.
    apply (Hwrite (Some (crc_table a))); reflexivity.
  - unfold ret. apply (Hwrite None); [exact I | reflexivity].
Qed.

Lemma write_plain_inv (a : StpArchive) (enable_crc : bool) (out : FILE) (w w' : World) :
  archive_ok a ->
  StpArchiveWriteToFileF (Some a) (Some (fopen_bytes [])) false enable_crc w
    = Defined ((true, Some out), w') ->
  contents out = plain_stream a enable_crc.
Proof.
  intros Hok Hw. rewrite write_plain in Hw by exact Hok.
  pose proof (f_equal (fun o => match o with
                                | Defined ((_, Some f), _) => contents f
                                | _ => contents out
                                end) Hw) as Hout.
  cbv beta iota in Hout. cbn [contents] in Hout. now symmetry.
Qed.

End PlainWriter.

(** ** Header and table encodings *)

Lemma of_le32_le32 (x : Z) (rest : list byte) :
  0 <= x < 2 ^ 32 -> of_le32 (firstn 4 (le32 x ++ rest)) = x.
Proof.
  intros Hx. unfold le32, of_le32. cbn [app firstn nth].
  pose proof (Z.div_mod x 256 ltac:(lia)) as H1.
  pose proof (Z.div_mod (x / 256) 256 ltac:(lia)) as H2.
  pose proof (Z.div_mod (x / 256 / 256) 256 ltac:(lia)) as H3.
  assert (H4 : x / 256 / 256 / 256 < 256).
  { repeat (apply Z.div_lt_upper_bound; [lia|]). lia. }
  assert (H5 : 0 <= x / 256 / 256 / 256) by (repeat apply Z.div_pos; lia).
  change (2 ^ 8) with 256. change (2 ^ 16) with (256 * 256).
  change (2 ^ 24) with (256 * 256 * 256).
  rewrite <- !Z.div_div by lia.
  rewrite (Z.mod_small (x / 256 / 256 / 256)) by lia.
  lia.
Qed.

Lemma of_le32_bytes (x : Z) :
  0 <= x < 2 ^ 32 ->
  of_le32 [x mod 256; (x / 2 ^ 8) mod 256; (x / 2 ^ 16) mod 256; (x / 2 ^ 24) mod 256]
  = x.
Proof. intros Hx. exact (of_le32_le32 x [] Hx). Qed.

Lemma le32_length (x : Z) : length (le32 x) = 4%nat.
Proof. reflexivity. Qed.

Lemma flags_byte_decode (h : StpArchiveHeader) :
  0 <= hdr_reserved_1 h < 64 ->
  Z.testbit (flags_byte h) 0 = hdr_compressed h
  /\ Z.testbit (flags_byte h) 1 = hdr_crc_enabled h
  /\ Z.shiftr (flags_byte h) 2 mod 64 = hdr_reserved_1 h.
Proof.
  intros Hr. unfold flags_byte. rewrite (Z.mod_small _ 64) by lia.
  set (r := hdr_reserved_1 h) in *.
  repeat split.
  - rewrite !Z.lor_spec, !Z.shiftl_spec_low by lia.
    destruct (hdr_compressed h); reflexivity.
  - rewrite !Z.lor_spec, (Z.shiftl_spec_low r) by lia.
    rewrite Z.shiftl_spec by lia. cbn [Z.sub Z.opp Z.add Z.pos_sub].
    destruct (hdr_compressed h), (hdr_crc_enabled h); reflexivity.
  - rewrite !Z.shiftr_lor.
    replace (Z.shiftr (Z.b2z (hdr_compressed h)) 2) with 0
      by (destruct (hdr_compressed h); reflexivity).
    replace (Z.shiftr (Z.shiftl (Z.b2z (hdr_crc_enabled h)) 1) 2) with 0
      by (destruct (hdr_crc_enabled h); reflexivity).
    replace (Z.shiftr (Z.shiftl r 2) 2) with r
      by (rewrite Z.shiftr_shiftl_l by lia; symmetry; apply Z.shiftl_0_r).
    rewrite !Z.lor_0_l. apply Z.mod_small. lia.
Qed.

(** Decoding the object representation of a header gives the header
    back, whatever follows it in the stream. *)
Lemma header_of_bytes_app (h : StpArchiveHeader) (rest : list byte) :
  header_ok h -> header_of_bytes (header_bytes h ++ rest) = h.
Proof.
  intros (Hml & Hmb & Hmaj & Hmin & Hr0 & Hr1 & Hraw & Hunc & Hdo & Hco & Hec).
  destruct (flags_byte_decode h Hr1) as (Hf0 & Hf1 & Hf2).
  destruct h as [magic maj mnr r0 cmp crc r1 raw unc dorg corg cnt].
  cbn [hdr_magic hdr_version_major hdr_version_minor hdr_reserved_0 hdr_compressed
       hdr_crc_enabled hdr_reserved_1 hdr_raw_size hdr_uncompressed_size
       hdr_data_origin hdr_crc_origin hdr_entry_count] in *.
  destruct magic as [|m0 [|m1 [|m2 [|m3 [|m4 magic]]]]]; try discriminate.
  unfold header_of_bytes, header_bytes.
  cbn [hdr_magic hdr_version_major hdr_version_minor hdr_reserved_0
       hdr_raw_size hdr_uncompressed_size hdr_data_origin hdr_crc_origin
       hdr_entry_count app firstn].
  set (fb := flags_byte _) in *.
  unfold uint8. rewrite !Z.mod_small by lia.
  unfold le32. cbn [app nth skipn firstn].
  rewrite Hf0, Hf1, Hf2.
  rewrite !of_le32_bytes by lia. reflexivity.
Qed.

(** X6.  A header whose fields fit their widths survives the trip
    through its 28-byte object representation: what the reader's
    [fread(&header, ...)] leaves in memory from the bytes the writer's
    [fwrite(&header, ...)] emitted is the same header, field by field. *)
Theorem header_roundtrip (h : StpArchiveHeader) :
  header_ok h -> header_of_bytes (header_bytes h) = h.
Proof.
  intros Hok. rewrite <- (app_nil_r (header_bytes h)).
  now apply header_of_bytes_app.
Qed.

Lemma header_roundtrip_witness :
  let h := mkHeader (bytes_of_string "STPA") 1 0 0 true true 0 5 0 42 47 1 in
  header_ok h /\ header_of_bytes (header_bytes h) = h.
Proof.
  intros h.
  assert (H : header_ok h).
  { unfold header_ok, h. cbn.
    repeat split; try lia; try reflexivity.
    repeat constructor; lia. }
  split; [exact H|]. exact (header_roundtrip h H).
Defined.

Lemma entry_record_length (data : list byte) (e : StpEntry) :
  entry_ok data e ->
  Z.of_nat (length (entry_record_bytes e)) = strlen (en_entry_name e) + 1 + 8.
Proof.
  intros (_ & _ & _ & Hlen & Hs).
  pose proof (strlen_nonneg (en_entry_name e)) as H0.
  unfold entry_record_bytes.
  assert (Hu : uint8 (strlen (en_entry_name e)) = strlen (en_entry_name e))
    by (unfold uint8; apply Z.mod_small; lia).
  rewrite Hu. cbn [app length].
  rewrite !length_app, length_firstn, !le32_length. lia.
Qed.

Lemma entry_records_length (data : list byte) (es : list StpEntry) :
  Forall (entry_ok data) es ->
  Z.of_nat (length (concat (map entry_record_bytes es))) = entry_records_size es.
Proof.
  induction 1 as [|e es He _ IH]; [reflexivity|].
  cbn [map concat entry_records_size fold_right].
  rewrite length_app, Nat2Z.inj_add, IH, (entry_record_length data e He).
  reflexivity.
Qed.

Lemma entry_records_size_count (es : list StpEntry) :
  Z.of_nat (length es) <= entry_records_size es.
Proof.
  induction es as [|e es IH]; [reflexivity|].
  pose proof (strlen_nonneg (en_entry_name e)).
  cbn [length entry_records_size fold_right] in *.
  fold (entry_records_size es). lia.
Qed.

Lemma uint32_small (x : Z) : 0 <= x < 2 ^ 32 -> uint32 x = x.
Proof. intros H. unfold uint32. now apply Z.mod_small. Qed.

Lemma uint32_range (x : Z) : 0 <= uint32 x < 2 ^ 32.
Proof. unfold uint32. apply Z.mod_pos_bound. lia. Qed.

Lemma plain_header_ok (a : StpArchive) (enable_crc : bool) :
  header_ok (plain_header a enable_crc).
Proof.
  unfold header_ok, plain_header.
  cbn [hdr_magic hdr_version_major hdr_version_minor hdr_reserved_0 hdr_reserved_1
       hdr_raw_size hdr_uncompressed_size hdr_data_origin hdr_crc_origin
       hdr_entry_count].
  unfold STP_VERSION_MAJOR, STP_VERSION_MINOR.
  repeat split; try apply uint32_range; try (cbn; lia).
  change magic_STPA with [83; 84; 80; 65]. repeat constructor; lia.
Qed.

(** The fields of the plain header when nothing wraps around. *)
Lemma plain_header_fields (a : StpArchive) (enable_crc : bool) :
  archive_ok a ->
  sizeof_StpArchiveHeader + entry_records_size (ar_entries a)
    + Z.of_nat (length (ar_data a)) < 2 ^ 32 ->
  hdr_raw_size (plain_header a enable_crc) = ar_size a
  /\ hdr_data_origin (plain_header a enable_crc)
     = sizeof_StpArchiveHeader + entry_records_size (ar_entries a)
  /\ hdr_crc_origin (plain_header a enable_crc)
     = sizeof_StpArchiveHeader + entry_records_size (ar_entries a) + ar_size a
  /\ hdr_entry_count (plain_header a enable_crc) = ar_entry_count a.
Proof.
  intros (Hsize & Hcount & Hok) Hfit.
  pose proof (entry_records_size_count (ar_entries a)) as Hc.
  unfold sizeof_StpArchiveHeader in *.
  unfold plain_header.
  cbn [hdr_raw_size hdr_data_origin hdr_crc_origin hdr_entry_count].
  rewrite Hsize, Hcount.
  unfold sizeof_StpArchiveHeader.
  rewrite (uint32_small (28 + _)) by lia.
  rewrite !uint32_small by lia.
  repeat split.
Qed.

Lemma fread_bytes (out : list byte) (off n : Z) :
  0 <= off -> 0 <= n -> off + n <= Z.of_nat (length out) ->
  fst (fread 1 n (fseek_set off (fopen_bytes out)))
  = (n, firstn (Z.to_nat n) (skipn (Z.to_nat off) out)).
Proof.
  intros Ho Hn Hb. unfold fread, fseek_set, fopen_bytes. cbn [contents pos fst].
  replace (Z.min (1 * n) (Z.max 0 (Z.of_nat (length out) - off))) with n by lia.
  cbn [Z.eqb]. now rewrite Z.div_1_r.
Qed.

Lemma fread_words (out : list byte) (off n : Z) :
  0 <= off -> 0 <= n -> off + 4 * n <= Z.of_nat (length out) ->
  fst (fread 4 n (fseek_set off (fopen_bytes out)))
  = (n, firstn (Z.to_nat (4 * n)) (skipn (Z.to_nat off) out)).
Proof.
  intros Ho Hn Hb. unfold fread, fseek_set, fopen_bytes. cbn [contents pos fst].
  replace (Z.min (4 * n) (Z.max 0 (Z.of_nat (length out) - off))) with (4 * n) by lia.
  cbn [Z.eqb]. f_equal.
  rewrite Z.mul_comm. apply Z.div_mul. lia.
Qed.

Lemma skipn_app_exact {A} (l1 l2 : list A) (n : nat) :
  n = length l1 -> skipn n (l1 ++ l2) = l2.
Proof.
  intros ->. rewrite skipn_app, skipn_all, Nat.sub_diag. reflexivity.
Qed.

Lemma firstn_app_exact {A} (l1 l2 : list A) (n : nat) :
  n = length l1 -> firstn n (l1 ++ l2) = l1.
Proof.
  intros ->. rewrite firstn_app, firstn_all, Nat.sub_diag, firstn_O.
  apply app_nil_r.
Qed.

Lemma words_of_le32 (l : list Z) (rest : list byte) :
  Forall (fun x => 0 <= x < 2 ^ 32) l ->
  words_of_bytes (length l) (concat (map le32 l) ++ rest) = l.
Proof.
  induction 1 as [|x l Hx _ IH]; [reflexivity|].
  cbn [length words_of_bytes map concat]. rewrite <- app_assoc.
  rewrite of_le32_le32 by exact Hx. f_equal.
  rewrite skipn_app_exact by reflexivity. exact IH.
Qed.

Lemma StpCrc32_range (data : list byte) : 0 <= StpCrc32 data < 2 ^ 32.
Proof.
  unfold StpCrc32.
  generalize (uint32_range (crc32 0 None)). generalize (uint32 (crc32 0 None)).
  induction data as [|b data IH]; intros c Hc; cbn [fold_left]; [exact Hc|].
  apply IH. apply uint32_range.
Qed.

Lemma check_crc_own_table (data : list byte) (es : list StpEntry) :
  Forall (entry_ok data) es ->
  check_crc data es (map (fun e => StpCrc32 (payload_bytes data e)) es) = aret tt.
Proof.
  induction 1 as [|e es He _ IH]; [reflexivity|].
  cbn [check_crc map nth tl]. rewrite (read_block_payload data e He).
  cbn [alift abind]. rewrite Z.eqb_refl. cbn [negb]. exact IH.
Qed.

Lemma le32_table_length (l : list Z) :
  length (concat (map le32 l)) = (4 * length l)%nat.
Proof.
  induction l as [|x l IH]; [reflexivity|].
  cbn [map concat]. rewrite length_app, IH, le32_length. cbn [length]. lia.
Qed.

Lemma plain_prefix_length (a : StpArchive) (enable_crc : bool) :
  archive_ok a ->
  Z.of_nat (length (header_bytes (plain_header a enable_crc)
                    ++ concat (map entry_record_bytes (ar_entries a))))
  = sizeof_StpArchiveHeader + entry_records_size (ar_entries a).
Proof.
  intros (_ & _ & Hok).
  rewrite length_app, Nat2Z.inj_add, header_bytes_length.
  now rewrite (entry_records_length (ar_data a)).
Qed.

Section PlainStream.
Context {zlib : Zlib}.

(** X7.  Writing a well-formed archive without compression succeeds,
    sets no error, and produces exactly the header, one record per
    entry in table order, the data block, and, when checksums are
    requested, the [StpCrc32] of each entry's bytes in table order. *)
Theorem StpArchiveWriteToFileF_plain (a : StpArchive) (enable_crc : bool) (w : World) :
  archive_ok a ->
  exists out,
    StpArchiveWriteToFileF (Some a) (Some (fopen_bytes [])) false enable_crc w
    = Defined ((true, Some out), w)
    /\ contents out
       = header_bytes (plain_header a enable_crc)
         ++ concat (map entry_record_bytes (ar_entries a))
         ++ ar_data a
         ++ (if enable_crc then concat (map le32 (crc_table a)) else [])
    /\ pos out = Z.of_nat (length (contents out)).
Proof.
  intros Hok. eexists. split; [apply write_plain; exact Hok|].
  cbn [contents pos]. split; reflexivity.
Qed.

(** X8.  In the stream written for a well-formed archive without
    compression, when the whole stream is shorter than 2^32 bytes, the
    header read back announces the archive's size as [raw_size], the
    end of the entry table as [data_origin] and [data_origin + raw_size]
    as [crc_origin]; seeking to [data_origin] and reading [raw_size]
    bytes, as the parser does, delivers the archive's data block. *)
Theorem written_sections_located
    (a : StpArchive) (enable_crc : bool) (out : FILE) (w w' : World) :
  archive_ok a ->
  sizeof_StpArchiveHeader + entry_records_size (ar_entries a)
    + Z.of_nat (length (ar_data a)) < 2 ^ 32 ->
  StpArchiveWriteToFileF (Some a) (Some (fopen_bytes [])) false enable_crc w
    = Defined ((true, Some out), w') ->
  let h := header_of_bytes (contents out) in
  hdr_compressed h = false
  /\ hdr_crc_enabled h = enable_crc
  /\ hdr_raw_size h = ar_size a
  /\ hdr_data_origin h = sizeof_StpArchiveHeader + entry_records_size (ar_entries a)
  /\ hdr_crc_origin h = hdr_data_origin h + hdr_raw_size h
  /\ hdr_entry_count h = ar_entry_count a
  /\ fst (fread 1 (hdr_raw_size h)
            (fseek_set (hdr_data_origin h) (fopen_bytes (contents out))))
     = (ar_size a, ar_data a).
Proof.
  intros Hok Hfit Hw h.
  pose proof (write_plain_inv a enable_crc out w w' Hok Hw) as Hout.
  assert (Hh : h = plain_header a enable_crc).
  { unfold h. rewrite Hout. unfold plain_stream.
    apply header_of_bytes_app, plain_header_ok. }
  destruct (plain_header_fields a enable_crc Hok Hfit) as (Hraw & Hdo & Hco & Hec).
  pose proof (plain_prefix_length a enable_crc Hok) as Hpre.
  pose proof (entry_records_size_count (ar_entries a)) as Hrs.
  destruct Hok as (Hsize & Hcount & Hes).
  rewrite Hh, Hraw, Hdo, Hco, Hec.
  split; [reflexivity|]. split; [reflexivity|]. split; [reflexivity|].
  split; [reflexivity|]. split; [lia|]. split; [reflexivity|].
  rewrite Hout. unfold sizeof_StpArchiveHeader in *.
  rewrite fread_bytes;
    [|lia|lia|unfold plain_stream; rewrite !length_app in *; lia].
  f_equal. unfold plain_stream. rewrite app_assoc.
  rewrite skipn_app_exact by lia.
  apply firstn_app_exact. lia.
Qed.

(** X9.  In the stream written with checksums for a well-formed archive
    (no compression, stream shorter than 2^32 bytes), seeking to the
    header's [crc_origin] and reading [entry_count] words delivers one
    word per entry, and the parser's comparison loop accepts every one
    of them against the archive's data. *)
Theorem written_checksums_accepted (a : StpArchive) (out : FILE) (w w' : World) :
  archive_ok a ->
  sizeof_StpArchiveHeader + entry_records_size (ar_entries a)
    + Z.of_nat (length (ar_data a)) < 2 ^ 32 ->
  StpArchiveWriteToFileF (Some a) (Some (fopen_bytes [])) false true w
    = Defined ((true, Some out), w') ->
  let h := header_of_bytes (contents out) in
  let r := fst (fread 4 (hdr_entry_count h)
                   (fseek_set (hdr_crc_origin h) (fopen_bytes (contents out)))) in
  fst r = ar_entry_count a
  /\ check_crc (ar_data a) (ar_entries a)
               (words_of_bytes (Z.to_nat (hdr_entry_count h)) (snd r))
     = aret tt.
Proof.
  intros Hok Hfit Hw h r.
  pose proof (write_plain_inv a true out w w' Hok Hw) as Hout.
  assert (Hh : h = plain_header a true).
  { unfold h. rewrite Hout. unfold plain_stream.
    apply header_of_bytes_app, plain_header_ok. }
  destruct (plain_header_fields a true Hok Hfit) as (Hraw & Hdo & Hco & Hec).
  pose proof (plain_prefix_length a true Hok) as Hpre.
  pose proof (entry_records_size_count (ar_entries a)) as Hrs.
  destruct Hok as (Hsize & Hcount & Hes).
  assert (Htl : length (crc_table a) = length (ar_entries a))
    by (unfold crc_table; apply length_map).
  assert (Hr : r = (ar_entry_count a, concat (map le32 (crc_table a)))).
  { unfold r. rewrite Hh, Hco, Hec, Hout. unfold sizeof_StpArchiveHeader in *.
    rewrite fread_words;
      [|lia|lia|unfold plain_stream;
                rewrite !length_app, le32_table_length in *; lia].
    f_equal. unfold plain_stream.
    rewrite (app_assoc (header_bytes _)), (app_assoc (_ ++ _) (ar_data a)).
    rewrite skipn_app_exact by (rewrite length_app; lia).
    apply firstn_all2. rewrite le32_table_length. lia. }
  rewrite Hr, Hh, Hec. cbn [fst snd]. split; [reflexivity|].
  rewrite Hcount, Nat2Z.id, <- Htl.
  rewrite <- (app_nil_r (concat _)), words_of_le32.
  - apply check_crc_own_table. exact Hes.
  - unfold crc_table. apply Forall_forall. intros x Hx.
    apply in_map_iff in Hx as [e [<- _]]. apply StpCrc32_range.
Qed.

End PlainStream.

Lemma hello_archive_ok : archive_ok hello_archive.
Proof.
  unfold archive_ok, hello_archive. cbn [ar_data ar_size ar_entries ar_entry_count].
  split; [reflexivity|]. split; [reflexivity|].
  constructor; [|constructor].
  unfold entry_ok. cbn [en_origin en_size en_entry_name].
  split; [lia|]. split; [lia|]. split; [cbn; lia|]. split; [reflexivity|].
  vm_compute. discriminate.
Qed.

Lemma hello_archive_fits :
  sizeof_StpArchiveHeader + entry_records_size (ar_entries hello_archive)
    + Z.of_nat (length (ar_data hello_archive)) < 2 ^ 32.
Proof. vm_compute. reflexivity. Qed.

Lemma hello_archive_written :
  StpArchiveWriteToFileF (zlib := stored_codec)
    (Some hello_archive) (Some (fopen_bytes [])) false true empty_world
  = Defined ((true,
              Some (mkFILE [83; 84; 80; 65; 1; 0; 0; 2; 5; 0; 0; 0; 0; 0; 0; 0;
                            42; 0; 0; 0; 47; 0; 0; 0; 1; 0; 0; 0;
                            5; 97; 46; 116; 120; 116; 0; 0; 0; 0; 5; 0; 0; 0;
                            104; 101; 108; 108; 111; 134; 166; 16; 54] 51)),
             empty_world).
Proof. vm_compute. reflexivity. Qed.

Lemma StpArchiveWriteToFileF_plain_witness :
  archive_ok hello_archive
  /\ exists out,
       StpArchiveWriteToFileF (zlib := stored_codec)
         (Some hello_archive) (Some (fopen_bytes [])) false true empty_world
       = Defined ((true, Some out), empty_world)
       /\ contents out
          = header_bytes (plain_header hello_archive true)
            ++ concat (map entry_record_bytes (ar_entries hello_archive))
            ++ ar_data hello_archive
            ++ (if true then concat (map le32 (crc_table hello_archive)) else [])
       /\ pos out = Z.of_nat (length (contents out)).
Proof.
  split; [exact hello_archive_ok|].
  exact (StpArchiveWriteToFileF_plain (zlib := stored_codec) hello_archive true
           empty_world hello_archive_ok).
Defined.

Lemma written_sections_located_witness :
  let out :=
    mkFILE [83; 84; 80; 65; 1; 0; 0; 2; 5; 0; 0; 0; 0; 0; 0; 0;
            42; 0; 0; 0; 47; 0; 0; 0; 1; 0; 0; 0;
            5; 97; 46; 116; 120; 116; 0; 0; 0; 0; 5; 0; 0; 0;
            104; 101; 108; 108; 111; 134; 166; 16; 54] 51 in
  let h := header_of_bytes (contents out) in
  archive_ok hello_archive
  /\ sizeof_StpArchiveHeader + entry_records_size (ar_entries hello_archive)
       + Z.of_nat (length (ar_data hello_archive)) < 2 ^ 32
  /\ StpArchiveWriteToFileF (zlib := stored_codec)
       (Some hello_archive) (Some (fopen_bytes [])) false true empty_world
     = Defined ((true, Some out), empty_world)
  /\ hdr_compressed h = false
  /\ hdr_crc_enabled h = true
  /\ hdr_raw_size h = ar_size hello_archive
  /\ hdr_data_origin h
     = sizeof_StpArchiveHeader + entry_records_size (ar_entries hello_archive)
  /\ hdr_crc_origin h = hdr_data_origin h + hdr_raw_size h
  /\ hdr_entry_count h = ar_entry_count hello_archive
  /\ fst (fread 1 (hdr_raw_size h)
            (fseek_set (hdr_data_origin h) (fopen_bytes (contents out))))
     = (ar_size hello_archive, ar_data hello_archive).
Proof.
  intros out h.
  split; [exact hello_archive_ok|]. split; [exact hello_archive_fits|].
  split; [exact hello_archive_written|].
  exact (written_sections_located (zlib := stored_codec) hello_archive true out
           empty_world empty_world
           hello_archive_ok hello_archive_fits hello_archive_written).
Defined.

Lemma written_checksums_accepted_witness :
  let out :=
    mkFILE [83; 84; 80; 65; 1; 0; 0; 2; 5; 0; 0; 0; 0; 0; 0; 0;
            42; 0; 0; 0; 47; 0; 0; 0; 1; 0; 0; 0;
            5; 97; 46; 116; 120; 116; 0; 0; 0; 0; 5; 0; 0; 0;
            104; 101; 108; 108; 111; 134; 166; 16; 54] 51 in
  let h := header_of_bytes (contents out) in
  let r := fst (fread 4 (hdr_entry_count h)
                   (fseek_set (hdr_crc_origin h) (fopen_bytes (contents out)))) in
  archive_ok hello_archive
  /\ sizeof_StpArchiveHeader + entry_records_size (ar_entries hello_archive)
       + Z.of_nat (length (ar_data hello_archive)) < 2 ^ 32
  /\ StpArchiveWriteToFileF (zlib := stored_codec)
       (Some hello_archive) (Some (fopen_bytes [])) false true empty_world
     = Defined ((true, Some out), empty_world)
  /\ fst r = ar_entry_count hello_archive
  /\ check_crc (ar_data hello_archive) (ar_entries hello_archive)
               (words_of_bytes (Z.to_nat (hdr_entry_count h)) (snd r))
     = aret tt.
Proof.
  intros out h r.
  split; [exact hello_archive_ok|]. split; [exact hello_archive_fits|].
  split; [exact hello_archive_written|].
  exact (written_checksums_accepted (zlib := stored_codec) hello_archive out
           empty_world empty_world
           hello_archive_ok hello_archive_fits hello_archive_written).
Defined.

(** ** Checksums detect a changed byte *)

Lemma lxor_cancel_r (a b m : Z) : Z.lxor a m = Z.lxor b m -> a = b.
Proof.
  intros H. rewrite <- (lxor_twice a m), H. apply lxor_twice.
Qed.

Lemma lxor_cancel_l (m a b : Z) : Z.lxor m a = Z.lxor m b -> a = b.
Proof.
  rewrite (Z.lxor_comm m a), (Z.lxor_comm m b). apply lxor_cancel_r.
Qed.

Lemma testbit_32_small (c : Z) : 0 <= c < 2 ^ 32 -> Z.testbit c 32 = false.
Proof.
  intros Hc. apply Z.testbit_false; [lia|].
  rewrite Z.div_small by lia. reflexivity.
Qed.

(** The top bit of the shifted register is the bit shifted out. *)
Lemma crc32_shift_top_bit (c : Z) :
  0 <= c < 2 ^ 32 -> Z.testbit (crc32_shift c) 31 = Z.testbit c 0.
Proof.
  intros Hc. unfold crc32_shift.
  assert (Hs : Z.testbit (Z.shiftr c 1) 31 = false).
  { rewrite Z.shiftr_spec by lia. now apply testbit_32_small. }
  destruct (Z.testbit c 0).
  - rewrite Z.lxor_spec, Hs. reflexivity.
  - exact Hs.
Qed.

Lemma shiftr_1_bit0 (c : Z) : c = 2 * Z.shiftr c 1 + Z.b2z (Z.testbit c 0).
Proof.
  rewrite Z.shiftr_div_pow2 by lia. change (2 ^ 1) with 2.
  rewrite Z.bit0_mod. apply Z.div_mod. lia.
Qed.

Lemma crc32_shift_inj (c1 c2 : Z) :
  0 <= c1 < 2 ^ 32 -> 0 <= c2 < 2 ^ 32 ->
  crc32_shift c1 = crc32_shift c2 -> c1 = c2.
Proof.
  intros H1 H2 He.
  assert (Hb : Z.testbit c1 0 = Z.testbit c2 0).
  { rewrite <- (crc32_shift_top_bit c1 H1), <- (crc32_shift_top_bit c2 H2).
    now rewrite He. }
  assert (Hs : Z.shiftr c1 1 = Z.shiftr c2 1).
  { unfold crc32_shift in He. rewrite <- Hb in He.
    destruct (Z.testbit c1 0); [|exact He].
    eapply lxor_cancel_r. exact He. }
  rewrite (shiftr_1_bit0 c1), (shiftr_1_bit0 c2), Hs, Hb. reflexivity.
Qed.

Lemma crc32_shift_iter_range (n : nat) (x : Z) :
  0 <= x < 2 ^ 32 -> 0 <= Nat.iter n crc32_shift x < 2 ^ 32.
Proof.
  intros Hx. induction n as [|n IH]; cbn [Nat.iter]; [exact Hx|].
  now apply crc32_shift_range.
Qed.

Lemma crc32_shift_iter_inj (n : nat) (x y : Z) :
  0 <= x < 2 ^ 32 -> 0 <= y < 2 ^ 32 ->
  Nat.iter n crc32_shift x = Nat.iter n crc32_shift y -> x = y.
Proof.
  intros Hx Hy. induction n as [|n IH]; cbn [Nat.iter]; [tauto|].
  intros H. apply IH.
  apply crc32_shift_inj; [now apply crc32_shift_iter_range ..|exact H].
Qed.

(** For a fixed register the update is injective in the byte, and for
    a fixed byte it is injective in the register. *)
Lemma crc32_byte_inj_byte (c b1 b2 : Z) :
  0 <= c < 2 ^ 32 -> 0 <= b1 < 256 -> 0 <= b2 < 256 ->
  crc32_byte c b1 = crc32_byte c b2 -> b1 = b2.
Proof.
  intros Hc H1 H2 He. unfold crc32_byte in He.
  apply crc32_shift_iter_inj in He; [|apply lxor_range; lia ..].
  eapply lxor_cancel_l. exact He.
Qed.

Lemma crc32_byte_inj_state (c1 c2 b : Z) :
  0 <= c1 < 2 ^ 32 -> 0 <= c2 < 2 ^ 32 -> 0 <= b < 256 ->
  crc32_byte c1 b = crc32_byte c2 b -> c1 = c2.
Proof.
  intros H1 H2 Hb He. unfold crc32_byte in He.
  apply crc32_shift_iter_inj in He; [|apply lxor_range; lia ..].
  eapply lxor_cancel_r. exact He.
Qed.

Lemma crc32_fold_inj (bs : list byte) :
  Forall (fun b => 0 <= b < 256) bs ->
  forall c1 c2, 0 <= c1 < 2 ^ 32 -> 0 <= c2 < 2 ^ 32 ->
    fold_left crc32_byte bs c1 = fold_left crc32_byte bs c2 -> c1 = c2.
Proof.
  induction 1 as [|b bs Hb _ IH]; intros c1 c2 H1 H2; cbn [fold_left]; [tauto|].
  intros He. apply IH in He; [|now apply crc32_byte_range ..].
  eapply crc32_byte_inj_state; eassumption.
Qed.

(** Two buffers that differ in exactly one byte have different
    checksums. *)
Lemma crc32_byte_change (pre post : list byte) (b1 b2 : byte) :
  Forall (fun b => 0 <= b < 256) pre ->
  Forall (fun b => 0 <= b < 256) post ->
  0 <= b1 < 256 -> 0 <= b2 < 256 -> b1 <> b2 ->
  crc32 0 (Some (pre ++ b1 :: post)) <> crc32 0 (Some (pre ++ b2 :: post)).
Proof.
  intros Hpre Hpost H1 H2 Hne He. unfold crc32 in He.
  apply lxor_cancel_r in He.
  rewrite !fold_left_app in He. cbn [fold_left] in He.
  assert (Hs : 0 <= fold_left crc32_byte pre (Z.lxor 0 0xffffffff) < 2 ^ 32)
    by (apply crc32_fold_range; [exact Hpre | cbn; lia]).
  apply crc32_fold_inj in He;
    [|exact Hpost | now apply crc32_byte_range ..].
  apply crc32_byte_inj_byte in He; [contradiction| assumption ..].
Qed.

Lemma StpCrc32_as_crc32 (data : list byte) :
  Forall (fun b => 0 <= b < 256) data -> StpCrc32 data = crc32 0 (Some data).
Proof.
  intros Hd. unfold StpCrc32. cbn [crc32]. change (uint32 0) with 0.
  apply crc32_running; [exact Hd | lia].
Qed.

Lemma Forall_bytes_split (pre post : list byte) (b : byte) :
  Forall (fun b => 0 <= b < 256) (pre ++ b :: post) ->
  Forall (fun b => 0 <= b < 256) pre
  /\ 0 <= b < 256
  /\ Forall (fun b => 0 <= b < 256) post.
Proof.
  intros H. apply Forall_app in H as [Hp H]. inversion H; subst. tauto.
Qed.

(** X10.  [StpCrc32] tells apart any two buffers of bytes that differ
    in exactly one position. *)
Theorem StpCrc32_detects_byte_change (pre post : list byte) (b1 b2 : byte) :
  Forall (fun b => 0 <= b < 256) (pre ++ b1 :: post) ->
  0 <= b2 < 256 ->
  b1 <> b2 ->
  StpCrc32 (pre ++ b1 :: post) <> StpCrc32 (pre ++ b2 :: post).
Proof.
  intros Hall H2 Hne.
  destruct (Forall_bytes_split _ _ _ Hall) as (Hpre & H1 & Hpost).
  rewrite !StpCrc32_as_crc32;
    [now apply crc32_byte_change | |exact Hall].
  apply Forall_app. split; [exact Hpre|]. now constructor.
Qed.

Lemma StpCrc32_detects_byte_change_witness :
  Forall (fun b => 0 <= b < 256) ([104; 101] ++ 108 :: [108; 111])
  /\ 0 <= 109 < 256
  /\ 108 <> 109
  /\ StpCrc32 ([104; 101] ++ 108 :: [108; 111])
     <> StpCrc32 ([104; 101] ++ 109 :: [108; 111]).
Proof.
  assert (H1 : Forall (fun b => 0 <= b < 256) ([104; 101] ++ 108 :: [108; 111]))
    by (repeat constructor; lia).
  assert (H2 : 0 <= 109 < 256) by lia.
  assert (H3 : 108 <> 109) by discriminate.
  repeat (split; [assumption|]).
  exact (StpCrc32_detects_byte_change [104; 101] [108; 111] 108 109 H1 H2 H3).
Defined.

(** X11.  The parser's comparison loop answers [STP_ERROR_CRC] for the
    first entry whose bytes differ in exactly one position from the
    bytes its stored checksum was computed over. *)
Theorem check_crc_detects_byte_change
    (data : list byte) (e : StpEntry) (entries : list StpEntry)
    (crcs : list Z) (pre post : list byte) (b1 b2 : byte) :
  read_block data (en_origin e) (en_size e) = Defined (pre ++ b2 :: post) ->
  Forall (fun b => 0 <= b < 256) (pre ++ b1 :: post) ->
  0 <= b2 < 256 ->
  b1 <> b2 ->
  check_crc data (e :: entries) (StpCrc32 (pre ++ b1 :: post) :: crcs)
  = STP_FAILURE STP_ERROR_CRC.
Proof.
  intros Hr Hall H2 Hne.
  destruct (Forall_bytes_split _ _ _ Hall) as (Hpre & H1 & Hpost).
  cbn [check_crc nth]. rewrite Hr. cbn [alift abind].
  replace (StpCrc32 (pre ++ b2 :: post) =? StpCrc32 (pre ++ b1 :: post)) with false;
    [reflexivity|].
  symmetry. apply Z.eqb_neq.
  rewrite !StpCrc32_as_crc32;
    [apply crc32_byte_change; auto | exact Hall |].
  apply Forall_app. split; [exact Hpre|]. now constructor.
Qed.

Lemma check_crc_detects_byte_change_witness :
  let e := mkEntry 0 (bytes_of_string "a.txt" ++ zeros 251) 5 in
  let data := [104; 101] ++ 109 :: [108; 111] in
  read_block data (en_origin e) (en_size e) = Defined ([104; 101] ++ 109 :: [108; 111])
  /\ Forall (fun b => 0 <= b < 256) ([104; 101] ++ 108 :: [108; 111])
  /\ 0 <= 109 < 256
  /\ 108 <> 109
  /\ check_crc data (e :: []) (StpCrc32 ([104; 101] ++ 108 :: [108; 111]) :: [])
     = STP_FAILURE STP_ERROR_CRC.
Proof.
  intros e data.
  assert (H0 : read_block data (en_origin e) (en_size e)
               = Defined ([104; 101] ++ 109 :: [108; 111])) by (vm_compute; reflexivity).
  assert (H1 : Forall (fun b => 0 <= b < 256) ([104; 101] ++ 108 :: [108; 111]))
    by (repeat constructor; lia).
  assert (H2 : 0 <= 109 < 256) by lia.
  assert (H3 : 108 <> 109) by discriminate.
  repeat (split; [assumption|]).
  exact (check_crc_detects_byte_change data e [] [] [104; 101] [108; 111] 108 109
           H0 H1 H2 H3).
Defined.

(** ** The builder between calls *)

Lemma size_t_of_small (z : Z) : 0 <= z <= PTRDIFF_MAX -> size_t_of z = z.
Proof.
  unfold size_t_of, PTRDIFF_MAX. intros H. apply Z.mod_small. lia.
Qed.

Lemma malloc_granted (size : Z) : size <= PTRDIFF_MAX -> malloc size = Some size.
Proof. intros H. unfold malloc. now rewrite (proj2 (Z.leb_le _ _) H). Qed.

Lemma malloc_refused (size : Z) : PTRDIFF_MAX < size -> malloc size = None.
Proof. intros H. unfold malloc. now rewrite (proj2 (Z.leb_gt _ _) H). Qed.

(** X12.  The state [builder_inv] is an invariant of the builder.
    [StpCreateArchiveBuilder] with a positive capacity whose array the
    allocator grants establishes it, with no pending entry, a block of
    exactly [capacity] slots and the flag asked for; when the byte count
    [sizeof(StpArchiveBuilderEntry) * capacity], taken as a [size_t], is
    refused, it answers [STP_ERROR_OUT_OF_MEMORY] and NULL.  From that
    state [StpBuilderAppendBinary] with a non-empty name, when the
    allocator grants the array it may have to reserve, succeeds, adds
    exactly one pending entry at the end, keeps the checksum flag and
    table, replaces the array only when it is full (by one of
    [count + 5] slots) and re-establishes the state; a non-empty buffer
    leaves the error state untouched. *)
Theorem builder_invariant (b : StpArchiveBuilder) (w : World) :
  (forall capacity generate_crc,
     0 < capacity ->
     capacity * sizeof_StpArchiveBuilderEntry <= PTRDIFF_MAX ->
     exists b0,
       StpCreateArchiveBuilder capacity generate_crc w = Defined (Some b0, w)
       /\ builder_inv b0
       /\ bl_pending b0 = []
       /\ bl_capacity b0 = capacity
       /\ bl_enable_crc b0 = generate_crc)
  /\ (forall capacity generate_crc,
        0 < capacity ->
        PTRDIFF_MAX < size_t_of (sizeof_StpArchiveBuilderEntry * capacity) ->
        StpCreateArchiveBuilder capacity generate_crc w
        = Defined (None, set_error STP_ERROR_OUT_OF_MEMORY w))
  /\ (forall nm buf,
        builder_inv b -> reserve_granted (bl_count b) -> strlen nm <> 0 ->
        exists b' w',
          StpBuilderAppendBinary (Some b) (Some nm) (Some buf) w
          = Defined ((true, Some b'), w')
          /\ builder_inv b'
          /\ bl_pending b' = bl_pending b ++ [pending_entry nm buf]
          /\ bl_count b' = bl_count b + 1
          /\ bl_enable_crc b' = bl_enable_crc b
          /\ bl_crc_data b' = bl_crc_data b
          /\ (bl_capacity b' = bl_capacity b
              \/ (bl_capacity b <= bl_count b /\ bl_capacity b' = bl_count b + 5))
          /\ (buf <> [] -> w' = w)).
Proof.
  split; [|split].
  - intros capacity generate_crc Hc Hfit.
    unfold sizeof_StpArchiveBuilderEntry in Hfit.
    unfold StpCreateArchiveBuilder.
    rewrite (proj2 (Z.ltb_lt _ _) Hc).
    unfold sizeof_StpArchiveBuilderEntry, sizeof_uint32_t.
    rewrite size_t_of_small by lia.
    rewrite malloc_granted by lia.
    unfold calloc.
    replace (4 * capacity <=? PTRDIFF_MAX) with true
      by (symmetry; apply Z.leb_le; lia).
    destruct generate_crc; unfold ret; eexists; (split; [reflexivity|]);
      unfold builder_inv, bl_count, bl_pending;
      cbn [bl_entries bl_capacity bl_enable_crc bl_block length Z.of_nat];
      unfold sizeof_StpArchiveBuilderEntry;
      (split; [split; [discriminate|]; split; [lia|]; split; [lia | constructor]|]);
      split; [reflexivity|split; reflexivity | reflexivity | split; reflexivity].
  - intros capacity generate_crc Hc Href.
    unfold StpCreateArchiveBuilder.
    rewrite (proj2 (Z.ltb_lt _ _) Hc).
    rewrite malloc_refused by exact Href. reflexivity.
  - intros nm buf Hinv Hgr Hn.
    rewrite (append_step b nm buf w Hinv Hgr Hn).
    eexists. eexists. split; [reflexivity|].
    split; [apply append_step_inv; [exact Hinv | apply pending_entry_ok]|].
    destruct Hinv as (Harr & Hblk & Hcap & Hok).
    unfold appended, bl_count, bl_pending in *.
    cbn [bl_entries bl_capacity bl_enable_crc bl_crc_data].
    rewrite length_app, Nat2Z.inj_add. cbn [length Z.of_nat].
    split; [reflexivity|]. split; [reflexivity|]. split; [reflexivity|].
    split; [reflexivity|]. split.
    + destruct (bl_capacity b <=? _) eqn:E;
        [apply Z.leb_le in E; right; lia | left; reflexivity].
    + intros Hb. replace (Z.of_nat (length buf) =? 0) with false; [reflexivity|].
      symmetry. apply Z.eqb_neq. destruct buf; [congruence | cbn; lia].
Qed.

Lemma builder_invariant_witness :
  let b := mkBuilder (Some [pending_entry (bytes_of_string "b.bin") [0; 1; 2]])
                     (Some [0]) 1 true 280 in
  let nm := bytes_of_string "a.txt" in
  let buf := bytes_of_string "hello" in
  0 < 1
  /\ 1 * sizeof_StpArchiveBuilderEntry <= PTRDIFF_MAX
  /\ 0 < 2 ^ 64 - 1
  /\ PTRDIFF_MAX < size_t_of (sizeof_StpArchiveBuilderEntry * (2 ^ 64 - 1))
  /\ builder_inv b
  /\ reserve_granted (bl_count b)
  /\ strlen nm <> 0
  /\ (exists b0,
        StpCreateArchiveBuilder 1 true empty_world = Defined (Some b0, empty_world)
        /\ builder_inv b0
        /\ bl_pending b0 = []
        /\ bl_capacity b0 = 1
        /\ bl_enable_crc b0 = true)
  /\ StpCreateArchiveBuilder (2 ^ 64 - 1) true empty_world
     = Defined (None, set_error STP_ERROR_OUT_OF_MEMORY empty_world)
  /\ (exists b' w',
        StpBuilderAppendBinary (Some b) (Some nm) (Some buf) empty_world
        = Defined ((true, Some b'), w')
        /\ builder_inv b'
        /\ bl_pending b' = bl_pending b ++ [pending_entry nm buf]
        /\ bl_count b' = bl_count b + 1
        /\ bl_enable_crc b' = bl_enable_crc b
        /\ bl_crc_data b' = bl_crc_data b
        /\ (bl_capacity b' = bl_capacity b
            \/ (bl_capacity b <= bl_count b /\ bl_capacity b' = bl_count b + 5))
        /\ (buf <> [] -> w' = empty_world)).
Proof.
  intros b nm buf.
  assert (H0 : 0 < 1) by lia.
  assert (H1 : 1 * sizeof_StpArchiveBuilderEntry <= PTRDIFF_MAX)
    by (vm_compute; discriminate).
  assert (H2 : 0 < 2 ^ 64 - 1) by reflexivity.
  assert (H3 : PTRDIFF_MAX < size_t_of (sizeof_StpArchiveBuilderEntry * (2 ^ 64 - 1)))
    by (vm_compute; reflexivity).
  assert (H4 : builder_inv b).
  { unfold builder_inv, b, bl_count, bl_pending.
    cbn [bl_entries bl_capacity bl_block length Z.of_nat].
    split; [discriminate|]. split; [reflexivity|]. split; [lia|].
    constructor; [apply pending_entry_ok | constructor]. }
  assert (H5 : reserve_granted (bl_count b)) by (vm_compute; discriminate).
  assert (H6 : strlen nm <> 0) by (vm_compute; discriminate).
  repeat (split; [assumption|]).
  split; [|split].
  - exact (proj1 (builder_invariant b empty_world) 1 true H0 H1).
  - exact (proj1 (proj2 (builder_invariant b empty_world)) (2 ^ 64 - 1) true H2 H3).
  - exact (proj2 (proj2 (builder_invariant b empty_world)) nm buf H4 H5 H6).
Defined.

Lemma skipn_cons_inv {A} (l : list A) :
  forall i x r, skipn i l = x :: r -> nth_error l i = Some x /\ skipn (S i) l = r.
Proof.
  induction l as [|y l IH]; intros [|i] x r H; cbn in H; try discriminate.
  - injection H as -> ->. split; reflexivity.
  - cbn [nth_error]. change (skipn (S (S i)) (y :: l)) with (skipn (S i) l).
    now apply IH.
Qed.

Lemma segment_head {A} (l : list A) (n i : nat) (x : A) (rest : list A) :
  firstn n (skipn i l) = x :: rest ->
  exists n', n = S n' /\ nth_error l i = Some x /\ firstn n' (skipn (S i) l) = rest.
Proof.
  destruct n as [|n]; [discriminate|]. intros H. exists n. split; [reflexivity|].
  destruct (skipn i l) as [|y r] eqn:Es; [discriminate|].
  cbn [firstn] in H. injection H as -> <-.
  destruct (skipn_cons_inv l i x r Es) as [Hn Hs]. now rewrite Hs.
Qed.

Lemma reserve_granted_le (m n : Z) :
  m <= n -> reserve_granted n -> reserve_granted m.
Proof.
  unfold reserve_granted, sizeof_StpArchiveBuilderEntry. lia.
Qed.

Lemma bl_count_appended (b : StpArchiveBuilder) (e : StpArchiveBuilderEntry) :
  bl_count (appended b e) = bl_count b + 1.
Proof.
  unfold appended, bl_count, bl_pending. cbn [bl_entries].
  rewrite length_app, Nat2Z.inj_add. reflexivity.
Qed.

(** The entries [StpBuilderAppendArchive] stores for a segment of the
    archive's table. *)
Lemma append_archive_loop_all (a : StpArchive) (seg : list StpEntry) :
  Forall (entry_ok (ar_data a)) seg ->
  Forall (fun e => strlen (en_entry_name e) <> 0) seg ->
  forall n i b w,
    builder_inv b ->
    reserve_granted (bl_count b + Z.of_nat (length seg)) ->
    firstn n (skipn i (ar_entries a)) = seg ->
    n = length seg ->
    exists b' w',
      append_archive_loop a n i (Some b) w = Defined ((true, Some b'), w')
      /\ builder_inv b'
      /\ bl_pending b'
         = bl_pending b
           ++ map (fun e => pending_entry (en_entry_name e)
                                          (payload_bytes (ar_data a) e)) seg
      /\ bl_enable_crc b' = bl_enable_crc b.
Proof.
  induction 1 as [|e seg He _ IH]; intros Hne n i b w Hinv Hgr Hseg Hlen.
  - subst n. cbn [length append_archive_loop map]. exists b, w.
    rewrite app_nil_r.
    split; [reflexivity|]. split; [assumption|]. split; reflexivity.
  - apply Forall_cons_iff in Hne as [Hn Hne'].
    destruct (segment_head _ _ _ _ _ Hseg) as (n' & Hn' & Hi & Hrest).
    rewrite Hn' in Hlen. cbn [length] in Hlen. injection Hlen as Hlen.
    rewrite Hn'. clear Hn'. subst n'.
    cbn [length] in Hgr. rewrite Nat2Z.inj_succ in Hgr.
    assert (Hgr0 : reserve_granted (bl_count b))
      by (eapply reserve_granted_le; [|exact Hgr]; lia).
    cbn [append_archive_loop]. unfold bind at 1. unfold lift at 1, index.
    rewrite Hi.
    replace (strlen (en_entry_name e) =? 0) with false
      by (symmetry; now apply Z.eqb_neq).
    unfold bind at 1. unfold bind at 1. unfold lift at 1.
    rewrite (read_block_payload _ _ He).
    rewrite (append_step b _ _ _ Hinv Hgr0 Hn). cbn [fst snd negb].
    set (pe := pending_entry (en_entry_name e) (payload_bytes (ar_data a) e)).
    assert (Hgr1 : reserve_granted (bl_count (appended b pe) + Z.of_nat (length seg))).
    { rewrite bl_count_appended. eapply reserve_granted_le; [|exact Hgr]. lia. }
    destruct (IH Hne' (length seg) (S i) (appended b pe)
                 (if Z.of_nat (length (payload_bytes (ar_data a) e)) =? 0
                  then set_error STP_ERROR_OUT_OF_RANGE w else w)
                 (append_step_inv b pe Hinv (pending_entry_ok _ _))
                 Hgr1 Hrest eq_refl)
      as (b' & w' & Hrun & Hinv' & Hpend & Hcrc).
    exists b', w'. split; [exact Hrun|]. split; [exact Hinv'|]. split; [|exact Hcrc].
    rewrite Hpend. unfold appended at 1.
    cbn [bl_pending bl_entries map]. now rewrite <- app_assoc.
Qed.

Lemma append_archive_loop_stops (a : StpArchive) (pre : list StpEntry) :
  Forall (entry_ok (ar_data a)) pre ->
  Forall (fun e => strlen (en_entry_name e) <> 0) pre ->
  forall e post n i b w,
    builder_inv b ->
    reserve_granted (bl_count b + Z.of_nat (length pre)) ->
    strlen (en_entry_name e) = 0 ->
    firstn n (skipn i (ar_entries a)) = pre ++ e :: post ->
    exists b' w',
      append_archive_loop a n i (Some b) w = Defined ((false, Some b'), w')
      /\ s_stp_error_code w' = STP_ERROR_INVALID_ARGUMENT
      /\ bl_pending b'
         = bl_pending b
           ++ map (fun e => pending_entry (en_entry_name e)
                                          (payload_bytes (ar_data a) e)) pre.
Proof.
  induction 1 as [|p pre Hp _ IH]; intros Hne e post n i b w Hinv Hgr He Hseg.
  - cbn [app] in Hseg.
    destruct (segment_head _ _ _ _ _ Hseg) as (n' & -> & Hi & _).
    cbn [append_archive_loop]. unfold bind at 1. unfold lift at 1, index.
    rewrite Hi, He. cbn [Z.eqb].
    unfold bind, StpBuilderAppendBinary. rewrite He. cbn.
    exists b, (set_error STP_ERROR_INVALID_ARGUMENT w).
    rewrite app_nil_r. repeat split.
  - apply Forall_cons_iff in Hne as [Hn Hne'].
    cbn [app] in Hseg.
    destruct (segment_head _ _ _ _ _ Hseg) as (n' & -> & Hi & Hrest).
    cbn [length] in Hgr. rewrite Nat2Z.inj_succ in Hgr.
    assert (Hgr0 : reserve_granted (bl_count b))
      by (eapply reserve_granted_le; [|exact Hgr]; lia).
    cbn [append_archive_loop]. unfold bind at 1. unfold lift at 1, index.
    rewrite Hi.
    replace (strlen (en_entry_name p) =? 0) with false
      by (symmetry; now apply Z.eqb_neq).
    unfold bind at 1. unfold bind at 1. unfold lift at 1.
    rewrite (read_block_payload _ _ Hp).
    rewrite (append_step b _ _ _ Hinv Hgr0 Hn). cbn [fst snd negb].
    set (pe := pending_entry (en_entry_name p) (payload_bytes (ar_data a) p)).
    assert (Hgr1 : reserve_granted (bl_count (appended b pe) + Z.of_nat (length pre))).
    { rewrite bl_count_appended. eapply reserve_granted_le; [|exact Hgr]. lia. }
    destruct (IH Hne' e post n' (S i) (appended b pe)
                 (if Z.of_nat (length (payload_bytes (ar_data a) p)) =? 0
                  then set_error STP_ERROR_OUT_OF_RANGE w else w)
                 (append_step_inv b pe Hinv (pending_entry_ok _ _))
                 Hgr1 He Hrest)
      as (b' & w' & Hrun & Herr & Hpend).
    exists b', w'. split; [exact Hrun|]. split; [exact Herr|].
    rewrite Hpend. unfold appended at 1.
    cbn [bl_pending bl_entries map]. now rewrite <- app_assoc.
Qed.

(** X13.  [StpBuilderAppendArchive] of a well-formed archive whose
    entries all have non-empty names, into a builder in the state
    [builder_inv], the allocator granting the arrays reserved on the
    way: it returns true and appends, in table order, one pending entry
    per archive entry, holding a copy of the bytes the entry designates
    under the entry's name; the builder stays in the state
    [builder_inv] and keeps its checksum flag. *)
Theorem StpBuilderAppendArchive_all (a : StpArchive) (b : StpArchiveBuilder) (w : World) :
  archive_ok a ->
  Forall (fun e => strlen (en_entry_name e) <> 0) (ar_entries a) ->
  builder_inv b ->
  reserve_granted (bl_count b + Z.of_nat (length (ar_entries a))) ->
  exists b' w',
    StpBuilderAppendArchive (Some b) (Some a) w = Defined ((true, Some b'), w')
    /\ builder_inv b'
    /\ bl_pending b'
       = bl_pending b
         ++ map (fun e => pending_entry (en_entry_name e)
                                        (payload_bytes (ar_data a) e)) (ar_entries a)
    /\ bl_enable_crc b' = bl_enable_crc b.
Proof.
  intros (_ & Hcount & Hok) Hne Hinv Hgr. unfold StpBuilderAppendArchive.
  rewrite Hcount, Nat2Z.id.
  apply append_archive_loop_all; try assumption; [|reflexivity].
  cbn [skipn]. apply firstn_all.
Qed.

Lemma StpBuilderAppendArchive_all_witness :
  let b := mkBuilder (Some [pending_entry (bytes_of_string "b.bin") [0; 1; 2]])
                     None 1 false 280 in
  archive_ok hello_archive
  /\ Forall (fun e => strlen (en_entry_name e) <> 0) (ar_entries hello_archive)
  /\ builder_inv b
  /\ reserve_granted (bl_count b + Z.of_nat (length (ar_entries hello_archive)))
  /\ exists b' w',
       StpBuilderAppendArchive (Some b) (Some hello_archive) empty_world
       = Defined ((true, Some b'), w')
       /\ builder_inv b'
       /\ bl_pending b'
          = bl_pending b
            ++ map (fun e => pending_entry (en_entry_name e)
                                           (payload_bytes (ar_data hello_archive) e))
                   (ar_entries hello_archive)
       /\ bl_enable_crc b' = bl_enable_crc b.
Proof.
  intros b.
  assert (H1 : Forall (fun e => strlen (en_entry_name e) <> 0)
                      (ar_entries hello_archive)).
  { constructor; [vm_compute; discriminate | constructor]. }
  assert (H2 : builder_inv b).
  { unfold builder_inv, b, bl_count, bl_pending.
    cbn [bl_entries bl_capacity bl_block length Z.of_nat].
    split; [discriminate|]. split; [reflexivity|]. split; [lia|].
    constructor; [apply pending_entry_ok | constructor]. }
  assert (H3 : reserve_granted
                 (bl_count b + Z.of_nat (length (ar_entries hello_archive))))
    by (vm_compute; discriminate).
  split; [exact hello_archive_ok|]. split; [exact H1|]. split; [exact H2|].
  split; [exact H3|].
  exact (StpBuilderAppendArchive_all hello_archive b empty_world
           hello_archive_ok H1 H2 H3).
Defined.

(** X14.  [StpBuilderAppendArchive] stops at the first entry whose name
    is empty: it returns false with [STP_ERROR_INVALID_ARGUMENT], and
    the entries that precede it in the table stay appended to the
    builder (which is in the state [builder_inv] on entry, the
    allocator granting the arrays reserved on the way). *)
Theorem StpBuilderAppendArchive_stops
    (a : StpArchive) (b : StpArchiveBuilder) (w : World)
    (pre : list StpEntry) (e : StpEntry) (post : list StpEntry) :
  archive_ok a ->
  ar_entries a = pre ++ e :: post ->
  Forall (fun e => strlen (en_entry_name e) <> 0) pre ->
  strlen (en_entry_name e) = 0 ->
  builder_inv b ->
  reserve_granted (bl_count b + Z.of_nat (length pre)) ->
  exists b' w',
    StpBuilderAppendArchive (Some b) (Some a) w = Defined ((false, Some b'), w')
    /\ s_stp_error_code w' = STP_ERROR_INVALID_ARGUMENT
    /\ bl_pending b'
       = bl_pending b
         ++ map (fun e => pending_entry (en_entry_name e)
                                        (payload_bytes (ar_data a) e)) pre.
Proof.
  intros (_ & Hcount & Hok) Hes Hne He Hinv Hgr. unfold StpBuilderAppendArchive.
  rewrite Hcount, Nat2Z.id.
  eapply append_archive_loop_stops; try eassumption.
  - rewrite Hes in Hok. apply Forall_app in Hok. tauto.
  - cbn [skipn]. rewrite firstn_all. exact Hes.
Qed.

Lemma StpBuilderAppendArchive_stops_witness :
  let e1 := mkEntry 0 (bytes_of_string "a.txt" ++ zeros 251) 5 in
  let e0 := mkEntry 5 (zeros 256) 0 in
  let a := mkArchive (bytes_of_string "hello") 5 [e1; e0] 2 in
  let b := mkBuilder (Some []) None 1 false 280 in
  archive_ok a
  /\ ar_entries a = [e1] ++ e0 :: []
  /\ Forall (fun e => strlen (en_entry_name e) <> 0) [e1]
  /\ strlen (en_entry_name e0) = 0
  /\ builder_inv b
  /\ reserve_granted (bl_count b + Z.of_nat (length [e1]))
  /\ exists b' w',
       StpBuilderAppendArchive (Some b) (Some a) empty_world
       = Defined ((false, Some b'), w')
       /\ s_stp_error_code w' = STP_ERROR_INVALID_ARGUMENT
       /\ bl_pending b'
          = bl_pending b
            ++ map (fun e => pending_entry (en_entry_name e)
                                           (payload_bytes (ar_data a) e)) [e1].
Proof.
  intros e1 e0 a b.
  assert (H1 : archive_ok a).
  { unfold archive_ok, a. cbn [ar_data ar_size ar_entries ar_entry_count].
    split; [reflexivity|]. split; [reflexivity|].
    assert (Hall : forall e, e = e1 \/ e = e0 -> entry_ok (bytes_of_string "hello") e).
    { intros e [-> | ->]; unfold entry_ok, e1, e0;
        cbn [en_origin en_size en_entry_name];
        (split; [lia|]); (split; [lia|]); (split; [cbn; lia|]);
        (split; [reflexivity|]); vm_compute; discriminate. }
    constructor; [apply Hall; now left|].
    constructor; [apply Hall; now right | constructor]. }
  assert (H2 : ar_entries a = [e1] ++ e0 :: []) by reflexivity.
  assert (H3 : Forall (fun e => strlen (en_entry_name e) <> 0) [e1]).
  { constructor; [vm_compute; discriminate | constructor]. }
  assert (H4 : strlen (en_entry_name e0) = 0) by reflexivity.
  assert (H5 : builder_inv b).
  { unfold builder_inv, b, bl_count, bl_pending.
    cbn [bl_entries bl_capacity bl_block length Z.of_nat].
    split; [discriminate|]. split; [reflexivity|]. split; [lia | constructor]. }
  assert (H6 : reserve_granted (bl_count b + Z.of_nat (length [e1])))
    by (vm_compute; discriminate).
  repeat (split; [assumption|]).
  exact (StpBuilderAppendArchive_stops a b empty_world [e1] e0 [] H1 H2 H3 H4 H5 H6).
Defined.

(** ** Appending files *)

Lemma fread_whole_file (f : FILE) :
  fread 1 (ftell (fseek_end f)) (fseek_set 0 (fseek_end f))
  = (Z.of_nat (length (contents f)), contents f,
     mkFILE (contents f) (Z.of_nat (length (contents f)))).
Proof.
  unfold fread, ftell, fseek_set, fseek_end. cbn [contents pos].
  replace (Z.min (1 * Z.of_nat (length (contents f)))
                 (Z.max 0 (Z.of_nat (length (contents f)) - 0)))
    with (Z.of_nat (length (contents f))) by lia.
  cbn [Z.eqb Z.to_nat skipn]. rewrite Z.div_1_r, Nat2Z.id, firstn_all.
  reflexivity.
Qed.

(** X15.  [StpBuilderAppendFileF] stores its entry at [entries[count]]
    without consulting [capacity] and without reserving room.  When
    that slot lies inside the block of the entry array it returns true
    and appends one pending entry holding the whole contents of the
    stream, read from its start whatever the position on entry, under
    the name cut to 255 bytes; when the array is NULL or the slot does
    not lie inside its block, as on a full array, where
    [StpBuilderAppendBinary] would reserve room, the store falls
    outside the array. *)
Theorem StpBuilderAppendFileF_slot
    (b : StpArchiveBuilder) (f : FILE) (nm : list byte) (w : World) :
  strlen nm <> 0 ->
  (forall es, bl_entries b = Some es -> slot_in_block b (bl_count b) = true ->
     StpBuilderAppendFileF (Some b) (Some f) (Some nm) w
     = Defined ((true,
                 Some (mkBuilder (Some (es ++ [pending_entry nm (contents f)]))
                                 (bl_crc_data b) (bl_capacity b) (bl_enable_crc b)
                                 (bl_block b))),
                w))
  /\ (bl_entries b = None \/ slot_in_block b (bl_count b) = false ->
      StpBuilderAppendFileF (Some b) (Some f) (Some nm) w = Undefined)
  /\ (builder_inv b -> bl_capacity b <= bl_count b ->
      StpBuilderAppendFileF (Some b) (Some f) (Some nm) w = Undefined).
Proof.
  intros Hn.
  assert (Hrun : StpBuilderAppendFileF (Some b) (Some f) (Some nm) w
                 = match bl_entries b with
                   | Some es =>
                       if slot_in_block b (bl_count b)
                       then Defined ((true,
                              Some (mkBuilder (Some (es ++ [pending_entry nm (contents f)]))
                                      (bl_crc_data b) (bl_capacity b) (bl_enable_crc b)
                                      (bl_block b))),
                              w)
                       else Undefined
                   | None => Undefined
                   end).
  { unfold StpBuilderAppendFileF.
    replace (strlen nm =? 0) with false by (symmetry; now apply Z.eqb_neq).
    cbv zeta. rewrite fread_whole_file, name_len_value.
    unfold bind, lift. rewrite name_field_copy.
    unfold pending_entry, ftell, fseek_end. cbn [pos].
    destruct (bl_entries b); [|reflexivity].
    destruct (slot_in_block b (bl_count b)); reflexivity. }
  rewrite Hrun. split; [|split].
  - intros es Hes Hslot. now rewrite Hes, Hslot.
  - intros [Hnull | Hout].
    + now rewrite Hnull.
    + destruct (bl_entries b); [|reflexivity]. now rewrite Hout.
  - intros (_ & Hblk & _ & _) Hfull.
    destruct (bl_entries b); [|reflexivity].
    replace (slot_in_block b (bl_count b)) with false; [reflexivity|].
    symmetry. unfold slot_in_block. apply Z.leb_gt. rewrite Hblk.
    unfold sizeof_StpArchiveBuilderEntry. lia.
Qed.

Lemma StpBuilderAppendFileF_slot_witness :
  let b := mkBuilder (Some []) None 2 false 560 in
  let f := mkFILE (bytes_of_string "hello") 3 in
  let nm := bytes_of_string "a.txt" in
  strlen nm <> 0
  /\ bl_entries b = Some []
  /\ slot_in_block b (bl_count b) = true
  /\ StpBuilderAppendFileF (Some b) (Some f) (Some nm) empty_world
     = Defined ((true,
                 Some (mkBuilder (Some ([] ++ [pending_entry nm (contents f)]))
                                 (bl_crc_data b) (bl_capacity b) (bl_enable_crc b)
                                 (bl_block b))),
                empty_world).
Proof.
  intros b f nm.
  assert (H1 : strlen nm <> 0) by (vm_compute; discriminate).
  assert (H2 : bl_entries b = Some []) by reflexivity.
  assert (H3 : slot_in_block b (bl_count b) = true) by reflexivity.
  repeat (split; [assumption|]).
  exact (proj1 (StpBuilderAppendFileF_slot b f nm empty_world H1) [] H2 H3).
Defined.

(** X16.  The path forms of file appending never append.  Whenever
    [StpBuilderAppendFileNameOverride] or [StpBuilderAppendFile]
    returns, it returns false and leaves the builder as it was: a path
    that names an existing file is refused with
    [STP_ERROR_FILE_NOT_FOUND] by the [stat] test, and for a path that
    names no file the stream is NULL when [fclose] is reached. *)
Theorem StpBuilderAppendFile_never_appends
    (builder : option StpArchiveBuilder) (filename : option string)
    (binary : bool) (w : World) :
  (forall entry_name r b' w',
     StpBuilderAppendFileNameOverride builder filename binary entry_name w
     = Defined ((r, b'), w') ->
     r = false /\ b' = builder)
  /\ (forall r b' w',
        StpBuilderAppendFile builder filename binary w = Defined ((r, b'), w') ->
        r = false /\ b' = builder)
  /\ (forall b fn nm i,
        builder = Some b -> filename = Some fn ->
        strlen (bytes_of_string fn) <> 0 -> strlen nm <> 0 ->
        files w fn = Some i ->
        StpBuilderAppendFileNameOverride builder filename binary (Some nm) w
        = Defined ((false, builder), set_error STP_ERROR_FILE_NOT_FOUND w))
  /\ (forall b fn nm,
        builder = Some b -> filename = Some fn ->
        strlen (bytes_of_string fn) <> 0 -> strlen nm <> 0 ->
        files w fn = None ->
        StpBuilderAppendFileNameOverride builder filename binary (Some nm) w
        = Undefined).
Proof.
  assert (Hover : forall entry_name r b' w',
    StpBuilderAppendFileNameOverride builder filename binary entry_name w
    = Defined ((r, b'), w') -> r = false /\ b' = builder).
  { intros entry_name r b' w'. unfold StpBuilderAppendFileNameOverride.
    destruct builder as [b|]; [|cbn; intros [= <- <- _]; now split].
    destruct filename as [fn|]; [|cbn; intros [= <- <- _]; now split].
    destruct (strlen (bytes_of_string fn) =? 0);
      [cbn; intros [= <- <- _]; now split|].
    destruct entry_name as [nm|]; [|cbn; intros [= <- <- _]; now split].
    destruct (strlen nm =? 0); [cbn; intros [= <- <- _]; now split|].
    unfold bind at 1. unfold stat_ok at 1.
    destruct (files w fn) as [i|] eqn:Ef.
    - cbn. intros [= <- <- _]. now split.
    - unfold bind at 1. unfold fopen_rb at 1. rewrite Ef.
      unfold bind at 1. unfold StpSetError at 1.
      unfold bind at 1. cbn [StpBuilderAppendFileF].
      unfold bind at 1. unfold StpSetError at 1. unfold ret at 1.
      unfold undefined. discriminate. }
  split; [exact Hover|]. split; [|split].
  - intros r b' w'. unfold StpBuilderAppendFile.
    destruct builder as [b|]; [|cbn; intros [= <- <- _]; now split].
    destruct filename as [fn|]; [|cbn; intros [= <- <- _]; now split].
    destruct (strlen (bytes_of_string fn) =? 0);
      [cbn; intros [= <- <- _]; now split|].
    apply Hover.
  - intros b fn nm i -> -> Hfn Hnm Hf. unfold StpBuilderAppendFileNameOverride.
    replace (strlen (bytes_of_string fn) =? 0) with false
      by (symmetry; now apply Z.eqb_neq).
    replace (strlen nm =? 0) with false by (symmetry; now apply Z.eqb_neq).
    unfold bind, stat_ok. rewrite Hf. reflexivity.
  - intros b fn nm -> -> Hfn Hnm Hf. unfold StpBuilderAppendFileNameOverride.
    replace (strlen (bytes_of_string fn) =? 0) with false
      by (symmetry; now apply Z.eqb_neq).
    replace (strlen nm =? 0) with false by (symmetry; now apply Z.eqb_neq).
    unfold bind at 1. unfold stat_ok at 1. rewrite Hf.
    unfold bind at 1. unfold fopen_rb at 1. rewrite Hf.
    reflexivity.
Qed.

Lemma StpBuilderAppendFile_never_appends_witness :
  let b := mkBuilder (Some []) None 2 false 560 in
  let i := mkInode (bytes_of_string "hello") true true in
  let w := mkWorld STP_OK
             (fun p => if String.eqb p "a.txt" then Some i else None) in
  let nm := bytes_of_string "a.txt" in
  strlen (bytes_of_string "a.txt") <> 0
  /\ strlen nm <> 0
  /\ files w "a.txt"%string = Some i
  /\ StpBuilderAppendFileNameOverride (Some b) (Some "a.txt"%string) true (Some nm) w
     = Defined ((false, Some b), set_error STP_ERROR_FILE_NOT_FOUND w).
Proof.
  intros b i w nm.
  assert (H1 : strlen (bytes_of_string "a.txt") <> 0) by (vm_compute; discriminate).
  assert (H2 : strlen nm <> 0) by (vm_compute; discriminate).
  assert (H3 : files w "a.txt"%string = Some i) by reflexivity.
  repeat (split; [assumption|]).
  exact (proj1 (proj2 (proj2
           (StpBuilderAppendFile_never_appends (Some b) (Some "a.txt"%string) true w)))
           b "a.txt"%string nm i eq_refl eq_refl H1 H2 H3).
Defined.

(** ** Finalizing *)

(** X17.  The copy loop of [StpBuilderFinalize], for any number of
    well-shaped pending entries: the data block it fills is the
    concatenation of the pending buffers in order, and the i-th entry of
    the table it builds starts at the sum of the sizes before it, has
    the size of the i-th pending entry, designates exactly that entry's
    bytes in the data block, and carries its stored name in a 256-byte
    field. *)
Theorem finalize_loop_designates (es : list StpArchiveBuilderEntry) :
  Forall builder_entry_ok es ->
  exists tbl,
    finalize_entries es [] [] = Defined (concat (map be_data es), tbl)
    /\ length tbl = length es
    /\ (forall i be, nth_error es i = Some be ->
          exists e, nth_error tbl i = Some e
            /\ en_origin e = fold_right Z.add 0 (map be_size (firstn i es))
            /\ en_size e = be_size be
            /\ read_block (concat (map be_data es)) (en_origin e) (en_size e)
               = Defined (be_data be)
            /\ firstn (Z.to_nat (be_name_len be)) (en_entry_name e)
               = firstn (Z.to_nat (be_name_len be)) (be_name be)
            /\ length (en_entry_name e) = 256%nat).
Proof.
  intros Hok.
  destruct (finalize_entries_layout es Hok [] []) as (tbl & Hrun & Hlen & Hnth).
  destruct (finalize_entries_payload es Hok) as (tbl' & Hrun' & _ & Hpay).
  cbn [app] in Hrun. rewrite Hrun in Hrun'. injection Hrun' as <-.
  exists tbl. split; [exact Hrun|]. split; [exact Hlen|].
  intros i be Hi.
  destruct (Hnth i be Hi) as (e & He & Ho & Hs & Hname & Hl).
  destruct (Hpay i be Hi) as (e' & He' & Hp).
  rewrite He in He'. injection He' as <-.
  exists e. cbn [length Z.of_nat] in Ho. rewrite Z.add_0_l in Ho.
  repeat split; assumption.
Qed.

Lemma finalize_loop_designates_witness :
  let es := [pending_entry (bytes_of_string "a.txt") (bytes_of_string "hello");
             pending_entry (bytes_of_string "b.bin") [0; 1; 2]] in
  Forall builder_entry_ok es
  /\ exists tbl,
       finalize_entries es [] [] = Defined (concat (map be_data es), tbl)
       /\ length tbl = length es
       /\ (forall i be, nth_error es i = Some be ->
             exists e, nth_error tbl i = Some e
               /\ en_origin e = fold_right Z.add 0 (map be_size (firstn i es))
               /\ en_size e = be_size be
               /\ read_block (concat (map be_data es)) (en_origin e) (en_size e)
                  = Defined (be_data be)
               /\ firstn (Z.to_nat (be_name_len be)) (en_entry_name e)
                  = firstn (Z.to_nat (be_name_len be)) (be_name be)
               /\ length (en_entry_name e) = 256%nat).
Proof.
  intros es.
  assert (H : Forall builder_entry_ok es)
    by (repeat constructor; apply pending_entry_ok).
  split; [exact H|]. exact (finalize_loop_designates es H).
Defined.

(** X18.  With at most one pending entry [StpBuilderFinalize] returns
    an archive, sets no error, and leaves a builder with an allocated
    array in the all-zero state (a builder with a NULL array as it
    was).  The archive's data block is the pending buffer and its table
    entry designates that buffer; its [size] and [entry_count] fields
    are never assigned and hold what the block [malloc] returned
    held. *)
Theorem StpBuilderFinalize_small
    (fresh : StpArchive) (b : StpArchiveBuilder) (w : World) :
  (length (bl_pending b) <= 1)%nat ->
  Forall builder_entry_ok (bl_pending b) ->
  exists a,
    StpBuilderFinalize fresh (Some b) w
    = Defined ((Some a,
                Some (match bl_entries b with
                      | Some _ => zeroed_builder
                      | None => b
                      end)), w)
    /\ ar_data a = concat (map be_data (bl_pending b))
    /\ ar_size a = ar_size fresh
    /\ ar_entry_count a = ar_entry_count fresh
    /\ length (ar_entries a) = length (bl_pending b)
    /\ (forall i be, nth_error (bl_pending b) i = Some be ->
          exists e, nth_error (ar_entries a) i = Some e
            /\ entry_payload a e = Defined (be_data be)).
Proof.
  intros Hlen Hok.
  destruct (finalize_entries_payload _ Hok) as (tbl & Hrun & Hl & Hpay).
  exists (mkArchive (concat (map be_data (bl_pending b))) (ar_size fresh)
                    tbl (ar_entry_count fresh)).
  split; [|repeat split; try assumption].
  unfold StpBuilderFinalize, bind, lift. rewrite Hrun. cbn [fst snd].
  unfold StpBuilderClear, bl_pending in *.
  destruct (bl_entries b) as [es|]; [|reflexivity].
  destruct es as [|e [|e' es]]; [reflexivity | reflexivity | cbn in Hlen; lia].
Qed.

Lemma StpBuilderFinalize_small_witness :
  let be := pending_entry (bytes_of_string "a.txt") (bytes_of_string "hello") in
  let b := mkBuilder (Some [be]) None 5 true 1400 in
  (length (bl_pending b) <= 1)%nat
  /\ Forall builder_entry_ok (bl_pending b)
  /\ exists a,
       StpBuilderFinalize zero_block (Some b) empty_world
       = Defined ((Some a,
                   Some (match bl_entries b with
                         | Some _ => zeroed_builder
                         | None => b
                         end)), empty_world)
       /\ ar_data a = concat (map be_data (bl_pending b))
       /\ ar_size a = ar_size zero_block
       /\ ar_entry_count a = ar_entry_count zero_block
       /\ length (ar_entries a) = length (bl_pending b)
       /\ (forall i be, nth_error (bl_pending b) i = Some be ->
             exists e, nth_error (ar_entries a) i = Some e
               /\ entry_payload a e = Defined (be_data be)).
Proof.
  intros be b.
  assert (H1 : (length (bl_pending b) <= 1)%nat) by (cbn; lia).
  assert (H2 : Forall builder_entry_ok (bl_pending b))
    by (repeat constructor; apply pending_entry_ok).
  repeat (split; [assumption|]).
  exact (StpBuilderFinalize_small zero_block b empty_world H1 H2).
Defined.

Section FinalizeToFile.
Context {zlib : Zlib}.

(** X19.  [StpBuilderFinalizeToFileF] discards what the writer returns:
    whenever it returns, it returns true.  With a NULL stream, for
    instance, the writer refuses with [STP_ERROR_INVALID_ARGUMENT] and
    writes nothing, yet the call reports success, the builder having
    been finalized and cleared. *)
Theorem StpBuilderFinalizeToFileF_reports_success
    (fresh : StpArchive) (b : StpArchiveBuilder) (compressed : bool) (w : World) :
  (forall file r f b' w',
     StpBuilderFinalizeToFileF fresh (Some b) file compressed w
     = Defined ((r, f, b'), w') -> r = true)
  /\ (bl_enable_crc b = false ->
      (length (bl_pending b) <= 1)%nat ->
      Forall builder_entry_ok (bl_pending b) ->
      StpBuilderFinalizeToFileF fresh (Some b) None compressed w
      = Defined ((true, None,
                  Some (match bl_entries b with
                        | Some _ => zeroed_builder
                        | None => b
                        end)),
                 set_error STP_ERROR_INVALID_ARGUMENT w)).
Proof.
  split.
  - intros file r f b' w'. unfold StpBuilderFinalizeToFileF.
    unfold bind at 1. unfold StpBuilderFinalize.
    unfold bind at 1. 
    destruct (lift (finalize_entries (bl_pending b) [] []) w) as [[r1 w1]|];
      [|discriminate].
    unfold bind at 1.
    destruct (StpBuilderClear (Some b) w1) as [[b1 w2]|]; [|discriminate].
    unfold ret at 1. cbn [fst snd]. unfold bind.
    destruct (StpArchiveWriteToFileF _ file compressed (bl_enable_crc b) w2)
      as [[r2 w3]|]; [|discriminate].
    unfold ret. now intros [= <- _ _ _].
  - intros Hcrc Hlen Hok.
    destruct (finalize_entries_payload _ Hok) as (tbl & Hrun & _).
    unfold StpBuilderFinalizeToFileF, StpBuilderFinalize, bind, lift.
    rewrite Hrun, Hcrc. cbn [fst snd].
    unfold StpBuilderClear, bl_pending in *.
    destruct (bl_entries b) as [es|]; [|reflexivity].
    destruct es as [|e [|e' es]]; [reflexivity | reflexivity | cbn in Hlen; lia].
Qed.

End FinalizeToFile.

Lemma StpBuilderFinalizeToFileF_reports_success_witness :
  let be := pending_entry (bytes_of_string "a.txt") (bytes_of_string "hello") in
  let b := mkBuilder (Some [be]) None 5 false 1400 in
  bl_enable_crc b = false
  /\ (length (bl_pending b) <= 1)%nat
  /\ Forall builder_entry_ok (bl_pending b)
  /\ StpBuilderFinalizeToFileF (zlib := stored_codec) zero_block (Some b) None true
       empty_world
     = Defined ((true, None,
                 Some (match bl_entries b with
                       | Some _ => zeroed_builder
                       | None => b
                       end)),
                set_error STP_ERROR_INVALID_ARGUMENT empty_world).
Proof.
  intros be b.
  assert (H0 : bl_enable_crc b = false) by reflexivity.
  assert (H1 : (length (bl_pending b) <= 1)%nat) by (cbn; lia).
  assert (H2 : Forall builder_entry_ok (bl_pending b))
    by (repeat constructor; apply pending_entry_ok).
  repeat (split; [assumption|]).
  exact (proj2 (StpBuilderFinalizeToFileF_reports_success (zlib := stored_codec)
                  zero_block b true empty_world) H0 H1 H2).
Defined.

(** ** Reading and writing by path *)

Section WriteByPath.
Context {zlib : Zlib}.

(** X20.  [StpArchiveWriteToFile] of a well-formed archive, without
    compression: on a path that names no file or a writable one it
    returns true, sets no error, leaves every other file untouched, and
    the file then holds exactly the stream the stream form writes; on a
    path that names a file it may not write, it returns false with
    [STP_ERROR_FILE_OPEN] and changes no file. *)
Theorem StpArchiveWriteToFile_plain
    (a : StpArchive) (filename : string) (enable_crc : bool) (w : World) :
  archive_ok a ->
  ((forall i, files w filename = Some i -> writable i = true) ->
   exists w',
     StpArchiveWriteToFile (Some a) filename false enable_crc w = Defined (true, w')
     /\ option_map file_bytes (files w' filename)
        = Some (header_bytes (plain_header a enable_crc)
                ++ concat (map entry_record_bytes (ar_entries a))
                ++ ar_data a
                ++ (if enable_crc then concat (map le32 (crc_table a)) else []))
     /\ (forall p, p <> filename -> files w' p = files w p)
     /\ s_stp_error_code w' = s_stp_error_code w)
  /\ (forall i, files w filename = Some i -> writable i = false ->
        StpArchiveWriteToFile (Some a) filename false enable_crc w
        = Defined (false, set_error STP_ERROR_FILE_OPEN w)).
Proof.
  intros Hok. split.
  - intros Hw. unfold StpArchiveWriteToFile.
    unfold bind at 1. unfold fopen_wb.
    destruct (files w filename) as [i|] eqn:Ef.
    + rewrite (Hw i eq_refl).
      unfold bind at 1. rewrite (write_plain a enable_crc _ Hok).
      cbn [fst snd]. unfold bind, fclose_wb, ret.
      rewrite put_file_same. eexists. split; [reflexivity|].
      split; [|split].
      * rewrite put_file_same. reflexivity.
      * intros p Hp. now rewrite !put_file_other by exact Hp.
      * reflexivity.
    + unfold bind at 1. rewrite (write_plain a enable_crc _ Hok).
      cbn [fst snd]. unfold bind, fclose_wb, ret.
      rewrite put_file_same. eexists. split; [reflexivity|].
      split; [|split].
      * rewrite put_file_same. reflexivity.
      * intros p Hp. now rewrite !put_file_other by exact Hp.
      * reflexivity.
  - intros i Hf Hnw. unfold StpArchiveWriteToFile, bind, fopen_wb.
    rewrite Hf, Hnw. reflexivity.
Qed.

End WriteByPath.

Lemma StpArchiveWriteToFile_plain_witness :
  archive_ok hello_archive
  /\ (forall i, files empty_world "pack.stp"%string = Some i -> writable i = true)
  /\ exists w',
       StpArchiveWriteToFile (zlib := stored_codec)
         (Some hello_archive) "pack.stp" false true empty_world
       = Defined (true, w')
       /\ option_map file_bytes (files w' "pack.stp"%string)
          = Some (header_bytes (plain_header hello_archive true)
                  ++ concat (map entry_record_bytes (ar_entries hello_archive))
                  ++ ar_data hello_archive
                  ++ (if true then concat (map le32 (crc_table hello_archive)) else []))
       /\ (forall p, p <> "pack.stp"%string -> files w' p = files empty_world p)
       /\ s_stp_error_code w' = s_stp_error_code empty_world.
Proof.
  assert (H : forall i, files empty_world "pack.stp"%string = Some i -> writable i = true)
    by (intros i Hi; discriminate Hi).
  split; [exact hello_archive_ok|]. split; [exact H|].
  exact (proj1 (StpArchiveWriteToFile_plain (zlib := stored_codec)
                  hello_archive "pack.stp" true empty_world hello_archive_ok) H).
Defined.

(** X21.  What [StpReadEntry] delivers: for a non-zero capacity it
    returns [min(entry.size, buffer_max)] and overwrites that many
    leading bytes of the destination with the leading bytes of the
    entry's name field ([memcpy] reads [entry->entry_name]); the data
    block the entry points into is not consulted. *)
Theorem StpReadEntry_copies_name_field
    (e : StpEntry) (dst : list byte) (c : Z) (w : World) :
  0 < c < 2 ^ 63 ->
  0 <= en_size e ->
  Z.min (en_size e) c <= Z.of_nat (length dst) ->
  Z.min (en_size e) c <= Z.of_nat (length (en_entry_name e)) ->
  StpReadEntry (Some e) (Some dst) c w
  = Defined ((Z.min (en_size e) c,
              Some (firstn (Z.to_nat (Z.min (en_size e) c)) (en_entry_name e)
                    ++ skipn (Z.to_nat (Z.min (en_size e) c)) dst)), w).
Proof.
  intros Hc Hs Hd Hn. unfold StpReadEntry.
  replace (c =? 0) with false by (symmetry; apply Z.eqb_neq; lia).
  assert (Hmin : (if en_size e >? c then c else en_size e) = Z.min (en_size e) c).
  { rewrite Z.gtb_ltb. destruct (c <? en_size e) eqn:E;
      [apply Z.ltb_lt in E | apply Z.ltb_ge in E]; lia. }
  rewrite Hmin. unfold bind, lift.
  rewrite memcpy_defined by lia.
  unfold ret. now rewrite ssize_of_size_small by lia.
Qed.

Lemma StpReadEntry_copies_name_field_witness :
  let e := mkEntry 0 (bytes_of_string "a.txt" ++ zeros 251) 5 in
  0 < 8 < 2 ^ 63
  /\ 0 <= en_size e
  /\ Z.min (en_size e) 8 <= Z.of_nat (length (zeros 8))
  /\ Z.min (en_size e) 8 <= Z.of_nat (length (en_entry_name e))
  /\ StpReadEntry (Some e) (Some (zeros 8)) 8 empty_world
     = Defined ((Z.min (en_size e) 8,
                 Some (firstn (Z.to_nat (Z.min (en_size e) 8)) (en_entry_name e)
                       ++ skipn (Z.to_nat (Z.min (en_size e) 8)) (zeros 8))),
                empty_world).
Proof.
  intros e.
  assert (H1 : 0 < 8 < 2 ^ 63) by lia.
  assert (H2 : 0 <= en_size e) by (cbn; lia).
  assert (H3 : Z.min (en_size e) 8 <= Z.of_nat (length (zeros 8))) by (cbn; lia).
  assert (H4 : Z.min (en_size e) 8 <= Z.of_nat (length (en_entry_name e)))
    by (cbn; lia).
  repeat (split; [assumption|]).
  exact (StpReadEntry_copies_name_field e (zeros 8) 8 empty_world H1 H2 H3 H4).
Defined.

Section FinalizeByPath.
Context {zlib : Zlib}.

(** X22.  [StpBuilderFinalizeToFile] opens the target before it touches
    the builder: on a path that names a file it may not write, it
    returns false with [STP_ERROR_FILE_OPEN] and the builder keeps its
    pending entries; once the file is open, whenever the call returns,
    it returns true. *)
Theorem StpBuilderFinalizeToFile_open_first
    (fresh : StpArchive) (b : StpArchiveBuilder) (filename : string)
    (compressed : bool) (w : World) :
  (forall i, files w filename = Some i -> writable i = false ->
     StpBuilderFinalizeToFile fresh (Some b) filename compressed w
     = Defined ((false, Some b), set_error STP_ERROR_FILE_OPEN w))
  /\ (forall r b' w',
        (forall i, files w filename = Some i -> writable i = true) ->
        StpBuilderFinalizeToFile fresh (Some b) filename compressed w
        = Defined ((r, b'), w') ->
        r = true).
Proof.
  split.
  - intros i Hf Hnw. unfold StpBuilderFinalizeToFile, bind, fopen_wb.
    rewrite Hf, Hnw. reflexivity.
  - intros r b' w' Hw. unfold StpBuilderFinalizeToFile.
    unfold bind at 1.
    assert (Hopen : exists w0, fopen_wb filename w = Defined (Some (fopen_bytes []), w0)).
    { unfold fopen_wb. destruct (files w filename) as [i|] eqn:Ef.
      - rewrite (Hw i eq_refl). eexists. reflexivity.
      - eexists. reflexivity. }
    destruct Hopen as [w0 ->].
    unfold bind at 1.
    destruct (StpBuilderFinalizeToFileF fresh (Some b) (Some (fopen_bytes []))
                compressed w0) as [[[[r1 f1] b1] w1]|] eqn:Efin; [|discriminate].
    cbn [fst snd]. unfold bind.
    assert (Hr1 : r1 = true).
    { revert Efin. unfold StpBuilderFinalizeToFileF.
      unfold bind at 1. unfold StpBuilderFinalize. unfold bind at 1.
      destruct (lift (finalize_entries (bl_pending b) [] []) w0) as [[r2 w2]|];
        [|discriminate].
      unfold bind at 1.
      destruct (StpBuilderClear (Some b) w2) as [[b2 w3]|]; [|discriminate].
      unfold ret at 1. cbn [fst snd]. unfold bind.
      destruct (StpArchiveWriteToFileF _ _ compressed (bl_enable_crc b) w3)
        as [[r3 w4]|]; [|discriminate].
      unfold ret. now intros [= <- _ _ _]. }
    subst r1.
    destruct f1 as [f1|]; unfold fclose_wb, ret; now intros [= <- _ _].
Qed.

End FinalizeByPath.

Lemma StpBuilderFinalizeToFile_open_first_witness :
  let b := mkBuilder (Some [pending_entry (bytes_of_string "a.txt")
                                           (bytes_of_string "hello")]) None 5 false 1400 in
  let i := mkInode [1; 2; 3] true false in
  let w := mkWorld STP_OK
             (fun p => if String.eqb p "pack.stp" then Some i else None) in
  files w "pack.stp"%string = Some i
  /\ writable i = false
  /\ StpBuilderFinalizeToFile (zlib := stored_codec) zero_block (Some b)
       "pack.stp" false w
     = Defined ((false, Some b), set_error STP_ERROR_FILE_OPEN w).
Proof.
  intros b i w.
  assert (H1 : files w "pack.stp"%string = Some i) by reflexivity.
  assert (H2 : writable i = false) by reflexivity.
  repeat (split; [assumption|]).
  exact (proj1 (StpBuilderFinalizeToFile_open_first (zlib := stored_codec)
                  zero_block b "pack.stp" false w) i H1 H2).
Defined.

(** ** Reserving and appending strings *)



(** X24.  [StpBuilderAppendString] on a builder in the state
    [builder_inv], the allocator granting the array it may have to
    reserve, with a non-empty entry name: it returns true and stores
    the characters of the value that precede its terminator, and
    nothing else; for the empty string it reports
    [STP_ERROR_OUT_OF_RANGE] and nevertheless stores an entry of size
    zero and returns true. *)
Theorem StpBuilderAppendString_stores
    (b : StpArchiveBuilder) (nm value : list byte) (w : World) :
  builder_inv b ->
  reserve_granted (bl_count b) ->
  strlen nm <> 0 ->
  exists b',
    StpBuilderAppendString (Some b) (Some nm) value w
    = Defined ((true, Some b'),
               if strlen value =? 0 then set_error STP_ERROR_OUT_OF_RANGE w else w)
    /\ bl_pending b' = bl_pending b ++ [pending_entry nm (cstr value)]
    /\ be_size (pending_entry nm (cstr value)) = strlen value.
Proof.
  intros Hinv Hgr Hn. unfold StpBuilderAppendString.
  rewrite (append_step b nm (cstr value) w Hinv Hgr Hn).
  eexists. split; [reflexivity|]. split; reflexivity.
Qed.

Lemma StpBuilderAppendString_stores_witness :
  let b := mkBuilder (Some []) None 1 false 280 in
  let nm := bytes_of_string "a.txt" in
  let value := bytes_of_string "hello" ++ [0; 7; 7] in
  builder_inv b
  /\ reserve_granted (bl_count b)
  /\ strlen nm <> 0
  /\ exists b',
       StpBuilderAppendString (Some b) (Some nm) value empty_world
       = Defined ((true, Some b'),
                  if strlen value =? 0
                  then set_error STP_ERROR_OUT_OF_RANGE empty_world
                  else empty_world)
       /\ bl_pending b' = bl_pending b ++ [pending_entry nm (cstr value)]
       /\ be_size (pending_entry nm (cstr value)) = strlen value.
Proof.
  intros b nm value.
  assert (H1 : builder_inv b).
  { unfold builder_inv, b, bl_count, bl_pending.
    cbn [bl_entries bl_capacity bl_block length Z.of_nat].
    split; [discriminate|]. split; [reflexivity|]. split; [lia | constructor]. }
  assert (H2 : reserve_granted (bl_count b)) by (vm_compute; discriminate).
  assert (H3 : strlen nm <> 0) by (vm_compute; discriminate).
  repeat (split; [assumption|]).
  exact (StpBuilderAppendString_stores b nm value empty_world H1 H2 H3).
Defined.

(** ** A builder without an entry array *)

(** The first [StpBuilderAppendBinary] on a builder whose array is
    NULL: the array comes from the NULL branch of [StpBuilderReserve],
    asked for five slots. *)
Lemma append_null (b : StpArchiveBuilder) (nm buf : list byte) (w : World) :
  bl_entries b = None ->
  bl_capacity b <= 0 ->
  strlen nm <> 0 ->
  StpBuilderAppendBinary (Some b) (Some nm) (Some buf) w
  = Defined ((true,
              Some (mkBuilder (Some [pending_entry nm buf]) (bl_crc_data b) 5
                              (bl_enable_crc b) (5 * sizeof_StpEntry))),
             if Z.of_nat (length buf) =? 0
             then set_error STP_ERROR_OUT_OF_RANGE w else w).
Proof.
  intros Hnull Hcap Hn. rewrite (append_run b nm buf w Hn).
  unfold bind, StpBuilderReserve, bl_count, bl_pending. rewrite Hnull.
  cbn [length Z.of_nat].
  rewrite (proj2 (Z.leb_le _ _) Hcap). reflexivity.
Qed.

(** [StpBuilderAppendBinary] on an array that is not full: no room is
    reserved, and the store is inside the block or not. *)
Lemma append_in_place (b : StpArchiveBuilder) (es : list StpArchiveBuilderEntry)
    (nm buf : list byte) (w : World) :
  bl_entries b = Some es ->
  bl_count b < bl_capacity b ->
  strlen nm <> 0 ->
  StpBuilderAppendBinary (Some b) (Some nm) (Some buf) w
  = if slot_in_block b (bl_count b)
    then Defined ((true,
                   Some (mkBuilder (Some (es ++ [pending_entry nm buf])) (bl_crc_data b)
                                   (bl_capacity b) (bl_enable_crc b) (bl_block b))),
                  if Z.of_nat (length buf) =? 0
                  then set_error STP_ERROR_OUT_OF_RANGE w else w)
    else Undefined.
Proof.
  intros Hes Hlt Hn. rewrite (append_run b nm buf w Hn).
  unfold bind. rewrite (proj2 (Z.leb_gt _ _) Hlt).
  cbn [ret fst snd negb]. rewrite Hes.
  destruct (slot_in_block b (bl_count b)); reflexivity.
Qed.

(** [StpBuilderAppendBinary] on the block the NULL branch of
    [StpBuilderReserve] leaves when asked for five slots. *)
Lemma append_short_block (es : list StpArchiveBuilderEntry) (crc : option (list Z))
    (flag : bool) (nm buf : list byte) (w : World) :
  (length es < 5)%nat ->
  strlen nm <> 0 ->
  StpBuilderAppendBinary
    (Some (mkBuilder (Some es) crc 5 flag (5 * sizeof_StpEntry))) (Some nm) (Some buf) w
  = if (length es <? 4)%nat
    then Defined ((true,
                   Some (mkBuilder (Some (es ++ [pending_entry nm buf])) crc 5 flag
                                   (5 * sizeof_StpEntry))),
                  if Z.of_nat (length buf) =? 0
                  then set_error STP_ERROR_OUT_OF_RANGE w else w)
    else Undefined.
Proof.
  intros Hlen Hn.
  rewrite (append_in_place (mkBuilder (Some es) crc 5 flag (5 * sizeof_StpEntry))
             es nm buf w eq_refl);
    [|unfold bl_count, bl_pending; cbn [bl_entries bl_capacity]; lia|exact Hn].
  unfold slot_in_block, bl_count, bl_pending, sizeof_StpArchiveBuilderEntry,
    sizeof_StpEntry.
  cbn [bl_entries bl_block bl_crc_data bl_capacity bl_enable_crc].
  destruct (length es <? 4)%nat eqn:E;
    [apply Nat.ltb_lt in E | apply Nat.ltb_ge in E].
  - replace (280 * (Z.of_nat (length es) + 1) <=? 5 * 272) with true
      by (symmetry; apply Z.leb_le; lia).
    reflexivity.
  - replace (280 * (Z.of_nat (length es) + 1) <=? 5 * 272) with false
      by (symmetry; apply Z.leb_gt; lia).
    reflexivity.
Qed.

(** X25.  A builder whose entry array is NULL (created with capacity
    zero, or cleared) takes four entries and no more.  The first
    [StpBuilderAppendBinary] reserves five slots through the NULL
    branch of [StpBuilderReserve], which requests
    [5 * sizeof(StpEntry)] bytes; four entries of
    [sizeof(StpArchiveBuilderEntry)] bytes fit in that block, so four
    appends with non-empty names return true and are all pending; the
    fifth finds [count < capacity], reserves nothing, and stores
    [entries[4]] past the end of the block. *)
Theorem StpBuilderAppendBinary_fifth_store
    (b : StpArchiveBuilder) (n1 n2 n3 n4 n5 d1 d2 d3 d4 d5 : list byte) (w : World) :
  bl_entries b = None ->
  bl_capacity b <= 0 ->
  strlen n1 <> 0 -> strlen n2 <> 0 -> strlen n3 <> 0 ->
  strlen n4 <> 0 -> strlen n5 <> 0 ->
  exists b4 w4,
    (r1 <- StpBuilderAppendBinary (Some b) (Some n1) (Some d1) ;;
     r2 <- StpBuilderAppendBinary (snd r1) (Some n2) (Some d2) ;;
     r3 <- StpBuilderAppendBinary (snd r2) (Some n3) (Some d3) ;;
     StpBuilderAppendBinary (snd r3) (Some n4) (Some d4)) w
    = Defined ((true, Some b4), w4)
    /\ bl_pending b4
       = [pending_entry n1 d1; pending_entry n2 d2;
          pending_entry n3 d3; pending_entry n4 d4]
    /\ bl_capacity b4 = 5
    /\ bl_block b4 = 5 * sizeof_StpEntry
    /\ StpBuilderAppendBinary (Some b4) (Some n5) (Some d5) w4 = Undefined.
Proof.
  intros Hnull Hcap H1 H2 H3 H4 H5.
  unfold bind at 1. rewrite (append_null b n1 d1 w Hnull Hcap H1). cbn [snd].
  unfold bind at 1.
  rewrite (append_short_block [pending_entry n1 d1]) by (cbn; lia || assumption).
  cbn [length Nat.ltb Nat.leb app snd].
  unfold bind at 1.
  rewrite (append_short_block [pending_entry n1 d1; pending_entry n2 d2])
    by (cbn; lia || assumption).
  cbn [length Nat.ltb Nat.leb app snd].
  rewrite (append_short_block [pending_entry n1 d1; pending_entry n2 d2;
                               pending_entry n3 d3])
    by (cbn; lia || assumption).
  cbn [length Nat.ltb Nat.leb app].
  eexists. eexists. split; [reflexivity|].
  split; [reflexivity|]. split; [reflexivity|]. split; [reflexivity|].
  rewrite (append_short_block [pending_entry n1 d1; pending_entry n2 d2;
                               pending_entry n3 d3; pending_entry n4 d4])
    by (cbn; lia || assumption).
  reflexivity.
Qed.

Lemma StpBuilderAppendBinary_fifth_store_witness :
  let b := mkBuilder None None 0 false 0 in
  let n1 := bytes_of_string "a" in
  let n2 := bytes_of_string "b" in
  let n3 := bytes_of_string "c" in
  let n4 := bytes_of_string "d" in
  let n5 := bytes_of_string "e" in
  let d := bytes_of_string "hello" in
  bl_entries b = None
  /\ bl_capacity b <= 0
  /\ strlen n1 <> 0 /\ strlen n2 <> 0 /\ strlen n3 <> 0
  /\ strlen n4 <> 0 /\ strlen n5 <> 0
  /\ StpCreateArchiveBuilder 0 false empty_world = Defined (Some b, empty_world)
  /\ exists b4 w4,
       (r1 <- StpBuilderAppendBinary (Some b) (Some n1) (Some d) ;;
        r2 <- StpBuilderAppendBinary (snd r1) (Some n2) (Some d) ;;
        r3 <- StpBuilderAppendBinary (snd r2) (Some n3) (Some d) ;;
        StpBuilderAppendBinary (snd r3) (Some n4) (Some d)) empty_world
       = Defined ((true, Some b4), w4)
       /\ bl_pending b4
          = [pending_entry n1 d; pending_entry n2 d;
             pending_entry n3 d; pending_entry n4 d]
       /\ bl_capacity b4 = 5
       /\ bl_block b4 = 5 * sizeof_StpEntry
       /\ StpBuilderAppendBinary (Some b4) (Some n5) (Some d) w4 = Undefined.
Proof.
  intros b n1 n2 n3 n4 n5 d.
  assert (H0 : bl_entries b = None) by reflexivity.
  assert (Hc : bl_capacity b <= 0) by (cbn; lia).
  assert (H1 : strlen n1 <> 0) by (vm_compute; discriminate).
  assert (H2 : strlen n2 <> 0) by (vm_compute; discriminate).
  assert (H3 : strlen n3 <> 0) by (vm_compute; discriminate).
  assert (H4 : strlen n4 <> 0) by (vm_compute; discriminate).
  assert (H5 : strlen n5 <> 0) by (vm_compute; discriminate).
  assert (H6 : StpCreateArchiveBuilder 0 false empty_world
               = Defined (Some b, empty_world)) by reflexivity.
  repeat (split; [assumption|]).
  exact (StpBuilderAppendBinary_fifth_store b n1 n2 n3 n4 n5 d d d d d empty_world
           H0 Hc H1 H2 H3 H4 H5).
Defined.
